(** * Placeholder image generator: generation and caching core

    A shallow embedding of the Go sources (types.go, the image generator,
    the font pool and the HTTP handler) together with the parts of the Go
    standard library they call (unicode/utf8, strconv, fmt's %d and %x,
    crypto/md5, strings.Split, url.QueryUnescape), and the properties of the
    natural-language specification, and further properties of the sources,
    proved about them.

    Go strings are byte sequences: they are modelled by [string], each
    [ascii] being one byte.  Go's [int] is modelled by [Z], [float64] by the
    primitive binary64 floats. *)

From Stdlib Require Import ZArith List String Ascii Bool Lia.
From Stdlib Require Import Floats Uint63.
From Stdlib Require Import DecimalString DecimalZ.
Import ListNotations.

#[local] Open Scope string_scope.
#[local] Open Scope Z_scope.
#[local] Set Warnings "-inexact-float".

(* ================================================================= *)
(** ** Bytes and strings *)

Definition byte_val (c : ascii) : Z := Z.of_N (N_of_ascii c).

Definition byte_of (z : Z) : ascii := ascii_of_N (Z.to_N (z mod 256)).

Fixpoint bytes (s : string) : list Z :=
  match s with
  | EmptyString => []
  | String c s' => byte_val c :: bytes s'
  end.

Fixpoint string_of_bytes (l : list Z) : string :=
  match l with
  | [] => EmptyString
  | b :: l' => String (byte_of b) (string_of_bytes l')
  end.

Definition len (s : string) : Z := Z.of_nat (String.length s).

(** [s[i:j]] for [0 <= i <= j <= len s]. *)
Definition slice (s : string) (i j : nat) : string := substring i (j - i) s.

(* ================================================================= *)
(** ** Errors

    [errors.New] and [fmt.Errorf] build an error out of its message;
    strconv reports a [*NumError]; the rendering and encoding libraries
    report errors of their own. *)

Inductive NumErrKind :=
| ErrSyntax
| ErrRange
| ErrBase (base : Z)
| ErrBitSize (bitSize : Z).

Inductive error :=
| errorString (msg : string)
| NumError (fn num : string) (k : NumErrKind)
| LibError (pkg msg : string).

Inductive result (A : Type) :=
| Ok (a : A)
| Err (e : error).
Arguments Ok {A} a.
Arguments Err {A} e.

Definition is_ok {A} (r : result A) : bool :=
  match r with Ok _ => true | Err _ => false end.

(* ================================================================= *)
(** ** unicode/utf8 *)

Module utf8.

Definition RuneSelf : Z := 0x80.
Definition locb : Z := 0x80.
Definition hicb : Z := 0xBF.

Definition xx : Z := 0xF1.
Definition as_ : Z := 0xF0.
Definition s1 : Z := 0x02.
Definition s2 : Z := 0x13.
Definition s3 : Z := 0x03.
Definition s4 : Z := 0x23.
Definition s5 : Z := 0x34.
Definition s6 : Z := 0x04.
Definition s7 : Z := 0x44.

(** The table [first]: information about the first byte of an encoding. *)
Definition first (c : Z) : Z :=
  if c <? 0x80 then as_
  else if c <? 0xC2 then xx
  else if c <? 0xE0 then s1
  else if c =? 0xE0 then s2
  else if c <? 0xED then s3
  else if c =? 0xED then s4
  else if c <? 0xF0 then s3
  else if c =? 0xF0 then s5
  else if c <? 0xF4 then s6
  else if c =? 0xF4 then s7
  else xx.

Definition acceptRanges (i : Z) : Z * Z :=
  match i with
  | 0 => (locb, hicb)
  | 1 => (0xA0, hicb)
  | 2 => (locb, 0x9F)
  | 3 => (0x90, hicb)
  | 4 => (locb, 0x8F)
  | _ => (0, 0)
  end.

(** One turn of the decoding loop shared by [RuneCountInString] and
    [ValidString], at a position whose byte is [c] and whose following bytes
    are [rest]: [Some size] when a well-formed encoding of [size] bytes starts
    there, [None] when the byte is invalid or the encoding is cut short. *)
Definition decodeStep (c : Z) (rest : list Z) : option nat :=
  if c <? RuneSelf then Some 1%nat
  else
    let x := first c in
    if x =? xx then None
    else
      let size := Z.land x 7 in
      if Z.of_nat (List.length rest) + 1 <? size then None
      else
        let '(lo, hi) := acceptRanges (Z.shiftr x 4) in
        let c1 := nth 0 rest 0 in
        if (c1 <? lo) || (hi <? c1) then None
        else if size =? 2 then Some 2%nat
        else
          let c2 := nth 1 rest 0 in
          if (c2 <? locb) || (hicb <? c2) then None
          else if size =? 3 then Some 3%nat
          else
            let c3 := nth 2 rest 0 in
            if (c3 <? locb) || (hicb <? c3) then None
            else Some 4%nat.

(** The loop of [RuneCountInString]: [s] is what is left of the string at
    index [i], [n] the runes counted so far.  An invalid byte counts as one
    rune of width one.  Every turn consumes a byte, so [fuel] equal to the
    length of [s] is enough. *)
Fixpoint RuneCount_loop (fuel : nat) (s : list Z) (n : Z) : Z :=
  match fuel with
  | O => n
  | S fuel' =>
      match s with
      | [] => n
      | c :: rest =>
          match decodeStep c rest with
          | Some size => RuneCount_loop fuel' (skipn size s) (n + 1)
          | None => RuneCount_loop fuel' rest (n + 1)
          end
      end
  end.

Definition RuneCountInString (s : string) : Z :=
  RuneCount_loop (String.length s) (bytes s) 0.

Fixpoint Valid_loop (fuel : nat) (s : list Z) : bool :=
  match fuel with
  | O => true
  | S fuel' =>
      match s with
      | [] => true
      | c :: rest =>
          match decodeStep c rest with
          | Some size => Valid_loop fuel' (skipn size s)
          | None => false
          end
      end
  end.

Definition ValidString (s : string) : bool :=
  Valid_loop (String.length s) (bytes s).

End utf8.

(* ================================================================= *)
(** ** strconv

    [ParseUint], [ParseInt] and [Atoi] for an explicit base between 2 and 36
    (the callers pass 10 and 16; the prefix and underscore handling of base 0
    is not needed).  A Go result [(v, err)] is a pair whose second component
    is [None] for a nil error. *)

Module strconv.

Definition fnParseUint := "ParseUint".
Definition fnParseInt := "ParseInt".
Definition fnAtoi := "Atoi".

Definition syntaxError (fn str : string) : error := NumError fn str ErrSyntax.
Definition rangeError (fn str : string) : error := NumError fn str ErrRange.
Definition baseError (fn str : string) (base : Z) : error :=
  NumError fn str (ErrBase base).
Definition bitSizeError (fn str : string) (bitSize : Z) : error :=
  NumError fn str (ErrBitSize bitSize).

Definition IntSize : Z := 64.
Definition maxUint64 : Z := 2 ^ 64 - 1.

(** [lower(c) = c | ('x' - 'X')] *)
Definition lower (c : Z) : Z := Z.lor c 0x20.

(** The value of byte [c] as a digit, for any base up to 36. *)
Definition digitVal (c : Z) : option Z :=
  if (48 <=? c) && (c <=? 57) then Some (c - 48)
  else if (97 <=? lower c) && (lower c <=? 122) then Some (lower c - 97 + 10)
  else None.

Fixpoint ParseUint_loop (s0 : string) (base cutoff maxVal : Z)
    (cs : list Z) (n : Z) : Z * option error :=
  match cs with
  | [] => (n, None)
  | c :: cs' =>
      match digitVal c with
      | None => (0, Some (syntaxError fnParseUint s0))
      | Some d =>
          if base <=? d then (0, Some (syntaxError fnParseUint s0))
          else if cutoff <=? n then (maxVal, Some (rangeError fnParseUint s0))
          else
            let n' := (n * base) mod 2 ^ 64 in
            let n1 := (n' + d) mod 2 ^ 64 in
            if (n1 <? n') || (maxVal <? n1)
            then (maxVal, Some (rangeError fnParseUint s0))
            else ParseUint_loop s0 base cutoff maxVal cs' n1
      end
  end.

Definition ParseUint (s : string) (base bitSize : Z) : Z * option error :=
  if String.eqb s "" then (0, Some (syntaxError fnParseUint s))
  else if negb ((2 <=? base) && (base <=? 36))
  then (0, Some (baseError fnParseUint s base))
  else
    let bitSize := if bitSize =? 0 then IntSize else bitSize in
    if (bitSize <? 0) || (64 <? bitSize)
    then (0, Some (bitSizeError fnParseUint s bitSize))
    else
      let cutoff := maxUint64 / base + 1 in
      let maxVal := 2 ^ bitSize - 1 in
      ParseUint_loop s base cutoff maxVal (bytes s) 0.

Definition ParseInt (s : string) (base bitSize : Z) : Z * option error :=
  match s with
  | EmptyString => (0, Some (syntaxError fnParseInt s))
  | String c0 rest =>
      let neg := byte_val c0 =? 45 in
      let s' := if (byte_val c0 =? 43) || neg then rest else s in
      let '(un, err) := ParseUint s' base bitSize in
      let checked :=
        let bitSize := if bitSize =? 0 then IntSize else bitSize in
        let cutoff := 2 ^ (bitSize - 1) in
        if negb neg && (cutoff <=? un)
        then (cutoff - 1, Some (rangeError fnParseInt s))
        else if neg && (cutoff <? un)
        then (- cutoff, Some (rangeError fnParseInt s))
        else ((if neg then - un else un), None) in
      match err with
      | None | Some (NumError _ _ ErrRange) => checked
      | Some (NumError _ _ k) => (0, Some (NumError fnParseInt s k))
      | Some e => (0, Some e)
      end
  end.

(** The fast path of [Atoi]: the digits accumulated into an [int]. *)
Fixpoint Atoi_fast (cs : list Z) (n : Z) : option Z :=
  match cs with
  | [] => Some n
  | ch :: cs' =>
      let ch' := (ch - 48) mod 256 in
      if 9 <? ch' then None else Atoi_fast cs' (n * 10 + ch')
  end.

Definition Atoi (s : string) : Z * option error :=
  let sLen := len s in
  if (0 <? sLen) && (sLen <? 19) then
    match s with
    | EmptyString => (0, Some (syntaxError fnAtoi s))
    | String c0 rest =>
        let signed := (byte_val c0 =? 45) || (byte_val c0 =? 43) in
        let s' := if signed then rest else s in
        if len s' <? 1 then (0, Some (syntaxError fnAtoi s))
        else
          match Atoi_fast (bytes s') 0 with
          | None => (0, Some (syntaxError fnAtoi s))
          | Some n => ((if byte_val c0 =? 45 then - n else n), None)
          end
    end
  else
    let '(i64, err) := ParseInt s 10 0 in
    match err with
    | Some (NumError _ num k) => (i64, Some (NumError fnAtoi num k))
    | _ => (i64, err)
    end.

End strconv.

(* ================================================================= *)
(** ** fmt: the verbs used by the sources *)

Module fmt.

(** [%d] of an [int]. *)
Definition d (z : Z) : string := NilZero.string_of_int (Z.to_int z).

Definition hexDigit (z : Z) : ascii :=
  byte_of (if z <? 10 then 48 + z else 87 + z).

(** [%x] of a byte array: two lower-case hexadecimal digits a byte. *)
Fixpoint x (bs : list Z) : string :=
  match bs with
  | [] => ""
  | b :: bs' => String (hexDigit (b / 16)) (String (hexDigit (b mod 16)) (x bs'))
  end.

End fmt.

(* ================================================================= *)
(** ** crypto/md5

    [md5.Sum] as the MD5 function of RFC 1321, on 32-bit words with their
    wrap-around written out. *)

Module md5.

Definition Size : nat := 16.

Definition w32 (z : Z) : Z := z mod 2 ^ 32.
Definition not32 (a : Z) : Z := Z.lxor a 0xffffffff.
Definition rotl (a c : Z) : Z :=
  w32 (Z.lor (Z.shiftl a c) (Z.shiftr a (32 - c))).

Definition shifts : list Z :=
  [7; 12; 17; 22; 7; 12; 17; 22; 7; 12; 17; 22; 7; 12; 17; 22;
   5;  9; 14; 20; 5;  9; 14; 20; 5;  9; 14; 20; 5;  9; 14; 20;
   4; 11; 16; 23; 4; 11; 16; 23; 4; 11; 16; 23; 4; 11; 16; 23;
   6; 10; 15; 21; 6; 10; 15; 21; 6; 10; 15; 21; 6; 10; 15; 21].

Definition K : list Z :=
  [0xd76aa478; 0xe8c7b756; 0x242070db; 0xc1bdceee;
   0xf57c0faf; 0x4787c62a; 0xa8304613; 0xfd469501;
   0x698098d8; 0x8b44f7af; 0xffff5bb1; 0x895cd7be;
   0x6b901122; 0xfd987193; 0xa679438e; 0x49b40821;
   0xf61e2562; 0xc040b340; 0x265e5a51; 0xe9b6c7aa;
   0xd62f105d; 0x02441453; 0xd8a1e681; 0xe7d3fbc8;
   0x21e1cde6; 0xc33707d6; 0xf4d50d87; 0x455a14ed;
   0xa9e3e905; 0xfcefa3f8; 0x676f02d9; 0x8d2a4c8a;
   0xfffa3942; 0x8771f681; 0x6d9d6122; 0xfde5380c;
   0xa4beea44; 0x4bdecfa9; 0xf6bb4b60; 0xbebfbc70;
   0x289b7ec6; 0xeaa127fa; 0xd4ef3085; 0x04881d05;
   0xd9d4d039; 0xe6db99e5; 0x1fa27cf8; 0xc4ac5665;
   0xf4292244; 0x432aff97; 0xab9423a7; 0xfc93a039;
   0x655b59c3; 0x8f0ccc92; 0xffeff47d; 0x85845dd1;
   0x6fa87e4f; 0xfe2ce6e0; 0xa3014314; 0x4e0811a1;
   0xf7537e82; 0xbd3af235; 0x2ad7d2bb; 0xeb86d391].

Definition digest : Type := Z * Z * Z * Z.

Definition init : digest := (0x67452301, 0xefcdab89, 0x98badcfe, 0x10325476).

(** Little-endian words of a block, and bytes of a word. *)
Fixpoint words (bs : list Z) : list Z :=
  match bs with
  | b0 :: b1 :: b2 :: b3 :: r =>
      (b0 + 2 ^ 8 * b1 + 2 ^ 16 * b2 + 2 ^ 24 * b3) :: words r
  | _ => []
  end.

Definition le_bytes (n : nat) (w : Z) : list Z :=
  map (fun i => (w / 2 ^ (8 * Z.of_nat i)) mod 256) (seq 0 n).

Definition step (M : list Z) (st : digest) (i : nat) : digest :=
  let '(A, B, C, D) := st in
  let iz := Z.of_nat i in
  let '(F, g) :=
    if iz <? 16 then (Z.lor (Z.land B C) (Z.land (not32 B) D), iz)
    else if iz <? 32
    then (Z.lor (Z.land D B) (Z.land (not32 D) C), (5 * iz + 1) mod 16)
    else if iz <? 48 then (Z.lxor (Z.lxor B C) D, (3 * iz + 5) mod 16)
    else (Z.lxor C (Z.lor B (not32 D)), (7 * iz) mod 16) in
  let F' := w32 (F + A + nth i K 0 + nth (Z.to_nat g) M 0) in
  (D, w32 (B + rotl F' (nth i shifts 0)), B, C).

Definition block (st : digest) (blk : list Z) : digest :=
  let '(a0, b0, c0, d0) := st in
  let '(A, B, C, D) := fold_left (step (words blk)) (seq 0 64) st in
  (w32 (a0 + A), w32 (b0 + B), w32 (c0 + C), w32 (d0 + D)).

Fixpoint blocks (n : nat) (bs : list Z) (st : digest) : digest :=
  match n with
  | O => st
  | S n' => blocks n' (skipn 64 bs) (block st (firstn 64 bs))
  end.

Definition pad (msg : list Z) : list Z :=
  let l := Z.of_nat (List.length msg) in
  msg ++ [0x80] ++ repeat 0 (Z.to_nat ((55 - l) mod 64))
      ++ le_bytes 8 ((8 * l) mod 2 ^ 64).

Definition Sum (data : list Z) : list Z :=
  let p := pad data in
  let '(a, b, c, d) := blocks (Nat.div (List.length p) 64) p init in
  le_bytes 4 a ++ le_bytes 4 b ++ le_bytes 4 c ++ le_bytes 4 d.

End md5.

(* ================================================================= *)
(** ** regexp: the two patterns of types.go *)

Definition isDigit (c : ascii) : bool :=
  (48 <=? byte_val c) && (byte_val c <=? 57).

(** [[a-fA-F0-9]] *)
Definition isHexDigit (c : ascii) : bool :=
  let b := byte_val c in
  ((97 <=? b) && (b <=? 102)) || ((65 <=? b) && (b <=? 70))
  || ((48 <=? b) && (b <=? 57)).

Fixpoint forallb_string (p : ascii -> bool) (s : string) : bool :=
  match s with
  | EmptyString => true
  | String c s' => p c && forallb_string p s'
  end.

(** The longest prefix of [s] made of characters of class [p], and what
    follows it. *)
Fixpoint span (p : ascii -> bool) (s : string) : string * string :=
  match s with
  | EmptyString => ("", "")
  | String c s' =>
      if p c then let '(a, b) := span p s' in (String c a, b)
      else ("", s)
  end.

(** [sizeRegex.FindStringSubmatch] for [sizeRegex = ^(\d+)x(\d+)$]: the whole
    match and its two groups, or nil.  A digit is never [x], so the greedy
    first group is the longest digit prefix and nothing is gained by
    backtracking; [$] is the end of the text. *)
Definition sizeRegex_FindStringSubmatch (s : string) : list string :=
  let '(g1, r) := span isDigit s in
  match g1, r with
  | String _ _, String c r' =>
      if byte_val c =? 120 then
        let '(g2, r2) := span isDigit r' in
        match g2, r2 with
        | String _ _, EmptyString => [s; g1; g2]
        | _, _ => []
        end
      else []
  | _, _ => []
  end.

(** [colorRegex.MatchString] for [colorRegex = ^[a-fA-F0-9]{6}$]. *)
Definition colorRegex_MatchString (s : string) : bool :=
  (String.length s =? 6)%nat && forallb_string isHexDigit s.

(* ================================================================= *)
(** ** types.go: the request model *)

Record ImageRequest := {
  Width : Z;
  Height : Z;
  Type_ : string;
  BgColor : string;
  FgColor : string;
  Text : string
}.

Module ImageSize.
Record t := { Width : Z; Height : Z }.
End ImageSize.

Module RequestQueryParams.
Record t := { Size : string; Bg : string; Fg : string; Text : string }.
End RequestQueryParams.

Definition MaxImageSize : Z := 3000.
Definition DefaultBg : string := "cccccc".
Definition DefaultFg : string := "666666".
Definition DefaultType : string := "png".

(** The map [validTypes]; a key that is absent reads as [false]. *)
Definition validTypes (k : string) : bool :=
  existsb (String.eqb k) ["png"; "gif"; "jpg"; "jpeg"; "webp"].

Definition ParseSize (sizeStr : string) : result ImageSize.t :=
  let matches := sizeRegex_FindStringSubmatch sizeStr in
  if negb (List.length matches =? 3)%nat
  then Err (errorString "invalid size format, expected WIDTHxHEIGHT")
  else
    let '(width, err) := strconv.Atoi (nth 1 matches "") in
    match err with
    | Some _ => Err (errorString "invalid width")
    | None =>
        let '(height, err) := strconv.Atoi (nth 2 matches "") in
        match err with
        | Some _ => Err (errorString "invalid height")
        | None =>
            if (width <=? 0) || (height <=? 0)
               || (MaxImageSize <? width) || (MaxImageSize <? height)
            then Err (errorString ("size must be between 1x1 and "
                        ++ fmt.d MaxImageSize ++ "x" ++ fmt.d MaxImageSize))
            else Ok {| ImageSize.Width := width; ImageSize.Height := height |}
        end
    end.

Definition applyDefault (value defaultValue : string) : string :=
  if String.eqb value "" then defaultValue else value.

Definition ValidateColor (color : string) : bool :=
  if String.eqb color "" then true else colorRegex_MatchString color.

(** [strings.ToLower]: the ASCII path is the library's own; a string with a
    byte outside ASCII goes through the Unicode tables, which are taken as a
    parameter. *)
Definition isASCII (s : string) : bool :=
  forallb_string (fun c => byte_val c <? utf8.RuneSelf) s.

Definition lowerASCII (c : ascii) : ascii :=
  let b := byte_val c in
  if (65 <=? b) && (b <=? 90) then byte_of (b + 32) else c.

Fixpoint map_string (f : ascii -> ascii) (s : string) : string :=
  match s with
  | EmptyString => EmptyString
  | String c s' => String (f c) (map_string f s')
  end.

(* ================================================================= *)
(** ** The result cache *)

Module cache.

(** Modelled from the spec: package [cache] of this repository (the type
    [LruCache] with [New], [WithSize], [WithAge], [WithUpdateAgeOnGet], [Get]
    and [Set]) is imported by the generator but is not among the sources.
    The model follows the spec's data model (CacheEntry) and its Result Cache
    contract: a capacity bound with least-recently-used eviction; an entry
    older than the time to live reads as absent although it is still
    resident; a hit refreshes the recency of the entry.  Time is a number of
    seconds handed to each operation; a value stored is the encoded image. *)
Record CacheEntry := {
  key : string;
  encodedBytes : list Z;
  insertedAt : Z;
  lastAccessedAt : Z
}.

(** Modelled from the spec: the cache is its options and its resident
    entries. *)
Record LruCache := {
  size : nat;
  age : Z;
  updateAgeOnGet : bool;
  entries : list CacheEntry
}.

(** Modelled from the spec: [cache.New(WithSize(n), WithAge(a),
    WithUpdateAgeOnGet())] is an empty cache with that capacity and time to
    live. *)
Definition New (n : nat) (a : Z) (upd : bool) : LruCache :=
  {| size := n; age := a; updateAgeOnGet := upd; entries := [] |}.

Definition with_entries (c : LruCache) (es : list CacheEntry) : LruCache :=
  {| size := size c; age := age c; updateAgeOnGet := updateAgeOnGet c;
     entries := es |}.

(** Modelled from the spec: the moment the age of an entry is counted from
    is its last access when hits refresh it, its insertion otherwise. *)
Definition expired (c : LruCache) (now : Z) (e : CacheEntry) : bool :=
  age c <? now - (if updateAgeOnGet c then lastAccessedAt e else insertedAt e).

Definition touch (k : string) (now : Z) (e : CacheEntry) : CacheEntry :=
  if String.eqb (key e) k
  then {| key := key e; encodedBytes := encodedBytes e;
          insertedAt := insertedAt e; lastAccessedAt := now |}
  else e.

(** Modelled from the spec: [get(key) -> bytes | miss].  A miss, whether the
    key is absent or its entry has expired, leaves the cache as it is. *)
Definition get (c : LruCache) (k : string) (now : Z)
    : LruCache * option (list Z) :=
  match find (fun e => String.eqb (key e) k) (entries c) with
  | None => (c, None)
  | Some e =>
      if expired c now e then (c, None)
      else (with_entries c (map (touch k now) (entries c)),
            Some (encodedBytes e))
  end.

(** The entry accessed longest ago, the first of them on a tie. *)
Fixpoint oldest (es : list CacheEntry) : option CacheEntry :=
  match es with
  | [] => None
  | e :: es' =>
      match oldest es' with
      | None => Some e
      | Some o => if lastAccessedAt o <? lastAccessedAt e then Some o else Some e
      end
  end.

Definition evict (es : list CacheEntry) : list CacheEntry :=
  match oldest es with
  | None => es
  | Some o => filter (fun e => negb (String.eqb (key e) (key o))) es
  end.

(** Modelled from the spec: [put(key, bytes)].  The key's former entry is
    replaced; at capacity the least recently used entry makes room. *)
Definition put (c : LruCache) (k : string) (v : list Z) (now : Z) : LruCache :=
  let es := filter (fun e => negb (String.eqb (key e) k)) (entries c) in
  let es := if (size c <=? List.length es)%nat then evict es else es in
  with_entries c
    (es ++ [{| key := k; encodedBytes := v;
               insertedAt := now; lastAccessedAt := now |}]).

End cache.

(* ================================================================= *)
(** ** Fonts, colors and the drawing context *)

(** A font program decoded by [opentype.Parse] from the bytes given. *)
Inductive Font := ParsedFont (data : string).

Module FaceOptions.
Record t := { Size : float; DPI : float }.
End FaceOptions.

(** A face built by [opentype.NewFace] is bound to a font and to the
    options, point size and resolution, it was built with. *)
Record Face := { face_font : Font; face_opts : FaceOptions.t }.

Record RGBA := { R : Z; G : Z; B : Z; A : Z }.

(** The face a drawing context measures and draws with: the one it starts
    with, one handed over by [SetFontFace], or one that
    [LoadFontFace(path, points)] loaded from a font file. *)
Inductive FontSel :=
| DefaultFace
| GivenFace (f : Face)
| LoadedFace (path : string) (points : float).

Inductive DrawOp :=
| OpClear (c : RGBA)
| OpDrawStringAnchored (s : string) (x y ax ay : float) (c : RGBA)
    (font : FontSel).

(** A [gg.Context]: the canvas with what was drawn on it, in order, and the
    current color and face. *)
Record Context := {
  ctx_width : Z;
  ctx_height : Z;
  ctx_color : RGBA;
  ctx_fontFace : FontSel;
  ctx_ops : list DrawOp
}.

(** The [image.Image] of a context: the canvas and what was drawn on it. *)
Record Image := { im_width : Z; im_height : Z; im_ops : list DrawOp }.

Module gg.

Definition NewContext (w h : Z) : Context :=
  {| ctx_width := w; ctx_height := h;
     ctx_color := {| R := 0; G := 0; B := 0; A := 0 |};
     ctx_fontFace := DefaultFace; ctx_ops := [] |}.

Definition SetColor (dc : Context) (c : RGBA) : Context :=
  {| ctx_width := ctx_width dc; ctx_height := ctx_height dc; ctx_color := c;
     ctx_fontFace := ctx_fontFace dc; ctx_ops := ctx_ops dc |}.

Definition Clear (dc : Context) : Context :=
  {| ctx_width := ctx_width dc; ctx_height := ctx_height dc;
     ctx_color := ctx_color dc; ctx_fontFace := ctx_fontFace dc;
     ctx_ops := ctx_ops dc ++ [OpClear (ctx_color dc)] |}.

Definition SetFontFace (dc : Context) (f : Face) : Context :=
  {| ctx_width := ctx_width dc; ctx_height := ctx_height dc;
     ctx_color := ctx_color dc; ctx_fontFace := GivenFace f;
     ctx_ops := ctx_ops dc |}.

(** [dc.LoadFontFace(path, points)]: the face loaded replaces the current
    one; when the file cannot be read or parsed the context stays as it is
    and the error is returned.  [load] tells whether the file loads. *)
Definition LoadFontFace (load : string -> float -> option error)
    (dc : Context) (path : string) (points : float) : Context * option error :=
  match load path points with
  | Some err => (dc, Some err)
  | None =>
      ({| ctx_width := ctx_width dc; ctx_height := ctx_height dc;
          ctx_color := ctx_color dc; ctx_fontFace := LoadedFace path points;
          ctx_ops := ctx_ops dc |}, None)
  end.

Definition DrawStringAnchored (dc : Context) (s : string)
    (x y ax ay : float) : Context :=
  {| ctx_width := ctx_width dc; ctx_height := ctx_height dc;
     ctx_color := ctx_color dc; ctx_fontFace := ctx_fontFace dc;
     ctx_ops := ctx_ops dc
       ++ [OpDrawStringAnchored s x y ax ay (ctx_color dc) (ctx_fontFace dc)] |}.

Definition Image (dc : Context) : Image :=
  {| im_width := ctx_width dc; im_height := ctx_height dc;
     im_ops := ctx_ops dc |}.

End gg.

(* ================================================================= *)
(** ** Options of the encoders *)

Module jpeg.
Record Options := { Quality : Z }.
End jpeg.

Module webp.
Record Options := { Lossless : bool; Quality : float; Exact : bool }.
End webp.

Module gif.
Record Options := { NumColors : Z }.
End gif.

(** [float64(n)] of an [int] of magnitude below [2^63]. *)
Definition float64 (n : Z) : float :=
  if n <? 0 then (- of_uint63 (Uint63.of_Z (- n)))%float
  else of_uint63 (Uint63.of_Z n).

(* ================================================================= *)
(** ** The font pool and the image generator *)

Definition FONT_POOL_SIZE : Z := 32.
Definition MAX_CACHE_ITEMS : Z := 10000.
Definition CACHE_MAX_AGE : Z := 3600.

(** The package variables [parsedFont], [fontParseErr] and [fontOnce]:
    [None] until the one-time parse has run, its outcome afterwards. *)
Record FontGlobals := { fontOnce : option (result Font) }.

(** The buffered channel [fonts]: what is queued and the capacity. *)
Record FontPool := { fonts : list Face; fonts_cap : nat }.

Record ImageGenerator := { memoryCache : cache.LruCache; fontPool : FontPool }.

Definition set_Text (req : ImageRequest) (t : string) : ImageRequest :=
  {| Width := Width req; Height := Height req; Type_ := Type_ req;
     BgColor := BgColor req; FgColor := FgColor req; Text := t |}.

Definition set_memoryCache (ig : ImageGenerator) (c : cache.LruCache)
    : ImageGenerator :=
  {| memoryCache := c; fontPool := fontPool ig |}.

Definition set_fontPool (ig : ImageGenerator) (fp : FontPool)
    : ImageGenerator :=
  {| memoryCache := memoryCache ig; fontPool := fp |}.

Definition parseHexColor (hexColor : string) : result RGBA :=
  if negb (len hexColor =? 6)
  then Err (errorString ("invalid hex color length: " ++ hexColor))
  else
    let '(r, err) := strconv.ParseUint (slice hexColor 0 2) 16 8 in
    match err with
    | Some e => Err e
    | None =>
        let '(g, err) := strconv.ParseUint (slice hexColor 2 4) 16 8 in
        match err with
        | Some e => Err e
        | None =>
            let '(b, err) := strconv.ParseUint (slice hexColor 4 6) 16 8 in
            match err with
            | Some e => Err e
            | None =>
                Ok {| R := r mod 256; G := g mod 256; B := b mod 256;
                      A := 255 |}
            end
        end
    end.

Definition calculateOptimalFontSize (width height : Z) (text : string)
    : float :=
  let minDim := float64 width in
  let minDim := if height <? width then float64 height else minDim in
  let runeCount := float64 (utf8.RuneCountInString text) in
  let runeCount := if (runeCount =? 0)%float then 1%float else runeCount in
  let targetWidthRatio := 0.85%float in
  let avgCharWidth := (float64 width * targetWidthRatio / runeCount)%float in
  let dimensionScale := (minDim / 200.0)%float in
  let baseFontSize := (avgCharWidth * 0.8 * dimensionScale)%float in
  let maxFontSize := (minDim * 0.4)%float in
  let minFontSize := (minDim * 0.02)%float in
  let minFontSize :=
    if (minFontSize <? 12.0)%float then 12.0%float else minFontSize in
  let maxFontSize :=
    if (150.0 <? maxFontSize)%float then 150.0%float else maxFontSize in
  let fontSize := baseFontSize in
  let fontSize :=
    if (maxFontSize <? fontSize)%float then maxFontSize else fontSize in
  let fontSize :=
    if (fontSize <? minFontSize)%float then minFontSize else fontSize in
  fontSize.

Definition cacheKeyString (req : ImageRequest) : string :=
  fmt.d (Width req) ++ "x" ++ fmt.d (Height req) ++ "_" ++ Type_ req ++ "_"
    ++ BgColor req ++ "_" ++ FgColor req ++ "_" ++ Text req.

Definition getCacheKey (req : ImageRequest) : string :=
  let key := cacheKeyString req in
  let hash := md5.Sum (bytes key) in
  fmt.x hash.

(* ================================================================= *)
(** ** handler.go: the HTTP handler

    The handler with what it calls of the standard library ([strings.Split],
    [url.QueryUnescape]) and what it leaves in the [fiber.Ctx]. *)

(** [strings.Split(s, sep)] for a separator [sep] of one byte: the pieces of
    [s] between the occurrences of [sep], one more than there are
    occurrences. *)
Fixpoint strings_Split (s : string) (sep : ascii) : list string :=
  match s with
  | EmptyString => [""]
  | String c s' =>
      if Ascii.eqb c sep then "" :: strings_Split s' sep
      else
        match strings_Split s' sep with
        | [] => [String c ""]
        | p :: ps => String c p :: ps
        end
  end.

Module url.

(** The error value [EscapeError(s)]: it carries the escape that is
    malformed. *)
Definition EscapeError (s : string) : error := LibError "url.EscapeError" s.

Definition ishex (c : Z) : bool :=
  ((48 <=? c) && (c <=? 57)) || ((97 <=? c) && (c <=? 102))
  || ((65 <=? c) && (c <=? 70)).

(** [unhex] is called on bytes that [ishex] has accepted. *)
Definition unhex (c : Z) : Z :=
  if (48 <=? c) && (c <=? 57) then c - 48
  else if (97 <=? c) && (c <=? 102) then c - 97 + 10
  else if (65 <=? c) && (c <=? 70) then c - 65 + 10
  else 0.

(** The first loop of [unescape] in the mode of a query component: the
    number of [%] and whether a [+] was seen; a [%] that is not followed by
    two hexadecimal digits is an error, which carries at most three bytes
    from the [%] on. *)
Fixpoint unescape_scan (s : string) (n : Z) (hasPlus : bool)
    : result (Z * bool) :=
  match s with
  | EmptyString => Ok (n, hasPlus)
  | String c rest =>
      if byte_val c =? 37 then
        match rest with
        | String a (String b rest') =>
            if negb (ishex (byte_val a)) || negb (ishex (byte_val b))
            then Err (EscapeError (String c (String a (String b ""))))
            else unescape_scan rest' (n + 1) hasPlus
        | _ => Err (EscapeError s)
        end
      else if byte_val c =? 43 then unescape_scan rest n true
      else unescape_scan rest n hasPlus
  end.

(** The second loop: every escape replaced by its byte and every [+] by a
    space.  The first loop has checked that two digits follow each [%]. *)
Fixpoint unescape_build (s : string) : string :=
  match s with
  | EmptyString => ""
  | String c rest =>
      if byte_val c =? 37 then
        match rest with
        | String a (String b rest') =>
            String
              (byte_of (Z.lor (Z.shiftl (unhex (byte_val a)) 4)
                          (unhex (byte_val b))))
              (unescape_build rest')
        | _ => ""
        end
      else if byte_val c =? 43 then String " " (unescape_build rest)
      else String c (unescape_build rest)
  end.

(** [unescape(s, encodeQueryComponent)] *)
Definition unescape (s : string) : result string :=
  match unescape_scan s 0 false with
  | Err e => Err e
  | Ok (n, hasPlus) =>
      if (n =? 0) && negb hasPlus then Ok s else Ok (unescape_build s)
  end.

Definition QueryUnescape (s : string) : result string := unescape s.

End url.

Module fiber.

(** What a handler leaves in the [fiber.Ctx]: the status, the headers set,
    in the order they were set, and the body, which is either the JSON
    object with the one member [error], the message of an error, or the bytes
    sent. *)
Inductive Body :=
| ErrorJSON (err : error)
| Bytes (data : list Z).

Record Response := {
  status : Z;
  headers : list (string * string);
  body : Body
}.

Definition StatusOK : Z := 200.

(** [c.Status(code).JSON(fiber.Map{"error": err.Error()})]: [JSON] sets the
    content type of the response. *)
Definition Status_JSON (code : Z) (err : error) : Response :=
  {| status := code;
     headers := [("Content-Type", "application/json")];
     body := ErrorJSON err |}.

End fiber.

Definition getContentType (imageType : string) : string :=
  if String.eqb imageType "png" then "image/png"
  else if String.eqb imageType "jpg" || String.eqb imageType "jpeg"
  then "image/jpeg"
  else if String.eqb imageType "gif" then "image/gif"
  else if String.eqb imageType "webp" then "image/webp"
  else "image/png".


Section Placeholder.

#[local] Set Default Proof Using "Type".

(** The Unicode case tables, the embedded font file and the libraries the
    generator calls. *)
Variable unicode_ToLower_Map : string -> string.
Variable embeddedFont : string.
Variable opentype_Parse : string -> result Font.
Variable opentype_NewFace_err : Font -> FaceOptions.t -> option error.
Variable gg_LoadFontFace_err : string -> float -> option error.
Variable gg_MeasureString : FontSel -> string -> float * float.
Variable png_Encode : Image -> list Z * option error.
Variable jpeg_Encode : Image -> jpeg.Options -> list Z * option error.
Variable gif_Encode : Image -> option gif.Options -> list Z * option error.
Variable webp_Encode : Image -> webp.Options -> list Z * option error.

(** *** types.go, continued *)

Definition strings_ToLower (s : string) : string :=
  if isASCII s then map_string lowerASCII s else unicode_ToLower_Map s.

Definition ValidateType (imageType : string) : bool :=
  validTypes (strings_ToLower imageType).

Definition NewImageRequest (sizeStr imageType : string)
    (p : RequestQueryParams.t) : result ImageRequest :=
  match ParseSize sizeStr with
  | Err err => Err err
  | Ok size =>
      let imageType :=
        if String.eqb imageType "" then DefaultType else imageType in
      if negb (ValidateType imageType)
      then Err (errorString ("unsupported image type: " ++ imageType))
      else
        let bg := applyDefault (RequestQueryParams.Bg p) DefaultBg in
        if negb (ValidateColor bg)
        then Err (errorString ("invalid background color: " ++ bg))
        else
          let fg := applyDefault (RequestQueryParams.Fg p) DefaultFg in
          if negb (ValidateColor fg)
          then Err (errorString ("invalid foreground color: " ++ fg))
          else
            let text :=
              applyDefault (RequestQueryParams.Text p)
                (fmt.d (ImageSize.Width size) ++ "x"
                   ++ fmt.d (ImageSize.Height size)) in
            Ok {| Width := ImageSize.Width size;
                  Height := ImageSize.Height size;
                  Type_ := strings_ToLower imageType;
                  BgColor := bg;
                  FgColor := fg;
                  Text := text |}
  end.

(** *** The font pool *)

Definition opentype_NewFace (f : Font) (opts : FaceOptions.t) : result Face :=
  match opentype_NewFace_err f opts with
  | Some e => Err e
  | None => Ok {| face_font := f; face_opts := opts |}
  end.

Definition parseEmbeddedFont (g : FontGlobals) (fontSize dpi : float)
    : FontGlobals * result Face :=
  let parsed :=
    match fontOnce g with
    | Some r => r
    | None => opentype_Parse embeddedFont
    end in
  let g := {| fontOnce := Some parsed |} in
  match parsed with
  | Err fontParseErr => (g, Err fontParseErr)
  | Ok parsedFont =>
      match opentype_NewFace parsedFont
              {| FaceOptions.Size := fontSize; FaceOptions.DPI := dpi |} with
      | Err err => (g, Err err)
      | Ok otfFace => (g, Ok otfFace)
      end
  end.

Fixpoint NewFontPool_loop (n : nat) (g : FontGlobals) (pool : FontPool)
    : FontGlobals * FontPool :=
  match n with
  | O => (g, pool)
  | S n' =>
      match parseEmbeddedFont g 24.0 72 with
      | (g, Ok face) =>
          NewFontPool_loop n' g
            {| fonts := fonts pool ++ [face]; fonts_cap := fonts_cap pool |}
      | (g, Err _) => NewFontPool_loop n' g pool
      end
  end.

Definition NewFontPool (g : FontGlobals) (size : Z) : FontGlobals * FontPool :=
  NewFontPool_loop (Z.to_nat size) g
    {| fonts := []; fonts_cap := Z.to_nat size |}.

(** [GetFont] leaves the channel alone: the pool it is called on comes back
    with the face. *)
Definition GetFont (fp : FontPool) (g : FontGlobals) (fontSize : float)
    : FontPool * FontGlobals * option Face :=
  match parseEmbeddedFont g fontSize 72 with
  | (g, Ok face) => (fp, g, Some face)
  | (g, Err _) => (fp, g, None)
  end.

(** [PutFont] of a face that is not nil: a send that does not block. *)
Definition PutFont (fp : FontPool) (face : Face) : FontPool :=
  if (List.length (fonts fp) <? fonts_cap fp)%nat
  then {| fonts := fonts fp ++ [face]; fonts_cap := fonts_cap fp |}
  else fp.

Definition NewImageGenerator (g : FontGlobals) : FontGlobals * ImageGenerator :=
  let '(g, pool) := NewFontPool g FONT_POOL_SIZE in
  (g, {| memoryCache :=
           cache.New (Z.to_nat MAX_CACHE_ITEMS) CACHE_MAX_AGE true;
         fontPool := pool |}).

(** What a call leaves behind: the generator, the package variables and the
    request the caller's pointer refers to. *)
Record State := {
  st_ig : ImageGenerator;
  st_globals : FontGlobals;
  st_req : ImageRequest
}.

Definition createImage (ig : ImageGenerator) (g : FontGlobals)
    (req : ImageRequest) : State * result Image :=
  let dc := gg.NewContext (Width req) (Height req) in
  match parseHexColor (BgColor req) with
  | Err err => ({| st_ig := ig; st_globals := g; st_req := req |}, Err err)
  | Ok bgColor =>
      let dc := gg.SetColor dc bgColor in
      let dc := gg.Clear dc in
      match parseHexColor (FgColor req) with
      | Err err => ({| st_ig := ig; st_globals := g; st_req := req |}, Err err)
      | Ok fgColor =>
          let dc := gg.SetColor dc fgColor in
          let fontSize :=
            calculateOptimalFontSize (Width req) (Height req) (Text req) in
          let '(fp, g, fontFace) := GetFont (fontPool ig) g fontSize in
          let dc :=
            match fontFace with
            | Some face => gg.SetFontFace dc face
            | None => fst (gg.LoadFontFace gg_LoadFontFace_err dc "" fontSize)
            end in
          let req :=
            if negb (utf8.ValidString (Text req))
            then set_Text req "Invalid UTF-8" else req in
          let centerX := (float64 (Width req) / 2)%float in
          let '(_, textHeight) :=
            gg_MeasureString (ctx_fontFace dc) (Text req) in
          let visualOffset := (textHeight * 0.15)%float in
          let centerY := (float64 (Height req) / 2 - visualOffset)%float in
          let dc := gg.DrawStringAnchored dc (Text req) centerX centerY 0.5 0.5 in
          (* the deferred PutFont *)
          let fp :=
            match fontFace with
            | Some face => PutFont fp face
            | None => fp
            end in
          ({| st_ig := set_fontPool ig fp; st_globals := g; st_req := req |},
           Ok (gg.Image dc))
      end
  end.

Definition encodeImage (img : Image) (imageType : string)
    : list Z * option error :=
  if String.eqb imageType "png" then png_Encode img
  else if String.eqb imageType "jpg" || String.eqb imageType "jpeg"
  then jpeg_Encode img {| jpeg.Quality := 90 |}
  else if String.eqb imageType "gif" then gif_Encode img None
  else if String.eqb imageType "webp"
  then webp_Encode img
         {| webp.Lossless := false; webp.Quality := 90; webp.Exact := false |}
  else ([], Some (errorString ("unsupported image type: " ++ imageType))).

(** [tGet] and [tSet] are the times of the lookup and of the store. *)
Definition GenerateImage (ig : ImageGenerator) (g : FontGlobals)
    (tGet tSet : Z) (req : ImageRequest) : State * result (list Z) :=
  let cacheKey := getCacheKey req in
  let '(c, found) := cache.get (memoryCache ig) cacheKey tGet in
  let ig := set_memoryCache ig c in
  match found with
  | Some imageData =>
      ({| st_ig := ig; st_globals := g; st_req := req |}, Ok imageData)
  | None =>
      match createImage ig g req with
      | (st, Err err) => (st, Err err)
      | (st, Ok img) =>
          let '(data, err) := encodeImage img (Type_ (st_req st)) in
          match err with
          | Some err => (st, Err err)
          | None =>
              let ig := st_ig st in
              ({| st_ig :=
                    set_memoryCache ig
                      (cache.put (memoryCache ig) cacheKey data tSet);
                  st_globals := st_globals st; st_req := st_req st |},
               Ok data)
          end
      end
  end.


(** *** Vocabulary of the statements *)

(** The point size [createImage] computes for a request. *)
Definition requestFontSize (req : ImageRequest) : float :=
  calculateOptimalFontSize (Width req) (Height req) (Text req).

(** The face a context is left with by [LoadFontFace("", fontSize)], whose
    error is dropped: the face loaded at that size, or the face the context
    started with. *)
Definition fallbackFace (fontSize : float) : FontSel :=
  match gg_LoadFontFace_err "" fontSize with
  | None => LoadedFace "" fontSize
  | Some _ => DefaultFace
  end.

(** The text a request is measured and drawn with. *)
Definition drawnText (req : ImageRequest) : string :=
  if utf8.ValidString (Text req) then Text req else "Invalid UTF-8".

(** The anchor of the text: the center, raised by 0.15 of the height the
    text measures with the face in use. *)
Definition anchorX (req : ImageRequest) : float :=
  (float64 (Width req) / 2)%float.

Definition anchorY (req : ImageRequest) (font : FontSel) (s : string) : float :=
  (float64 (Height req) / 2 - snd (gg_MeasureString font s) * 0.15)%float.

(** What a core operation may change of a request [req], leaving [req']:
    nothing but the text, which stays or becomes the placeholder, and stays
    when it is valid UTF-8. *)
Definition unchanged_but_text (req req' : ImageRequest) : Prop :=
  Width req' = Width req /\ Height req' = Height req
  /\ Type_ req' = Type_ req /\ BgColor req' = BgColor req
  /\ FgColor req' = FgColor req
  /\ (Text req' = Text req \/ Text req' = "Invalid UTF-8")
  /\ (utf8.ValidString (Text req) = true -> req' = req).

(** Exactly six hexadecimal digits. *)
Definition isHex6 (s : string) : Prop :=
  String.length s = 6%nat /\ forallb_string isHexDigit s = true.

(** The number a string of decimal digits denotes. *)
Fixpoint decimalValue_acc (s : string) (acc : Z) : Z :=
  match s with
  | EmptyString => acc
  | String c s' => decimalValue_acc s' (10 * acc + (byte_val c - 48))
  end.

Definition decimalValue (s : string) : Z := decimalValue_acc s 0.

(** [s] matches [^\d+x\d+$], its groups being [g1] and [g2]. *)
Definition matchesSize (s g1 g2 : string) : Prop :=
  s = (g1 ++ "x" ++ g2)%string
  /\ g1 <> "" /\ g2 <> ""
  /\ forallb_string isDigit g1 = true /\ forallb_string isDigit g2 = true.

(** The errors of the validator that the spec calls InvalidSize: the four
    that [ParseSize] returns. *)
Definition isInvalidSize (e : error) : Prop :=
  e = errorString "invalid size format, expected WIDTHxHEIGHT"
  \/ e = errorString "invalid width"
  \/ e = errorString "invalid height"
  \/ e = errorString "size must be between 1x1 and 3000x3000".

(** A validated request: one that [NewImageRequest] built. *)
Definition validated (req : ImageRequest) : Prop :=
  exists sizeStr imageType p, NewImageRequest sizeStr imageType p = Ok req.

(** The invariant of a request: dimensions between 1 and [MaxImageSize], a
    supported type, colors of six hexadecimal digits. *)
Definition wellFormed (req : ImageRequest) : Prop :=
  1 <= Width req <= MaxImageSize /\ 1 <= Height req <= MaxImageSize
  /\ validTypes (Type_ req) = true
  /\ isHex6 (BgColor req) /\ isHex6 (FgColor req).

(** The characters [%d] prints. *)
Definition isSignOrDigit (c : ascii) : bool := isDigit c || Ascii.eqb c "-".

(** The character [c] does not occur in [s]. *)
Definition absent (c : ascii) (s : string) : Prop :=
  forallb_string (fun a => negb (Ascii.eqb a c)) s = true.

(** *** The font size, in the words of the spec *)

Definition fmin (a b : float) : float := if (b <? a)%float then b else a.
Definition fmax (a b : float) : float := if (a <? b)%float then b else a.

(** [clamp(x, lo, hi)] as it is commonly defined: [lo] below [lo], [hi] above
    [hi], [x] in between. *)
Definition clamp (x lo hi : float) : float :=
  if (x <? lo)%float then lo else if (hi <? x)%float then hi else x.

(** The same written with [min] and [max], the lower bound applied first:
    [min(max(x, lo), hi)]. *)
Definition clamp_upper_last (x lo hi : float) : float := fmin (fmax x lo) hi.

(** The upper bound applied first and the lower bound last:
    [max(min(x, hi), lo)]. *)
Definition clamp_lower_last (x lo hi : float) : float := fmax (fmin x hi) lo.

(** The six steps of the layout algorithm, for a way of clamping. *)
Definition computeFontSize_with (clamping : float -> float -> float -> float)
    (width height : Z) (text : string) : float :=
  let minDim := float64 (Z.min width height) in
  let glyphCount := float64 (Z.max 1 (utf8.RuneCountInString text)) in
  let avgCharWidth := (float64 width * 0.85 / glyphCount)%float in
  let dimensionScale := (minDim / 200.0)%float in
  let baseFontSize := (avgCharWidth * 0.8 * dimensionScale)%float in
  let maxFontSize := fmin 150.0 (minDim * 0.4) in
  let minFontSize := fmax 12.0 (minDim * 0.02) in
  clamping baseFontSize minFontSize maxFontSize.

Definition computeFontSize : Z -> Z -> string -> float :=
  computeFontSize_with clamp.

Definition computeFontSize_upper_last : Z -> Z -> string -> float :=
  computeFontSize_with clamp_upper_last.

Definition computeFontSize_lower_last : Z -> Z -> string -> float :=
  computeFontSize_with clamp_lower_last.

(** Binary64: the least exponent, and the numbers that are not NaN or
    infinite. *)
Definition emin64 : Z := SpecFloat.emin prec emax.

Definition notNaN (x : float) : Prop := Prim2SF x <> SpecFloat.S754_nan.

Definition isFinite (x : float) : bool :=
  match Prim2SF x with
  | SpecFloat.S754_finite _ _ _ => true
  | _ => false
  end.

(** What is checked of each dimension [m] between 1 and 3000: the two bounds
    of the clamp as the code computes them and as the spec writes them agree
    at [minDim = m]; they are in order when [30 <= m], and below 30 the lower
    bound is 12 and exceeds the upper one; the width scaled by 0.85 and the
    dimension scale are finite numbers. *)
Definition bounds_check (m : Z) : bool :=
  let minDim := float64 m in
  let lo := fmax 12.0 (minDim * 0.02) in
  let hi := fmin 150.0 (minDim * 0.4) in
  PrimFloat.Leibniz.eqb
    (if (150.0 <? minDim * 0.4)%float then 150.0%float else (minDim * 0.4)%float)
    hi
  && PrimFloat.Leibniz.eqb
       (if (minDim * 0.02 <? 12.0)%float then 12.0%float
        else (minDim * 0.02)%float)
       lo
  && (if m <? 30 then PrimFloat.Leibniz.eqb lo 12.0 && (hi <? lo)%float
      else (lo <=? hi)%float)
  && isFinite (minDim * 0.85) && isFinite (minDim / 200.0).

(** *** handler.go, continued *)

(** [HandlerImage] on the package variable [generator].  [paramsErr] and
    [queryErr] are what [c.ParamsParser] and [c.QueryParser] return and
    [params] is the structure as the two of them have filled it, the second
    after the first, from the route and from the query; the response is what
    the handler leaves in the context. *)
Definition HandlerImage (paramsErr queryErr : option error)
    (params : RequestQueryParams.t) (generator : ImageGenerator)
    (g : FontGlobals) (tGet tSet : Z)
    : ImageGenerator * FontGlobals * fiber.Response :=
  match paramsErr with
  | Some err => (generator, g, fiber.Status_JSON 400 err)
  | None =>
  match queryErr with
  | Some err => (generator, g, fiber.Status_JSON 400 err)
  | None =>
      let parts := strings_Split (RequestQueryParams.Size params) "." in
      let size := nth 0 parts "" in
      let imageType := "" in
      let imageType :=
        if (List.length parts =? 2)%nat then nth 1 parts "" else imageType in
      let params :=
        if negb (String.eqb (RequestQueryParams.Text params) "") then
          match url.QueryUnescape (RequestQueryParams.Text params) with
          | Ok decodedText =>
              {| RequestQueryParams.Size := RequestQueryParams.Size params;
                 RequestQueryParams.Bg := RequestQueryParams.Bg params;
                 RequestQueryParams.Fg := RequestQueryParams.Fg params;
                 RequestQueryParams.Text := decodedText |}
          | Err _ => params
          end
        else params in
      match NewImageRequest size imageType params with
      | Err err => (generator, g, fiber.Status_JSON 400 err)
      | Ok req =>
          match GenerateImage generator g tGet tSet req with
          | (st, Err err) =>
              (st_ig st, st_globals st, fiber.Status_JSON 500 err)
          | (st, Ok imageData) =>
              let contentType := getContentType (Type_ (st_req st)) in
              (st_ig st, st_globals st,
               {| fiber.status := fiber.StatusOK;
                  fiber.headers :=
                    [("Content-Type", contentType);
                     ("Cache-Control", "public, max-age=31536000")];
                  fiber.body := fiber.Bytes imageData |})
          end
      end
  end
  end.

(** [init]: the package variable [generator]. *)
Definition init (g : FontGlobals) : FontGlobals * ImageGenerator :=
  NewImageGenerator g.

(** *** Vocabulary of the statements about the handler *)

(** The size, the type and the parameters the handler hands to
    [NewImageRequest]. *)
Definition handlerSize (params : RequestQueryParams.t) : string :=
  nth 0 (strings_Split (RequestQueryParams.Size params) ".") "".

Definition handlerType (params : RequestQueryParams.t) : string :=
  let parts := strings_Split (RequestQueryParams.Size params) "." in
  if (List.length parts =? 2)%nat then nth 1 parts "" else "".

Definition handlerText (text : string) : string :=
  if String.eqb text "" then ""
  else match url.QueryUnescape text with
       | Ok decodedText => decodedText
       | Err _ => text
       end.

Definition handlerParams (params : RequestQueryParams.t)
    : RequestQueryParams.t :=
  {| RequestQueryParams.Size := RequestQueryParams.Size params;
     RequestQueryParams.Bg := RequestQueryParams.Bg params;
     RequestQueryParams.Fg := RequestQueryParams.Fg params;
     RequestQueryParams.Text := handlerText (RequestQueryParams.Text params) |}.

Definition handlerRequest (params : RequestQueryParams.t)
    : result ImageRequest :=
  NewImageRequest (handlerSize params) (handlerType params)
    (handlerParams params).

(** The number of occurrences of a byte in a string. *)
Fixpoint count_byte (c : ascii) (s : string) : nat :=
  match s with
  | EmptyString => O
  | String a s' => if Ascii.eqb a c then S (count_byte c s') else count_byte c s'
  end.

(** [+] read as a space. *)
Definition plusToSpace (c : ascii) : ascii :=
  if byte_val c =? 43 then " "%char else c.

(** The value of a hexadecimal digit. *)
Definition hexVal (c : ascii) : Z :=
  let b := byte_val c in
  if (48 <=? b) && (b <=? 57) then b - 48
  else if (97 <=? b) && (b <=? 102) then b - 87
  else b - 55.

(** The MIME types of the four formats. *)
Definition imageMIME (t : string) : string :=
  if String.eqb t "jpg" then "image/jpeg" else ("image/" ++ t)%string.

(** No encoder fails on any image. *)
Definition encoders_total : Prop :=
  (forall img, snd (png_Encode img) = None)
  /\ (forall img o, snd (jpeg_Encode img o) = None)
  /\ (forall img o, snd (gif_Encode img o) = None)
  /\ (forall img o, snd (webp_Encode img o) = None).

(** The error [e] is one that an encoder returned for some image. *)
Definition encoderError (e : error) : Prop :=
  exists img,
    snd (png_Encode img) = Some e
    \/ snd (jpeg_Encode img {| jpeg.Quality := 90 |}) = Some e
    \/ snd (gif_Encode img None) = Some e
    \/ snd (webp_Encode img
              {| webp.Lossless := false; webp.Quality := 90;
                 webp.Exact := false |}) = Some e.

(** The pool holds no more faces than its capacity. *)
Definition poolBounded (fp : FontPool) : Prop :=
  (List.length (fonts fp) <= fonts_cap fp)%nat.

(** A request with the colors in lower case. *)
Definition lowerColors (req : ImageRequest) : ImageRequest :=
  {| Width := Width req; Height := Height req; Type_ := Type_ req;
     BgColor := map_string lowerASCII (BgColor req);
     FgColor := map_string lowerASCII (FgColor req); Text := Text req |}.

(** What is checked of each dimension [m] between 1 and 3000: the bounds of
    the font size as the code computes them lie between 12 and 150, the
    upper one is at most 0.4 of the dimension, and from 30 on they are in
    order. *)
Definition range_check (m : Z) : bool :=
  let minDim := float64 m in
  let maxFontSize := (minDim * 0.4)%float in
  let minFontSize := (minDim * 0.02)%float in
  let minFontSize :=
    if (minFontSize <? 12.0)%float then 12.0%float else minFontSize in
  let maxFontSize :=
    if (150.0 <? maxFontSize)%float then 150.0%float else maxFontSize in
  (12.0 <=? minFontSize)%float && (minFontSize <=? 150.0)%float
  && (maxFontSize <=? 150.0)%float
  && (maxFontSize <=? minDim * 0.4)%float
  && (if m <? 30 then true else (minFontSize <=? maxFontSize)%float).

(** What is checked of each number [n] between 1 and 3000: [%d] prints it
    as a string of digits, not empty, that denotes it. *)
Definition decimal_check (n : Z) : bool :=
  forallb_string isDigit (fmt.d n)
  && negb (String.eqb (fmt.d n) "")
  && (decimalValue (fmt.d n) =? n).

(** The package variables hold no outcome yet, or the outcome of parsing
    the embedded font: what they hold when the program starts and after any
    operation. *)
Definition globalsCoherent (g : FontGlobals) : Prop :=
  fontOnce g = None \/ fontOnce g = Some (opentype_Parse embeddedFont).

(** Both colors of a request parse. *)
Definition colorsParse (req : ImageRequest) : bool :=
  is_ok (parseHexColor (BgColor req)) && is_ok (parseHexColor (FgColor req)).


(* ================================================================= *)
(** * Properties *)

(** ** The loops over a string end before their fuel does *)

Lemma first_cases (c : Z) :
  utf8.RuneSelf <= c ->
  In (utf8.first c)
    [utf8.xx; utf8.s1; utf8.s2; utf8.s3; utf8.s4; utf8.s5; utf8.s6; utf8.s7].
Proof.
  unfold utf8.first, utf8.RuneSelf. intros Hc.
  destruct (Z.ltb_spec c 128); [lia |].
  repeat match goal with
         | |- context [if ?b then _ else _] => destruct b
         end; simpl; auto 12.
Qed.

Lemma decodeStep_size (c : Z) (rest : list Z) (size : nat) :
  utf8.decodeStep c rest = Some size ->
  (1 <= size <= S (List.length rest))%nat.
Proof.
  unfold utf8.decodeStep.
  destruct (Z.ltb_spec c utf8.RuneSelf) as [| Hc]; [intros [= <-]; lia |].
  pose proof (first_cases c Hc) as Hf.
  destruct (utf8.first c) eqn:Ex; cbn [In] in Hf;
    repeat (destruct Hf as [Hf | Hf]; [try discriminate Hf |]);
    try contradiction;
    injection Hf as <-;
    cbv beta iota zeta delta - [Z.of_nat Z.add Z.ltb nth List.length];
    repeat match goal with
           | |- context [if ?a <? ?b then _ else _] => destruct (Z.ltb_spec a b)
           | |- context [match ?a <? ?b with _ => _ end] =>
               destruct (Z.ltb_spec a b)
           end;
    try discriminate; intros [= <-]; lia.
Qed.

Lemma RuneCount_loop_fuel (fuel1 : nat) :
  forall fuel2 s n,
    (List.length s <= fuel1)%nat -> (List.length s <= fuel2)%nat ->
    utf8.RuneCount_loop fuel1 s n = utf8.RuneCount_loop fuel2 s n.
Proof.
  induction fuel1 as [| fuel1 IH]; intros [| fuel2] [| c rest] n H1 H2;
    try reflexivity; cbn [List.length] in *; try lia.
  cbn [utf8.RuneCount_loop].
  destruct (utf8.decodeStep c rest) as [size |] eqn:E.
  - apply decodeStep_size in E.
    pose proof (length_skipn size (c :: rest)) as Hs. cbn [List.length] in Hs.
    apply IH; lia.
  - apply IH; lia.
Qed.

Lemma Valid_loop_fuel (fuel1 : nat) :
  forall fuel2 s,
    (List.length s <= fuel1)%nat -> (List.length s <= fuel2)%nat ->
    utf8.Valid_loop fuel1 s = utf8.Valid_loop fuel2 s.
Proof.
  induction fuel1 as [| fuel1 IH]; intros [| fuel2] [| c rest] H1 H2;
    try reflexivity; cbn [List.length] in *; try lia.
  cbn [utf8.Valid_loop].
  destruct (utf8.decodeStep c rest) as [size |] eqn:E; [| reflexivity].
  apply decodeStep_size in E.
  pose proof (length_skipn size (c :: rest)) as Hs. cbn [List.length] in Hs.
  apply IH; lia.
Qed.

(** ** The encoder *)

Lemma eqb_false_of_not_In (t : string) (l : list string) :
  ~ In t l -> forall u, In u l -> String.eqb t u = false.
Proof.
  intros Hn u Hu. apply String.eqb_neq. intros ->. exact (Hn Hu).
Qed.

(** C9: [encodeImage] dispatches on the format string: "png" goes to the PNG
    encoder with its defaults, "jpg" and "jpeg" to the JPEG encoder with
    quality 90, "gif" to the GIF encoder with nil options, "webp" to the WebP
    encoder with quality 90, and any other string is an error that carries
    no bytes. *)
Theorem encodeImage_dispatch (img : Image) :
  encodeImage img "png" = png_Encode img
  /\ encodeImage img "jpg" = jpeg_Encode img {| jpeg.Quality := 90 |}
  /\ encodeImage img "jpeg" = jpeg_Encode img {| jpeg.Quality := 90 |}
  /\ encodeImage img "gif" = gif_Encode img None
  /\ encodeImage img "webp"
     = webp_Encode img
         {| webp.Lossless := false; webp.Quality := 90; webp.Exact := false |}
  /\ forall imageType,
       ~ In imageType ["png"; "jpg"; "jpeg"; "gif"; "webp"] ->
       encodeImage img imageType
       = ([], Some (errorString ("unsupported image type: " ++ imageType))).
Proof.
  repeat split; try reflexivity.
  intros t Hn. unfold encodeImage.
  pose proof (eqb_false_of_not_In t _ Hn) as H.
  rewrite (H "png"), (H "jpg"), (H "jpeg"), (H "gif"), (H "webp");
    simpl; auto 6.
Qed.

(** ** The font pool *)

Lemma parseEmbeddedFont_face (g : FontGlobals) (fontSize dpi : float)
    (g' : FontGlobals) (face : Face) :
  parseEmbeddedFont g fontSize dpi = (g', Ok face) ->
  face_opts face = {| FaceOptions.Size := fontSize; FaceOptions.DPI := dpi |}
  /\ fontOnce g' = Some (Ok (face_font face)).
Proof.
  unfold parseEmbeddedFont, opentype_NewFace.
  destruct (match fontOnce g with Some r => r | None => _ end) as [f | e];
    [| discriminate].
  destruct (opentype_NewFace_err f _); [discriminate |].
  intros [= <- <-]. split; reflexivity.
Qed.

(** C6: [GetFont] takes nothing out of the pool and builds its face anew:
    whenever the embedded font parses (now, or when it was first asked for)
    and [opentype.NewFace] accepts the options, it returns the face of that
    font built at exactly the size asked for, at 72 dpi; it returns nil in
    the two other cases only.  So a face it returns is none of the pooled
    faces of another size, whatever the pool holds. *)
Theorem GetFont_exact_size (fp : FontPool) (g : FontGlobals)
    (fontSize : float) :
  let parsed :=
    match fontOnce g with
    | Some r => r
    | None => opentype_Parse embeddedFont
    end in
  let opts := {| FaceOptions.Size := fontSize; FaceOptions.DPI := 72 |} in
  GetFont fp g fontSize
  = (fp, {| fontOnce := Some parsed |},
     match parsed with
     | Ok font =>
         match opentype_NewFace_err font opts with
         | None => Some {| face_font := font; face_opts := opts |}
         | Some _ => None
         end
     | Err _ => None
     end)
  /\ (forall font,
        parsed = Ok font -> opentype_NewFace_err font opts = None ->
        snd (GetFont fp g fontSize)
        = Some {| face_font := font; face_opts := opts |})
  /\ (forall face,
        snd (GetFont fp g fontSize) = Some face ->
        FaceOptions.Size (face_opts face) = fontSize
        /\ FaceOptions.DPI (face_opts face) = 72%float
        /\ forall pooled, In pooled (fonts fp) ->
             FaceOptions.Size (face_opts pooled) <> fontSize ->
             face <> pooled).
Proof.
  cbv zeta.
  assert (E : GetFont fp g fontSize
              = (fp,
                 {| fontOnce :=
                      Some match fontOnce g with
                           | Some r => r
                           | None => opentype_Parse embeddedFont
                           end |},
                 match match fontOnce g with
                       | Some r => r
                       | None => opentype_Parse embeddedFont
                       end with
                 | Ok font =>
                     match opentype_NewFace_err font
                             {| FaceOptions.Size := fontSize;
                                FaceOptions.DPI := 72 |} with
                     | None =>
                         Some {| face_font := font;
                                 face_opts :=
                                   {| FaceOptions.Size := fontSize;
                                      FaceOptions.DPI := 72 |} |}
                     | Some _ => None
                     end
                 | Err _ => None
                 end)).
  { unfold GetFont, parseEmbeddedFont, opentype_NewFace.
    destruct (match fontOnce g with Some r => r | None => _ end) as [f | e];
      [| reflexivity].
    destruct (opentype_NewFace_err f _); reflexivity. }
  split; [exact E |]. rewrite E. cbn [snd]. split.
  - intros font -> ->. reflexivity.
  - intros face.
    destruct (match fontOnce g with Some r => r | None => _ end) as [f | e];
      [| discriminate].
    destruct (opentype_NewFace_err f _); [discriminate |].
    intros [= <-]. cbn [face_opts FaceOptions.Size FaceOptions.DPI].
    split; [reflexivity |]. split; [reflexivity |].
    intros pooled _ Hne <-. apply Hne. reflexivity.
Qed.

(** Every face [NewFontPool] queues is a 24-point face, and it never queues
    more than the capacity. *)
Lemma NewFontPool_loop_faces (n : nat) :
  forall g pool g' pool',
    NewFontPool_loop n g pool = (g', pool') ->
    fonts_cap pool' = fonts_cap pool
    /\ (List.length (fonts pool') <= List.length (fonts pool) + n)%nat
    /\ forall f, In f (fonts pool') ->
         In f (fonts pool) \/ FaceOptions.Size (face_opts f) = 24.0%float.
Proof.
  induction n as [| n IH]; intros g pool g' pool'; simpl.
  - intros [= <- <-]. repeat split; auto; lia.
  - destruct (parseEmbeddedFont g 24.0 72) as [g1 [face | e]] eqn:E; intros H;
      apply IH in H; destruct H as (Hc & Hl & Hf); simpl in *.
    + split; [exact Hc |]. split.
      * rewrite length_app in Hl. simpl in Hl. lia.
      * intros f Hin. destruct (Hf f Hin) as [Hin' | Hs]; auto.
        apply in_app_or in Hin'. destruct Hin' as [Hin' | [<- | []]]; auto.
        right. destruct (parseEmbeddedFont_face _ _ _ _ _ E) as [Ho _].
        rewrite Ho. reflexivity.
    + repeat split; auto; lia.
Qed.

(** ** The renderer *)

Lemma createImage_colors_ok (ig : ImageGenerator) (g : FontGlobals)
    (req : ImageRequest) (bg fg : RGBA) :
  parseHexColor (BgColor req) = Ok bg ->
  parseHexColor (FgColor req) = Ok fg ->
  createImage ig g req =
  let '(fp, g', face) := GetFont (fontPool ig) g (requestFontSize req) in
  let font :=
    match face with
    | Some f => GivenFace f
    | None => fallbackFace (requestFontSize req)
    end in
  ({| st_ig := set_fontPool ig
                 match face with Some f => PutFont fp f | None => fp end;
      st_globals := g';
      st_req := set_Text req (drawnText req) |},
   Ok {| im_width := Width req; im_height := Height req;
         im_ops :=
           [OpClear bg;
            OpDrawStringAnchored (drawnText req) (anchorX req)
              (anchorY req font (drawnText req)) 0.5 0.5 fg font] |}).
Proof.
  intros Hbg Hfg.
  unfold createImage, requestFontSize, drawnText, anchorX, anchorY,
    fallbackFace, gg.LoadFontFace.
  rewrite Hbg, Hfg.
  destruct (GetFont _ _ _) as [[fp g'] [f |]];
    destruct req as [w h t b f' txt]; simpl;
    try destruct (gg_LoadFontFace_err _ _);
    destruct (utf8.ValidString txt); simpl;
    destruct (gg_MeasureString _ _); reflexivity.
Qed.

Lemma createImage_error (ig : ImageGenerator) (g : FontGlobals)
    (req : ImageRequest) (st : State) (err : error) :
  createImage ig g req = (st, Err err) ->
  st = {| st_ig := ig; st_globals := g; st_req := req |}
  /\ (parseHexColor (BgColor req) = Err err
      \/ (is_ok (parseHexColor (BgColor req)) = true
          /\ parseHexColor (FgColor req) = Err err)).
Proof.
  destruct (parseHexColor (BgColor req)) as [bg | e1] eqn:Hbg.
  - destruct (parseHexColor (FgColor req)) as [fg | e2] eqn:Hfg.
    + rewrite (createImage_colors_ok _ _ _ _ _ Hbg Hfg).
      destruct (GetFont _ _ _) as [[fp g'] face]. discriminate.
    + unfold createImage. rewrite Hbg, Hfg. intros [= <- <-]. auto.
  - unfold createImage. rewrite Hbg. intros [= <- <-]. auto.
Qed.


(** C8: text that is not valid UTF-8 is no error.  Whenever the two colors
    parse, [createImage] returns an image whose text, both measured and
    drawn, is the request's text when that is valid UTF-8 and the literal
    "Invalid UTF-8" otherwise; and whether [NewImageRequest] accepts a
    request does not depend on the text. *)
Theorem createImage_text_substitution (ig : ImageGenerator) (g : FontGlobals)
    (req : ImageRequest) (bg fg : RGBA) :
  parseHexColor (BgColor req) = Ok bg ->
  parseHexColor (FgColor req) = Ok fg ->
  (exists st font,
     createImage ig g req =
     (st, Ok {| im_width := Width req; im_height := Height req;
                im_ops :=
                  [OpClear bg;
                   OpDrawStringAnchored (drawnText req) (anchorX req)
                     (anchorY req font (drawnText req)) 0.5 0.5 fg font] |}))
  /\ (utf8.ValidString (Text req) = true -> drawnText req = Text req)
  /\ (utf8.ValidString (Text req) = false -> drawnText req = "Invalid UTF-8")
  /\ (forall sizeStr imageType size bgTok fgTok text text',
        is_ok (NewImageRequest sizeStr imageType
                 {| RequestQueryParams.Size := size;
                    RequestQueryParams.Bg := bgTok;
                    RequestQueryParams.Fg := fgTok;
                    RequestQueryParams.Text := text |})
        = is_ok (NewImageRequest sizeStr imageType
                   {| RequestQueryParams.Size := size;
                      RequestQueryParams.Bg := bgTok;
                      RequestQueryParams.Fg := fgTok;
                      RequestQueryParams.Text := text' |})).
Proof.
  intros Hbg Hfg. split; [| split; [| split]].
  - rewrite (createImage_colors_ok _ _ _ _ _ Hbg Hfg).
    destruct (GetFont _ _ _) as [[fp g'] face]. eauto.
  - unfold drawnText. intros ->. reflexivity.
  - unfold drawnText. intros ->. reflexivity.
  - intros. unfold NewImageRequest. simpl.
    destruct (ParseSize sizeStr); [| reflexivity].
    destruct (negb (ValidateType _)); [reflexivity |].
    destruct (negb (ValidateColor (applyDefault bgTok _))); [reflexivity |].
    destruct (negb (ValidateColor (applyDefault fgTok _))); reflexivity.
Qed.

(** ** Frame properties of the core operations *)

Lemma set_Text_same (req : ImageRequest) : set_Text req (Text req) = req.
Proof. destruct req; reflexivity. Qed.

Lemma createImage_request (ig : ImageGenerator) (g : FontGlobals)
    (req : ImageRequest) :
  let '(st, r) := createImage ig g req in
  memoryCache (st_ig st) = memoryCache ig
  /\ st_req st = (if is_ok r then set_Text req (drawnText req) else req).
Proof.
  destruct (createImage ig g req) as [st [img | err]] eqn:E.
  - destruct (parseHexColor (BgColor req)) as [bg | e1] eqn:Hbg;
      [destruct (parseHexColor (FgColor req)) as [fg | e2] eqn:Hfg |].
    + rewrite (createImage_colors_ok _ _ _ _ _ Hbg Hfg) in E.
      destruct (GetFont _ _ _) as [[fp g'] face].
      injection E as <- _. split; reflexivity.
    + unfold createImage in E. rewrite Hbg, Hfg in E. discriminate.
    + unfold createImage in E. rewrite Hbg in E. discriminate.
  - apply createImage_error in E. destruct E as [-> _]. split; reflexivity.
Qed.

Lemma cache_get_miss (c c' : cache.LruCache) (k : string) (now : Z) :
  cache.get c k now = (c', None) -> c' = c.
Proof.
  unfold cache.get.
  destruct (find _ _); [destruct (cache.expired _ _ _) |];
    now intros [= <-].
Qed.

(** The round trip of the spec: what was just stored is found. *)
Lemma find_app_skip {X : Type} (f : X -> bool) (l l' : list X) :
  (forall a, In a l -> f a = false) -> find f (l ++ l') = find f l'.
Proof.
  induction l as [| a l IH]; intros H; [reflexivity |].
  simpl. rewrite (H a (or_introl eq_refl)). apply IH.
  intros a' Ha'. apply H. right. exact Ha'.
Qed.

Lemma cache_put_get (c : cache.LruCache) (k : string) (v : list Z) (now : Z) :
  0 <= cache.age c ->
  snd (cache.get (cache.put c k v now) k now) = Some v.
Proof.
  intros Hage. unfold cache.get, cache.put.
  set (es0 := filter (fun e => negb (String.eqb (cache.key e) k))
                (cache.entries c)).
  set (es := if (cache.size c <=? List.length es0)%nat
             then cache.evict es0 else es0).
  assert (Hes : forall e, In e es -> String.eqb (cache.key e) k = false).
  { assert (H0 : forall e, In e es0 -> String.eqb (cache.key e) k = false).
    { intros e He. apply filter_In in He. destruct He as [_ He].
      apply negb_true_iff in He. exact He. }
    unfold es, cache.evict.
    destruct (cache.size c <=? List.length es0)%nat; [| exact H0].
    destruct (cache.oldest es0); [| exact H0].
    intros e He. apply filter_In in He. apply H0. exact (proj1 He). }
  cbn [cache.with_entries cache.entries].
  rewrite (find_app_skip _ es _ Hes). cbn [find cache.key].
  rewrite String.eqb_refl. unfold cache.expired.
  cbn [cache.with_entries cache.age cache.updateAgeOnGet cache.lastAccessedAt
       cache.insertedAt cache.encodedBytes].
  replace (now - (if cache.updateAgeOnGet c then now else now)) with 0
    by (destruct (cache.updateAgeOnGet c); lia).
  destruct (Z.ltb_spec (cache.age c) 0); [lia | reflexivity].
Qed.

(** What [GenerateImage] leaves of the request: untouched on a hit of the
    cache, what [createImage] leaves of it on a miss. *)
Lemma GenerateImage_request (ig : ImageGenerator) (g : FontGlobals)
    (tGet tSet : Z) (req : ImageRequest) :
  let st := fst (GenerateImage ig g tGet tSet req) in
  st_req st = req \/ st_req st = set_Text req (drawnText req).
Proof.
  unfold GenerateImage.
  destruct (cache.get _ _ _) as [c [data |]]; [left; reflexivity |].
  pose proof (createImage_request (set_memoryCache ig c) g req) as H.
  destruct (createImage _ g req) as [st [img | err]].
  - destruct H as [_ H]. simpl in H.
    destruct (encodeImage _ _) as [data [e |]]; simpl; auto.
  - destruct H as [_ H]. simpl in *. auto.
Qed.

(** Whether [createImage] succeeds is whether the two colors parse. *)
Lemma createImage_is_ok (ig : ImageGenerator) (g : FontGlobals)
    (req : ImageRequest) :
  is_ok (snd (createImage ig g req)) = colorsParse req.
Proof.
  unfold colorsParse.
  destruct (parseHexColor (BgColor req)) as [bg | e1] eqn:Hbg;
    [destruct (parseHexColor (FgColor req)) as [fg | e2] eqn:Hfg |].
  - rewrite (createImage_colors_ok _ _ _ _ _ Hbg Hfg).
    destruct (GetFont _ _ _) as [[fp g'] face]. reflexivity.
  - unfold createImage. rewrite Hbg, Hfg. reflexivity.
  - unfold createImage. rewrite Hbg. reflexivity.
Qed.

(** The request [createImage] leaves. *)
Lemma createImage_st_req (ig : ImageGenerator) (g : FontGlobals)
    (req : ImageRequest) :
  st_req (fst (createImage ig g req))
  = (if colorsParse req then set_Text req (drawnText req) else req).
Proof.
  pose proof (createImage_request ig g req) as H.
  pose proof (createImage_is_ok ig g req) as Hok.
  destruct (createImage ig g req) as [st r]. cbn [fst snd] in *.
  rewrite <- Hok. exact (proj2 H).
Qed.

(** The request [GenerateImage] leaves: untouched on a hit of the cache,
    what [createImage] leaves on a miss, whether the encoder fails or not. *)
Lemma GenerateImage_st_req (ig : ImageGenerator) (g : FontGlobals)
    (tGet tSet : Z) (req : ImageRequest) :
  st_req (fst (GenerateImage ig g tGet tSet req))
  = match snd (cache.get (memoryCache ig) (getCacheKey req) tGet) with
    | Some _ => req
    | None => if colorsParse req then set_Text req (drawnText req) else req
    end.
Proof.
  unfold GenerateImage.
  destruct (cache.get _ _ _) as [c [data |]]; [reflexivity |]. cbn [snd].
  rewrite <- (createImage_st_req (set_memoryCache ig c) g req).
  destruct (createImage _ g req) as [st [img | err]]; [| reflexivity].
  destruct (encodeImage _ _) as [data [e |]]; reflexivity.
Qed.

(** C2, as the code has it: every core operation leaves [Width], [Height],
    [Type], [BgColor] and [FgColor] as they were, and leaves a [Text] that is
    valid UTF-8 as it was; [getCacheKey] and [encodeImage] are functions of
    their arguments and write nothing.  The request [createImage] leaves is
    the request with the text it draws whenever the two colors parse, and
    the request as it was otherwise; [GenerateImage] leaves the request as
    it was on a hit of the cache and as [createImage] leaves it on a miss,
    whether the encoder then fails or not.  So a [Text] that is not valid
    UTF-8 is overwritten with "Invalid UTF-8" by [createImage], and by
    [GenerateImage] on a miss, whenever the colors parse. *)
Theorem core_operations_frame (ig : ImageGenerator) (g : FontGlobals)
    (tGet tSet : Z) (req : ImageRequest) :
  unchanged_but_text req (st_req (fst (createImage ig g req)))
  /\ unchanged_but_text req (st_req (fst (GenerateImage ig g tGet tSet req)))
  /\ (is_ok (snd (createImage ig g req)) = true ->
      Text (st_req (fst (createImage ig g req))) = drawnText req)
  /\ st_req (fst (createImage ig g req))
     = (if colorsParse req then set_Text req (drawnText req) else req)
  /\ st_req (fst (GenerateImage ig g tGet tSet req))
     = match snd (cache.get (memoryCache ig) (getCacheKey req) tGet) with
       | Some _ => req
       | None =>
           if colorsParse req then set_Text req (drawnText req) else req
       end
  /\ (utf8.ValidString (Text req) = false -> colorsParse req = true ->
      Text (st_req (fst (createImage ig g req))) = "Invalid UTF-8"
      /\ (snd (cache.get (memoryCache ig) (getCacheKey req) tGet) = None ->
          Text (st_req (fst (GenerateImage ig g tGet tSet req)))
          = "Invalid UTF-8")).
Proof.
  assert (Hs : forall req',
             req' = req \/ req' = set_Text req (drawnText req) ->
             unchanged_but_text req req').
  { unfold unchanged_but_text.
    intros req' [-> | ->]; [repeat split; auto |].
    unfold drawnText. destruct (utf8.ValidString (Text req)) eqn:V; simpl;
      repeat split; auto using set_Text_same. discriminate. }
  split; [| split; [| split; [| split; [| split]]]].
  - apply Hs. rewrite createImage_st_req. destruct (colorsParse req); auto.
  - apply Hs. apply GenerateImage_request.
  - intros Hok.
    rewrite createImage_st_req, <- (createImage_is_ok ig g req), Hok.
    reflexivity.
  - apply createImage_st_req.
  - apply GenerateImage_st_req.
  - intros Hv Hc. split.
    + rewrite createImage_st_req, Hc. cbn [set_Text Text].
      unfold drawnText. rewrite Hv. reflexivity.
    + intros Hmiss. rewrite GenerateImage_st_req, Hmiss, Hc.
      cbn [set_Text Text]. unfold drawnText. rewrite Hv. reflexivity.
Qed.

(** ** Errors and the cache *)

(** C3: when [GenerateImage] returns an error, the cache it leaves is the
    cache it found: nothing was stored, for the request's key or any other. *)
Theorem GenerateImage_error_keeps_cache (ig : ImageGenerator)
    (g : FontGlobals) (tGet tSet : Z) (req : ImageRequest) (st : State)
    (err : error) :
  GenerateImage ig g tGet tSet req = (st, Err err) ->
  memoryCache (st_ig st) = memoryCache ig.
Proof.
  unfold GenerateImage.
  destruct (cache.get _ _ _) as [c [data |]] eqn:Hget; [discriminate |].
  apply cache_get_miss in Hget. subst c.
  pose proof (createImage_request (set_memoryCache ig (memoryCache ig)) g req)
    as H.
  destruct (createImage _ g req) as [st1 [img | e1]]; destruct H as [Hm _].
  - destruct (encodeImage _ _) as [data [e |]]; [| discriminate].
    intros [= <- _]. exact Hm.
  - intros [= <- _]. exact Hm.
Qed.

(** ** Colors of a validated request *)

Lemma isHexDigit_digitVal (c : ascii) :
  isHexDigit c = true ->
  exists d, strconv.digitVal (byte_val c) = Some d /\ 0 <= d < 16.
Proof.
  destruct c as [[] [] [] [] [] [] [] []]; intros H; vm_compute in H;
    try discriminate H; eexists; (split; [vm_compute; reflexivity | lia]).
Qed.

Lemma ParseUint_hex2 (c c' : ascii) :
  isHexDigit c = true -> isHexDigit c' = true ->
  exists v, strconv.ParseUint (String c (String c' "")) 16 8 = (v, None)
            /\ 0 <= v < 256.
Proof.
  intros Hc Hc'.
  destruct (isHexDigit_digitVal c Hc) as (d & Hd & Hdr).
  destruct (isHexDigit_digitVal c' Hc') as (d' & Hd' & Hdr').
  exists (16 * d + d'). split; [| lia].
  unfold strconv.ParseUint. cbn [String.eqb negb Z.leb Z.compare andb orb].
  cbn [bytes strconv.ParseUint_loop]. rewrite Hd, Hd'.
  change (strconv.maxUint64 / 16 + 1) with 1152921504606846976.
  change (2 ^ (if 8 =? 0 then strconv.IntSize else 8) - 1) with 255.
  change (if 8 =? 0 then strconv.IntSize else 8) with 8.
  change (negb ((2 <=? 16) && (16 <=? 36))) with false.
  change ((8 <? 0) || (64 <? 8)) with false. cbv iota.
  change (2 ^ 64) with 18446744073709551616.
  change (0 * 16) with 0. rewrite (Z.mod_small 0) by lia.
  rewrite (Z.mod_small (0 + d)) by lia.
  rewrite (Z.mod_small (_ * 16)) by lia.
  rewrite (Z.mod_small (_ * 16 + d')) by lia.
  repeat match goal with
         | |- context [?a <=? ?b] => destruct (Z.leb_spec a b); try lia
         | |- context [?a <? ?b] => destruct (Z.ltb_spec a b); try lia
         end.
  cbn [orb]. cbv iota. f_equal. lia.
Qed.

Lemma isHex6_inv (s : string) :
  isHex6 s ->
  exists c0 c1 c2 c3 c4 c5,
    s = String c0 (String c1 (String c2 (String c3 (String c4 (String c5 "")))))
    /\ isHexDigit c0 = true /\ isHexDigit c1 = true /\ isHexDigit c2 = true
    /\ isHexDigit c3 = true /\ isHexDigit c4 = true /\ isHexDigit c5 = true.
Proof.
  intros [Hl Hh].
  do 6 (destruct s as [| ? s]; [discriminate Hl |]).
  destruct s; [| discriminate Hl].
  simpl in Hh. repeat (apply andb_prop in Hh; destruct Hh as [? Hh]).
  do 6 eexists. split; [reflexivity |]. auto 10.
Qed.

Lemma parseHexColor_hex6 (s : string) :
  isHex6 s -> exists c, parseHexColor s = Ok c /\ A c = 255.
Proof.
  intros H. destruct (isHex6_inv s H)
    as (c0 & c1 & c2 & c3 & c4 & c5 & -> & H0 & H1 & H2 & H3 & H4 & H5).
  destruct (ParseUint_hex2 c0 c1 H0 H1) as (r & Hr & _).
  destruct (ParseUint_hex2 c2 c3 H2 H3) as (g & Hg & _).
  destruct (ParseUint_hex2 c4 c5 H4 H5) as (b & Hb & _).
  unfold parseHexColor.
  change (negb (len _ =? 6)) with false. cbv iota.
  change (slice _ 0 2) with (String c0 (String c1 "")).
  change (slice _ 2 4) with (String c2 (String c3 "")).
  change (slice _ 4 6) with (String c4 (String c5 "")).
  rewrite Hr, Hg, Hb. eexists. split; reflexivity.
Qed.

Lemma ValidateColor_applyDefault (v d : string) :
  d <> "" -> ValidateColor (applyDefault v d) = true ->
  colorRegex_MatchString (applyDefault v d) = true.
Proof.
  unfold ValidateColor, applyDefault. intros Hd.
  destruct (String.eqb_spec v "") as [-> | Hv].
  - destruct (String.eqb_spec d ""); [contradiction | auto].
  - destruct (String.eqb_spec v ""); [contradiction | auto].
Qed.

Lemma colorRegex_isHex6 (s : string) :
  colorRegex_MatchString s = true <-> isHex6 s.
Proof.
  unfold colorRegex_MatchString, isHex6.
  rewrite andb_true_iff, Nat.eqb_eq. reflexivity.
Qed.

(** What a successful [NewImageRequest] says of its result. *)
Lemma NewImageRequest_ok (sizeStr imageType : string)
    (p : RequestQueryParams.t) (req : ImageRequest) :
  NewImageRequest sizeStr imageType p = Ok req ->
  ParseSize sizeStr
  = Ok {| ImageSize.Width := Width req; ImageSize.Height := Height req |}
  /\ validTypes (Type_ req) = true
  /\ isHex6 (BgColor req) /\ isHex6 (FgColor req)
  /\ Text req
     = applyDefault (RequestQueryParams.Text p)
         (fmt.d (Width req) ++ "x" ++ fmt.d (Height req)).
Proof.
  unfold NewImageRequest.
  destruct (ParseSize sizeStr) as [[w h] | e]; [| discriminate].
  destruct (ValidateType _) eqn:Ht; [| discriminate].
  destruct (ValidateColor (applyDefault _ DefaultBg)) eqn:Hb; [| discriminate].
  destruct (ValidateColor (applyDefault _ DefaultFg)) eqn:Hf; [| discriminate].
  simpl. intros [= <-]. simpl.
  apply ValidateColor_applyDefault in Hb; [| discriminate].
  apply ValidateColor_applyDefault in Hf; [| discriminate].
  rewrite colorRegex_isHex6 in Hb, Hf. auto.
Qed.

(** C10: the colors of a request that [NewImageRequest] built are exactly six
    hexadecimal digits each, [parseHexColor] turns both into an opaque color
    (alpha 255), and [createImage] cannot fail on such a request: its two
    error returns are out of reach. *)
Theorem validated_colors_parse (sizeStr imageType : string)
    (p : RequestQueryParams.t) (req : ImageRequest) :
  NewImageRequest sizeStr imageType p = Ok req ->
  isHex6 (BgColor req) /\ isHex6 (FgColor req)
  /\ (exists bg fg,
        parseHexColor (BgColor req) = Ok bg /\ A bg = 255
        /\ parseHexColor (FgColor req) = Ok fg /\ A fg = 255)
  /\ forall ig g, is_ok (snd (createImage ig g req)) = true.
Proof.
  intros H. apply NewImageRequest_ok in H.
  destruct H as (_ & _ & Hb & Hf & _).
  destruct (parseHexColor_hex6 _ Hb) as (bg & Hbg & Abg).
  destruct (parseHexColor_hex6 _ Hf) as (fg & Hfg & Afg).
  split; [exact Hb |]. split; [exact Hf |]. split.
  - exists bg, fg. auto.
  - intros ig g. rewrite (createImage_colors_ok _ _ _ _ _ Hbg Hfg).
    destruct (GetFont _ _ _) as [[fp g'] face]. reflexivity.
Qed.

(** ** The size token *)

Lemma span_spec (p : ascii -> bool) (s : string) :
  forall a b, span p s = (a, b) ->
    s = (a ++ b)%string /\ forallb_string p a = true.
Proof.
  induction s as [| c s IH]; simpl; intros a b.
  - intros [= <- <-]. auto.
  - destruct (p c) eqn:Hc.
    + destruct (span p s) as [a' b']. intros [= <- <-].
      destruct (IH _ _ eq_refl) as [-> Hp]. simpl. rewrite Hc. auto.
    + intros [= <- <-]. auto.
Qed.

Lemma span_app (p : ascii -> bool) (a b : string) :
  forallb_string p a = true ->
  match b with EmptyString => True | String c _ => p c = false end ->
  span p (a ++ b) = (a, b).
Proof.
  intros Ha Hb. induction a as [| c a IH]; simpl in *.
  - destruct b as [| c b]; [reflexivity |]. simpl. rewrite Hb. reflexivity.
  - apply andb_prop in Ha. destruct Ha as [Hc Ha].
    rewrite Hc, (IH Ha). reflexivity.
Qed.

Lemma append_nil_r (s : string) : (s ++ "")%string = s.
Proof. induction s; simpl; congruence. Qed.

Lemma byte_val_inj (c c' : ascii) : byte_val c = byte_val c' -> c = c'.
Proof.
  unfold byte_val. intros H. apply N2Z.inj in H.
  rewrite <- (ascii_N_embedding c), <- (ascii_N_embedding c'), H.
  reflexivity.
Qed.

Lemma sizeRegex_match (s g1 g2 : string) :
  matchesSize s g1 g2 -> sizeRegex_FindStringSubmatch s = [s; g1; g2].
Proof.
  intros (-> & H1 & H2 & D1 & D2). unfold sizeRegex_FindStringSubmatch.
  rewrite (span_app isDigit g1 ("x" ++ g2) D1 eq_refl).
  destruct g1 as [| c1 g1]; [contradiction |].
  change (byte_val "x" =? 120) with true. cbv iota.
  assert (E : span isDigit g2 = (g2, "")).
  { pose proof (span_app isDigit g2 "" D2 I) as E.
    rewrite append_nil_r in E. exact E. }
  simpl. rewrite E.
  destruct g2; [contradiction | reflexivity].
Qed.

Lemma sizeRegex_submatches (s : string) :
  (exists g1 g2,
     sizeRegex_FindStringSubmatch s = [s; g1; g2] /\ matchesSize s g1 g2)
  \/ sizeRegex_FindStringSubmatch s = [].
Proof.
  unfold sizeRegex_FindStringSubmatch.
  destruct (span isDigit s) as [g1 r] eqn:E1.
  apply span_spec in E1. destruct E1 as [Hs D1].
  destruct g1 as [| c1 g1]; [auto |].
  destruct r as [| c r']; [auto |].
  destruct (Z.eqb_spec (byte_val c) 120) as [Hx | _]; [| auto].
  apply (byte_val_inj c "x") in Hx. subst c.
  destruct (span isDigit r') as [g2 r2] eqn:E2.
  apply span_spec in E2. destruct E2 as [Hr D2].
  destruct g2 as [| c2 g2]; [auto |].
  destruct r2; [| auto].
  left. do 2 eexists. split; [reflexivity |].
  rewrite append_nil_r in Hr. subst r'.
  repeat split; try assumption; discriminate.
Qed.

(** *** [Atoi] on a string of digits *)

Lemma isDigit_val (c : ascii) :
  isDigit c = true ->
  48 <= byte_val c <= 57 /\ strconv.digitVal (byte_val c) = Some (byte_val c - 48).
Proof.
  unfold isDigit, strconv.digitVal. intros H. rewrite H.
  apply andb_prop in H. destruct H as [H1 H2].
  apply Z.leb_le in H1, H2. auto.
Qed.

Lemma decimalValue_acc_le (s : string) :
  forallb_string isDigit s = true ->
  forall n, 0 <= n -> n <= decimalValue_acc s n.
Proof.
  induction s as [| c s IH]; cbn [decimalValue_acc forallb_string];
    intros D n Hn; [lia |].
  apply andb_prop in D. destruct D as [Dc D].
  apply isDigit_val in Dc. destruct Dc as [Dc _].
  specialize (IH D (10 * n + (byte_val c - 48))). lia.
Qed.

Lemma Atoi_fast_digits (s : string) :
  forallb_string isDigit s = true ->
  forall n, strconv.Atoi_fast (bytes s) n = Some (decimalValue_acc s n).
Proof.
  induction s as [| c s IH];
    cbn [decimalValue_acc forallb_string bytes strconv.Atoi_fast];
    intros D n; [reflexivity |].
  apply andb_prop in D. destruct D as [Dc D].
  apply isDigit_val in Dc. destruct Dc as [Dc _].
  rewrite (Z.mod_small (byte_val c - 48) 256) by lia.
  destruct (Z.ltb_spec 9 (byte_val c - 48)); [lia |].
  rewrite (IH D). f_equal. f_equal. lia.
Qed.

Lemma decimalValue_acc_bound (s : string) :
  forallb_string isDigit s = true ->
  forall n, 0 <= n ->
    decimalValue_acc s n < (n + 1) * 10 ^ Z.of_nat (String.length s).
Proof.
  induction s as [| c s IH]; intros D n Hn.
  - simpl. lia.
  - simpl in D. apply andb_prop in D. destruct D as [Dc D].
    apply isDigit_val in Dc. destruct Dc as [Dc _].
    cbn [decimalValue_acc String.length].
    rewrite Nat2Z.inj_succ, Z.pow_succ_r by lia.
    specialize (IH D (10 * n + (byte_val c - 48))).
    assert (0 < 10 ^ Z.of_nat (String.length s)) by (apply Z.pow_pos_nonneg; lia).
    nia.
Qed.

Lemma ParseUint_loop_digits (s0 s : string) :
  forallb_string isDigit s = true ->
  forall n, 0 <= n <= strconv.maxUint64 ->
    strconv.ParseUint_loop s0 10 (strconv.maxUint64 / 10 + 1)
      strconv.maxUint64 (bytes s) n
    = if decimalValue_acc s n <=? strconv.maxUint64
      then (decimalValue_acc s n, None)
      else (strconv.maxUint64,
            Some (strconv.rangeError strconv.fnParseUint s0)).
Proof.
  change (strconv.maxUint64 / 10 + 1) with 1844674407370955162.
  unfold strconv.maxUint64. change (2 ^ 64 - 1) with 18446744073709551615.
  induction s as [| c s IH]; intros D n Hn.
  - simpl. destruct (Z.leb_spec n 18446744073709551615); [reflexivity | lia].
  - simpl in D. apply andb_prop in D. destruct D as [Dc D].
    pose proof (decimalValue_acc_le s D) as Hle.
    apply isDigit_val in Dc. destruct Dc as [Dc Hd].
    cbn [bytes strconv.ParseUint_loop decimalValue_acc]. rewrite Hd.
    change (2 ^ 64) with 18446744073709551616.
    destruct (Z.leb_spec 10 (byte_val c - 48)); [lia |].
    specialize (Hle (10 * n + (byte_val c - 48))).
    destruct (Z.leb_spec 1844674407370955162 n).
    { destruct (Z.leb_spec (decimalValue_acc s (10 * n + (byte_val c - 48)))
                  18446744073709551615); [lia | reflexivity]. }
    rewrite (Z.mod_small (n * 10)) by lia.
    destruct (Z_lt_le_dec (n * 10 + (byte_val c - 48)) 18446744073709551616)
      as [Hs | Hb].
    + rewrite (Z.mod_small (n * 10 + _)) by lia.
      destruct (Z.ltb_spec (n * 10 + (byte_val c - 48)) (n * 10)); [lia |].
      destruct (Z.ltb_spec 18446744073709551615 (n * 10 + (byte_val c - 48)));
        [lia |].
      cbn [orb]. cbv iota. rewrite IH by (auto; lia).
      replace (n * 10 + (byte_val c - 48)) with (10 * n + (byte_val c - 48))
        by lia.
      reflexivity.
    + assert (Hm : (n * 10 + (byte_val c - 48)) mod 18446744073709551616
                   = n * 10 + (byte_val c - 48) - 18446744073709551616).
      { symmetry. apply Z.mod_unique_pos with (q := 1); lia. }
      rewrite Hm.
      destruct (Z.ltb_spec (n * 10 + (byte_val c - 48) - 18446744073709551616)
                  (n * 10)); [| lia].
      cbn [orb]. cbv iota.
      destruct (Z.leb_spec (decimalValue_acc s (10 * n + (byte_val c - 48)))
                  18446744073709551615); [lia | reflexivity].
Qed.

Lemma Atoi_digits (g : string) :
  g <> "" -> forallb_string isDigit g = true ->
  strconv.Atoi g
  = if decimalValue g <? 2 ^ 63 then (decimalValue g, None)
    else (2 ^ 63 - 1, Some (NumError "Atoi" g ErrRange)).
Proof.
  intros Hne D. destruct g as [| c0 rest]; [contradiction |].
  pose proof D as D0. cbn [forallb_string] in D0.
  apply andb_prop in D0. destruct D0 as [Dc _].
  apply isDigit_val in Dc. destruct Dc as [Dc _].
  unfold strconv.Atoi, decimalValue.
  destruct (Z.eqb_spec (byte_val c0) 45); [lia |].
  destruct (Z.eqb_spec (byte_val c0) 43); [lia |].
  destruct ((0 <? len (String c0 rest)) && (len (String c0 rest) <? 19))
    eqn:Hlen.
  - cbn [orb]. cbv iota.
    apply andb_prop in Hlen. destruct Hlen as [_ Hlen].
    apply Z.ltb_lt in Hlen. unfold len in *.
    destruct (Z.ltb_spec (Z.of_nat (String.length (String c0 rest))) 1) as [H1 | _].
    { cbn [String.length] in H1. lia. }
    rewrite (Atoi_fast_digits _ D).
    pose proof (decimalValue_acc_bound _ D 0 ltac:(lia)) as Hb.
    assert (10 ^ Z.of_nat (String.length (String c0 rest)) <= 10 ^ 18)
      by (apply Z.pow_le_mono_r; lia).
    destruct (Z.ltb_spec (decimalValue_acc (String c0 rest) 0) (2 ^ 63));
      [reflexivity | lia].
  - unfold strconv.ParseInt, strconv.ParseUint.
    destruct (Z.eqb_spec (byte_val c0) 45); [lia |].
    destruct (Z.eqb_spec (byte_val c0) 43); [lia |].
    cbn [orb String.eqb]. cbv iota.
    change (negb ((2 <=? 10) && (10 <=? 36))) with false.
    change (if 0 =? 0 then strconv.IntSize else 0) with 64.
    change ((64 <? 0) || (64 <? 64)) with false. cbv iota.
    change (2 ^ 64 - 1) with strconv.maxUint64.
    rewrite (ParseUint_loop_digits _ _ D 0) by (unfold strconv.maxUint64; lia).
    pose proof (decimalValue_acc_le _ D 0 ltac:(lia)) as Hle.
    change (2 ^ (64 - 1)) with 9223372036854775808.
    change (2 ^ 63) with 9223372036854775808.
    unfold strconv.maxUint64. change (2 ^ 64 - 1) with 18446744073709551615.
    destruct (Z.leb_spec (decimalValue_acc (String c0 rest) 0)
                18446744073709551615).
    + cbn [negb andb]. 
      destruct (Z.leb_spec 9223372036854775808
                  (decimalValue_acc (String c0 rest) 0));
        destruct (Z.ltb_spec (decimalValue_acc (String c0 rest) 0)
                    9223372036854775808); try lia; reflexivity.
    + cbn [negb andb strconv.rangeError].
      destruct (Z.ltb_spec (decimalValue_acc (String c0 rest) 0)
                  9223372036854775808); [lia | reflexivity].
Qed.

Lemma ParseSize_nomatch (s : string) :
  sizeRegex_FindStringSubmatch s = [] ->
  ParseSize s = Err (errorString "invalid size format, expected WIDTHxHEIGHT").
Proof. unfold ParseSize. intros ->. reflexivity. Qed.

Lemma ParseSize_match (s g1 g2 : string) :
  matchesSize s g1 g2 ->
  ParseSize s
  = if negb (decimalValue g1 <? 2 ^ 63) then Err (errorString "invalid width")
    else if negb (decimalValue g2 <? 2 ^ 63)
    then Err (errorString "invalid height")
    else if (decimalValue g1 <=? 0) || (decimalValue g2 <=? 0)
            || (3000 <? decimalValue g1) || (3000 <? decimalValue g2)
    then Err (errorString "size must be between 1x1 and 3000x3000")
    else Ok {| ImageSize.Width := decimalValue g1;
               ImageSize.Height := decimalValue g2 |}.
Proof.
  intros M. unfold ParseSize. rewrite (sizeRegex_match _ _ _ M).
  destruct M as (_ & N1 & N2 & D1 & D2).
  cbn [List.length Nat.eqb negb nth]. cbv iota.
  rewrite (Atoi_digits g1 N1 D1).
  destruct (decimalValue g1 <? 2 ^ 63); [| reflexivity].
  rewrite (Atoi_digits g2 N2 D2).
  destruct (decimalValue g2 <? 2 ^ 63); reflexivity.
Qed.

(** A size token either matches with both numbers in range, and then
    [ParseSize] returns them, or it is refused with one of the size errors. *)
Lemma ParseSize_cases (sizeStr : string) :
  (exists g1 g2, matchesSize sizeStr g1 g2
     /\ 1 <= decimalValue g1 <= 3000 /\ 1 <= decimalValue g2 <= 3000
     /\ ParseSize sizeStr
        = Ok {| ImageSize.Width := decimalValue g1;
                ImageSize.Height := decimalValue g2 |})
  \/ ((forall g1 g2, matchesSize sizeStr g1 g2 ->
         ~ (1 <= decimalValue g1 <= 3000 /\ 1 <= decimalValue g2 <= 3000))
      /\ exists e, isInvalidSize e /\ ParseSize sizeStr = Err e).
Proof.
  destruct (sizeRegex_submatches sizeStr) as [(g1 & g2 & Hm & M) | Hn].
  - pose proof (ParseSize_match _ _ _ M) as HP.
    change (2 ^ 63) with 9223372036854775808 in HP.
    destruct (Z.ltb_spec (decimalValue g1) 9223372036854775808);
      destruct (Z.ltb_spec (decimalValue g2) 9223372036854775808);
      cbn [negb] in HP; cbv iota in HP;
      try (destruct (Z.leb_spec (decimalValue g1) 0);
           destruct (Z.leb_spec (decimalValue g2) 0);
           destruct (Z.ltb_spec 3000 (decimalValue g1));
           destruct (Z.ltb_spec 3000 (decimalValue g2));
           cbn [orb] in HP; cbv iota in HP);
      try (left; exists g1, g2;
           split; [exact M |]; split; [lia |]; split; [lia | exact HP]);
      right;
      (split;
       [ intros g1' g2' M'; pose proof (sizeRegex_match _ _ _ M') as E;
         rewrite Hm in E; injection E as <- <-; lia
       | eexists; split; [| exact HP]; unfold isInvalidSize; auto ]).
  - right. split.
    + intros g1 g2 M. apply sizeRegex_match in M.
      rewrite Hn in M. discriminate M.
    + eexists. split; [| exact (ParseSize_nomatch _ Hn)].
      unfold isInvalidSize. auto.
Qed.

(** C5: the size token is accepted exactly when it matches [^\d+x\d+$] with
    both numbers between 1 and 3000, and the dimensions returned are those
    numbers; any other token is refused by [ParseSize], and so by
    [NewImageRequest] whatever the other tokens, with one of the size
    errors; a request built by [NewImageRequest] carries the dimensions of
    its token, and one is built whenever the type and the colors are valid
    too. *)
Theorem size_validation (sizeStr : string) :
  (forall w h,
     ParseSize sizeStr = Ok {| ImageSize.Width := w; ImageSize.Height := h |}
     <-> exists g1 g2,
           matchesSize sizeStr g1 g2
           /\ w = decimalValue g1 /\ h = decimalValue g2
           /\ 1 <= w <= 3000 /\ 1 <= h <= 3000)
  /\ (~ (exists g1 g2,
           matchesSize sizeStr g1 g2
           /\ 1 <= decimalValue g1 <= 3000 /\ 1 <= decimalValue g2 <= 3000) ->
      exists e,
        isInvalidSize e /\ ParseSize sizeStr = Err e
        /\ forall imageType p, NewImageRequest sizeStr imageType p = Err e)
  /\ (forall imageType p req,
        NewImageRequest sizeStr imageType p = Ok req ->
        ParseSize sizeStr
        = Ok {| ImageSize.Width := Width req; ImageSize.Height := Height req |})
  /\ (forall w h imageType p,
        ParseSize sizeStr = Ok {| ImageSize.Width := w; ImageSize.Height := h |} ->
        ValidateType (if String.eqb imageType "" then DefaultType else imageType)
        = true ->
        ValidateColor (applyDefault (RequestQueryParams.Bg p) DefaultBg) = true ->
        ValidateColor (applyDefault (RequestQueryParams.Fg p) DefaultFg) = true ->
        exists req,
          NewImageRequest sizeStr imageType p = Ok req
          /\ Width req = w /\ Height req = h).
Proof.
  pose proof (ParseSize_cases sizeStr) as Hcases.
  split; [| split; [| split]].
  - intros w h. split.
    + intros HP. destruct Hcases as [(g1 & g2 & M & R1 & R2 & E) | [_ (e & _ & E)]];
        rewrite E in HP; [| discriminate].
      injection HP as <- <-. exists g1, g2. auto.
    + intros (g1 & g2 & M & -> & -> & R1 & R2).
      destruct Hcases as [(g1' & g2' & M' & _ & _ & E) | [Hn _]].
      * pose proof (sizeRegex_match _ _ _ M) as E1.
        rewrite (sizeRegex_match _ _ _ M') in E1. injection E1 as -> ->.
        exact E.
      * exfalso. exact (Hn _ _ M (conj R1 R2)).
  - intros Hno. destruct Hcases as [(g1 & g2 & M & R1 & R2 & _) | [_ (e & He & E)]].
    + exfalso. apply Hno. exists g1, g2. auto.
    + exists e. repeat split; auto.
      intros imageType p. unfold NewImageRequest. rewrite E. reflexivity.
  - intros imageType p req H. apply NewImageRequest_ok in H.
    destruct H as [H _]. exact H.
  - intros w h imageType p HP Ht Hb Hf. unfold NewImageRequest.
    rewrite HP, Ht, Hb, Hf. cbn [negb]. cbv iota.
    eexists. split; [reflexivity |]. split; reflexivity.
Qed.

(** ** The cache key *)

Lemma le_bytes_length (n : nat) (w : Z) : List.length (md5.le_bytes n w) = n.
Proof. unfold md5.le_bytes. rewrite length_map, length_seq. reflexivity. Qed.

Lemma md5_Sum_length (data : list Z) :
  List.length (md5.Sum data) = md5.Size.
Proof.
  unfold md5.Sum.
  destruct (md5.blocks _ _ _) as [[[a b] c] d].
  rewrite !length_app, !le_bytes_length. reflexivity.
Qed.

Lemma fmt_x_length (bs : list Z) :
  String.length (fmt.x bs) = (2 * List.length bs)%nat.
Proof. induction bs as [| b bs IH]; simpl; [reflexivity | rewrite IH; lia]. Qed.

Lemma forallb_string_impl (p q : ascii -> bool) (s : string) :
  (forall c, p c = true -> q c = true) ->
  forallb_string p s = true -> forallb_string q s = true.
Proof.
  intros Hpq. induction s as [| c s IH]; simpl; [reflexivity |].
  intros H. apply andb_prop in H. destruct H as [Hc Hs].
  rewrite (Hpq c Hc), (IH Hs). reflexivity.
Qed.

(** [%d] prints digits after an optional sign, and prints different numbers
    differently. *)

Lemma string_of_uint_digits (u : Decimal.uint) :
  forallb_string isDigit (NilEmpty.string_of_uint u) = true.
Proof. induction u; simpl; auto. Qed.

Lemma fmt_d_chars (z : Z) : forallb_string isSignOrDigit (fmt.d z) = true.
Proof.
  assert (H : forall u, forallb_string isSignOrDigit (NilZero.string_of_uint u)
                        = true).
  { intros u. apply (forallb_string_impl isDigit).
    - intros c Hc. unfold isSignOrDigit. rewrite Hc. reflexivity.
    - destruct u; try apply string_of_uint_digits. reflexivity. }
  unfold fmt.d. destruct (Z.to_int z) as [u | u]; simpl; auto.
Qed.

Lemma fmt_d_inj (a b : Z) : fmt.d a = fmt.d b -> a = b.
Proof.
  unfold fmt.d. intros H.
  assert (Hn : forall z, Z.to_int z <> Decimal.Pos Decimal.Nil
                         /\ Z.to_int z <> Decimal.Neg Decimal.Nil).
  { intros [| p | p]; simpl; split; try discriminate;
      intros [= E]; exact (DecimalPos.Unsigned.to_uint_nonnil p E). }
  assert (E : Some (Z.to_int a) = Some (Z.to_int b)).
  { rewrite <- (NilZero.isi (Z.to_int a)) by apply Hn.
    rewrite <- (NilZero.isi (Z.to_int b)) by apply Hn.
    rewrite H. reflexivity. }
  injection E as E.
  rewrite <- (DecimalZ.of_to a), <- (DecimalZ.of_to b), E. reflexivity.
Qed.

(** A string is cut in one way only at the first occurrence of a
    character. *)
Lemma cut_unique (c : ascii) (a a' b b' : string) :
  absent c a -> absent c a' ->
  (a ++ String c b)%string = (a' ++ String c b')%string ->
  a = a' /\ b = b'.
Proof.
  unfold absent. revert a'.
  induction a as [| x a IH]; intros [| x' a']; simpl; intros Ha Ha' E.
  - injection E as <-. auto.
  - injection E as <- _. rewrite Ascii.eqb_refl in Ha'. discriminate.
  - injection E as -> _. rewrite Ascii.eqb_refl in Ha. discriminate.
  - injection E as <- E.
    apply andb_prop in Ha, Ha'. destruct Ha as [_ Ha], Ha' as [_ Ha'].
    destruct (IH a' Ha Ha' E) as [-> ->]. auto.
Qed.

Lemma absent_of_class (p : ascii -> bool) (c : ascii) (s : string) :
  p c = false -> forallb_string p s = true -> absent c s.
Proof.
  intros Hc. apply forallb_string_impl. intros a Ha.
  destruct (Ascii.eqb_spec a c) as [-> |]; [congruence | reflexivity].
Qed.

Lemma validTypes_absent (t : string) :
  validTypes t = true -> absent "_" t.
Proof.
  unfold validTypes. cbn [existsb]. intros H.
  repeat (apply orb_prop in H;
          destruct H as [H | H]; [apply String.eqb_eq in H; subst; reflexivity |]).
  discriminate.
Qed.

Lemma validated_wellFormed (req : ImageRequest) :
  validated req -> wellFormed req.
Proof.
  intros (sizeStr & imageType & p & H).
  apply NewImageRequest_ok in H. destruct H as (HP & Ht & Hb & Hf & _).
  destruct (ParseSize_cases sizeStr)
    as [(g1 & g2 & _ & Hw & Hh & E) | [_ (e & _ & E)]];
    rewrite E in HP; [| discriminate].
  injection HP as Ew Eh. rewrite Ew in Hw. rewrite Eh in Hh.
  unfold wellFormed, MaxImageSize. auto.
Qed.

Lemma cacheKeyString_inj (r1 r2 : ImageRequest) :
  wellFormed r1 -> wellFormed r2 ->
  cacheKeyString r1 = cacheKeyString r2 -> r1 = r2.
Proof.
  intros (_ & _ & T1 & B1 & F1) (_ & _ & T2 & B2 & F2).
  destruct r1 as [w1 h1 t1 b1 f1 x1], r2 as [w2 h2 t2 b2 f2 x2].
  unfold cacheKeyString. cbn [Width Height Type_ BgColor FgColor Text] in *.
  intros E.
  change ("x" ++ ?s)%string with (String "x" s) in E.
  apply cut_unique in E;
    try (apply (absent_of_class isSignOrDigit); [reflexivity | apply fmt_d_chars]).
  destruct E as [Ew E]. apply fmt_d_inj in Ew.
  change ("_" ++ ?s)%string with (String "_" s) in E.
  apply cut_unique in E;
    try (apply (absent_of_class isSignOrDigit); [reflexivity | apply fmt_d_chars]).
  destruct E as [Eh E]. apply fmt_d_inj in Eh.
  apply cut_unique in E; try (apply validTypes_absent; assumption).
  destruct E as [Et E].
  apply cut_unique in E;
    try (apply (absent_of_class isHexDigit); [reflexivity |]; (apply B1 || apply B2)).
  destruct E as [Eb E].
  apply cut_unique in E;
    try (apply (absent_of_class isHexDigit); [reflexivity |]; (apply F1 || apply F2)).
  destruct E as [Ef Ex].
  subst. reflexivity.
Qed.

(** [%x] loses nothing of the bytes it prints. *)
Lemma byte_val_of (z : Z) : byte_val (byte_of z) = z mod 256.
Proof.
  unfold byte_val, byte_of.
  assert (0 <= z mod 256 < 256) by (apply Z.mod_pos_bound; lia).
  rewrite N_ascii_embedding by lia. lia.
Qed.

Lemma hexDigit_inj (a b : Z) :
  0 <= a < 16 -> 0 <= b < 16 -> fmt.hexDigit a = fmt.hexDigit b -> a = b.
Proof.
  intros Ha Hb H. apply (f_equal byte_val) in H. unfold fmt.hexDigit in H.
  rewrite !byte_val_of in H.
  destruct (Z.ltb_spec a 10), (Z.ltb_spec b 10);
    rewrite !Z.mod_small in H by lia; lia.
Qed.

Lemma fmt_x_inj (l l' : list Z) :
  Forall (fun b => 0 <= b < 256) l -> Forall (fun b => 0 <= b < 256) l' ->
  fmt.x l = fmt.x l' -> l = l'.
Proof.
  intros Hl. revert l'.
  induction Hl as [| b l Hb Hl IH]; intros l' Hl' E; destruct Hl' as [| b' l' Hb' Hl'];
    try discriminate E; [reflexivity |].
  cbn [fmt.x] in E. injection E as E1 E2 E.
  apply hexDigit_inj in E1;
    [| split; [apply Z.div_pos | apply Z.div_lt_upper_bound]; lia ..].
  apply hexDigit_inj in E2; [| apply Z.mod_pos_bound; lia ..].
  rewrite (IH l' Hl' E). f_equal.
  rewrite (Z.div_mod b 16), (Z.div_mod b' 16) by lia. congruence.
Qed.

Lemma le_bytes_range (n : nat) (w : Z) :
  Forall (fun b => 0 <= b < 256) (md5.le_bytes n w).
Proof.
  unfold md5.le_bytes. apply Forall_map, Forall_forall.
  intros i _. apply Z.mod_pos_bound. lia.
Qed.

Lemma md5_Sum_range (data : list Z) :
  Forall (fun b => 0 <= b < 256) (md5.Sum data).
Proof.
  unfold md5.Sum. destruct (md5.blocks _ _ _) as [[[a b] c] d].
  repeat (apply Forall_app; split); apply le_bytes_range.
Qed.

(** C4: the cache key is a function of the six fields of the request, 32
    hexadecimal characters long whatever the request, that print the MD5
    digest of the string the fields are written to.  That string tells any
    two requests that keep the invariant apart, as every validated request
    does: two of them that differ, in one field or in more, are written
    differently, and can share a key only if MD5 maps their two strings to
    one digest. *)
Theorem getCacheKey_fingerprint (r1 r2 : ImageRequest) :
  String.length (getCacheKey r1) = 32%nat
  /\ (Width r1 = Width r2 -> Height r1 = Height r2 -> Type_ r1 = Type_ r2 ->
      BgColor r1 = BgColor r2 -> FgColor r1 = FgColor r2 ->
      Text r1 = Text r2 -> getCacheKey r1 = getCacheKey r2)
  /\ (validated r1 -> wellFormed r1)
  /\ (wellFormed r1 -> wellFormed r2 -> r1 <> r2 ->
      cacheKeyString r1 <> cacheKeyString r2)
  /\ (getCacheKey r1 = getCacheKey r2 ->
      md5.Sum (bytes (cacheKeyString r1)) = md5.Sum (bytes (cacheKeyString r2))).
Proof.
  split; [| split; [| split; [| split]]].
  - unfold getCacheKey. rewrite fmt_x_length, md5_Sum_length. reflexivity.
  - destruct r1, r2; simpl; intros; subst; reflexivity.
  - apply validated_wellFormed.
  - intros V1 V2 Hne E. apply Hne. exact (cacheKeyString_inj _ _ V1 V2 E).
  - unfold getCacheKey. apply fmt_x_inj; apply md5_Sum_range.
Qed.

(** ** Binary64 facts

    The conversion of a positive integer never rounds to zero; this is what
    makes the test [runeCount == 0] a test of the integer. *)

Lemma iter_pos_nat {X : Type} (f : X -> X) (p : positive) (x : X) :
  SpecFloat.iter_pos f p x = Nat.iter (Pos.to_nat p) f x.
Proof.
  revert x. induction p as [p IH | p IH |]; intros x; cbn [SpecFloat.iter_pos].
  - rewrite !IH, Pos2Nat.inj_xI.
    replace (S (2 * Pos.to_nat p)) with (Pos.to_nat p + S (Pos.to_nat p))%nat
      by lia.
    rewrite Nat.iter_add, Nat.iter_succ_r. reflexivity.
  - rewrite !IH, Pos2Nat.inj_xO.
    replace (2 * Pos.to_nat p)%nat with (Pos.to_nat p + Pos.to_nat p)%nat by lia.
    rewrite Nat.iter_add. reflexivity.
  - reflexivity.
Qed.

Lemma shr_1_positive (q : positive) (r s : bool) :
  1 < Z.pos (SpecFloat.digits2_pos q) ->
  exists q',
    SpecFloat.shr_m
      (SpecFloat.shr_1
         {| SpecFloat.shr_m := Z.pos q; SpecFloat.shr_r := r;
            SpecFloat.shr_s := s |}) = Z.pos q'
    /\ Z.pos (SpecFloat.digits2_pos q') = Z.pos (SpecFloat.digits2_pos q) - 1.
Proof.
  destruct q as [q | q |]; cbn [SpecFloat.shr_1 SpecFloat.digits2_pos SpecFloat.shr_m];
    intros H; [exists q | exists q | lia]; split; try reflexivity; lia.
Qed.

Lemma iter_shr_1_positive (k : nat) :
  forall mrs q,
    SpecFloat.shr_m mrs = Z.pos q ->
    Z.of_nat k < Z.pos (SpecFloat.digits2_pos q) ->
    exists q',
      SpecFloat.shr_m (Nat.iter k SpecFloat.shr_1 mrs) = Z.pos q'
      /\ Z.pos (SpecFloat.digits2_pos q')
         = Z.pos (SpecFloat.digits2_pos q) - Z.of_nat k.
Proof.
  induction k as [| k IH]; intros mrs q Hm Hk.
  - exists q. simpl. split; [exact Hm | lia].
  - destruct (IH mrs q Hm ltac:(lia)) as (q1 & H1 & D1).
    change (Nat.iter (S k) SpecFloat.shr_1 mrs)
      with (SpecFloat.shr_1 (Nat.iter k SpecFloat.shr_1 mrs)).
    destruct (Nat.iter k SpecFloat.shr_1 mrs) as [m r s] eqn:E.
    cbn [SpecFloat.shr_m] in H1. subst m.
    destruct (shr_1_positive q1 r s ltac:(lia)) as (q' & H' & D').
    exists q'. split; [exact H' | lia].
Qed.

Lemma shr_fexp_positive (q : positive) (e : Z) (l : SpecFloat.location)
    (mrs : SpecFloat.shr_record) (e' : Z) :
  emin64 <= e ->
  SpecFloat.shr_fexp prec emax (Z.pos q) e l = (mrs, e') ->
  (exists q', SpecFloat.shr_m mrs = Z.pos q') /\ emin64 <= e'.
Proof.
  unfold emin64, SpecFloat.shr_fexp, SpecFloat.shr, SpecFloat.fexp.
  change (SpecFloat.emin prec emax) with (-1074). change prec with 53.
  cbn [SpecFloat.Zdigits2]. intros He.
  assert (Hloc : SpecFloat.shr_m (SpecFloat.shr_record_of_loc (Z.pos q) l)
                 = Z.pos q) by (destruct l as [| []]; reflexivity).
  destruct (Z.max (Z.pos (SpecFloat.digits2_pos q) + e - 53) (-1074) - e)
    as [| p | p] eqn:En; intros [= <- <-].
  - split; [eauto | lia].
  - rewrite iter_pos_nat.
    destruct (iter_shr_1_positive (Pos.to_nat p) _ q Hloc) as (q' & H' & _).
    + rewrite positive_nat_Z. lia.
    + split; [eauto | lia].
  - split; [eauto | lia].
Qed.

Lemma binary_round_aux_positive (sx : bool) (q : positive) (e : Z)
    (l : SpecFloat.location) :
  emin64 <= e ->
  (exists m e', SpecFloat.binary_round_aux prec emax sx (Z.pos q) e l
                = SpecFloat.S754_finite sx m e')
  \/ SpecFloat.binary_round_aux prec emax sx (Z.pos q) e l
     = SpecFloat.S754_infinity sx.
Proof.
  intros He. unfold SpecFloat.binary_round_aux.
  destruct (SpecFloat.shr_fexp prec emax (Z.pos q) e l) as [mrs1 e1] eqn:E1.
  destruct (shr_fexp_positive _ _ _ _ _ He E1) as [(q1 & H1) He1].
  rewrite H1.
  assert (Hr : exists q2,
             SpecFloat.round_nearest_even (Z.pos q1)
               (SpecFloat.loc_of_shr_record mrs1) = Z.pos q2).
  { unfold SpecFloat.round_nearest_even.
    destruct (SpecFloat.loc_of_shr_record mrs1) as [| []];
      try destruct (IntDef.Z.even (Z.pos q1)); cbn [Z.add]; eauto. }
  destruct Hr as (q2 & ->).
  destruct (SpecFloat.shr_fexp prec emax (Z.pos q2) e1 SpecFloat.loc_Exact)
    as [mrs2 e2] eqn:E2.
  destruct (shr_fexp_positive _ _ _ _ _ He1 E2) as [(q3 & H3) _].
  rewrite H3. destruct (e2 <=? emax - prec); eauto.
Qed.

Lemma binary_normalize_positive (p : positive) :
  (exists m e, SpecFloat.binary_normalize prec emax (Z.pos p) 0 false
               = SpecFloat.S754_finite false m e)
  \/ SpecFloat.binary_normalize prec emax (Z.pos p) 0 false
     = SpecFloat.S754_infinity false.
Proof.
  unfold SpecFloat.binary_normalize, SpecFloat.binary_round.
  destruct (SpecFloat.shl_align p 0 _) as [mz ez] eqn:E.
  apply binary_round_aux_positive.
  unfold SpecFloat.shl_align in E.
  set (ex' := SpecFloat.fexp prec emax (Z.pos (SpecFloat.digits2_pos p) + 0))
    in E.
  assert (Hex : emin64 <= ex') by apply Z.le_max_r.
  assert (H0 : emin64 <= 0) by (vm_compute; discriminate).
  destruct (ex' - 0); inversion E; subst; assumption.
Qed.

Lemma float64_nonzero (n : Z) :
  0 < n < 2 ^ 63 -> (float64 n =? 0)%float = false.
Proof.
  intros Hn. unfold float64.
  destruct (Z.ltb_spec n 0); [lia |].
  rewrite FloatAxioms.eqb_spec, FloatAxioms.of_uint63_spec, Uint63.of_Z_spec.
  rewrite Z.mod_small by (change wB with (2 ^ 63); lia).
  destruct n as [| p | p]; [lia | | lia].
  change (Prim2SF 0) with (SpecFloat.S754_zero false).
  destruct (binary_normalize_positive p) as [(m & e & ->) | ->]; reflexivity.
Qed.

(** ** The font size *)

Lemma RuneCount_loop_bounds (fuel : nat) :
  forall s n, n <= utf8.RuneCount_loop fuel s n <= n + Z.of_nat fuel.
Proof.
  induction fuel as [| fuel IH]; intros s n; cbn [utf8.RuneCount_loop]; [lia |].
  destruct s as [| c rest]; [lia |].
  destruct (utf8.decodeStep c rest).
  - specialize (IH (skipn n0 (c :: rest)) (n + 1)). lia.
  - specialize (IH rest (n + 1)). lia.
Qed.

Lemma RuneCountInString_bounds (s : string) :
  0 <= utf8.RuneCountInString s <= len s.
Proof. apply (RuneCount_loop_bounds (String.length s) (bytes s) 0). Qed.

Lemma bounds_check_all (m : Z) : 1 <= m <= 3000 -> bounds_check m = true.
Proof.
  intros Hm.
  assert (H : forallb (fun k => bounds_check (Z.of_nat k)) (seq 1 3000) = true)
    by (vm_compute; reflexivity).
  rewrite forallb_forall in H.
  rewrite <- (Z2Nat.id m) by lia. apply H. apply in_seq. lia.
Qed.

(** The order of binary64: what is above an upper bound is not below a
    lower one. *)
Lemma SFcompare_le_lt (a b c : SpecFloat.spec_float) :
  SpecFloat.SFleb a b = true -> SpecFloat.SFltb b c = true ->
  SpecFloat.SFltb c a = false.
Proof.
  unfold SpecFloat.SFleb, SpecFloat.SFltb, SpecFloat.SFcompare.
  destruct a as [sa | sa | | sa ma ea], b as [sb | sb | | sb mb eb],
    c as [sc | sc | | sc mc ec];
    try destruct sa; try destruct sb; try destruct sc;
    try reflexivity; try discriminate;
    change (Pos.compare_cont Eq) with Pos.compare;
    change IntDef.Z.compare with Z.compare;
    repeat match goal with
           | |- context [Z.compare ?u ?v] => destruct (Z.compare_spec u v)
           | |- context [Pos.compare ?u ?v] => destruct (Pos.compare_spec u v)
           end;
    cbn [CompOpp]; try reflexivity; try discriminate; intros; lia.
Qed.

Lemma float_le_lt (lo hi x : float) :
  (lo <=? hi)%float = true -> (hi <? x)%float = true ->
  (x <? lo)%float = false.
Proof.
  rewrite FloatAxioms.leb_spec, !FloatAxioms.ltb_spec.
  apply SFcompare_le_lt.
Qed.

Lemma float_le_not_gt (lo hi : float) :
  (lo <=? hi)%float = true -> (hi <? lo)%float = false.
Proof.
  rewrite FloatAxioms.leb_spec, FloatAxioms.ltb_spec.
  unfold SpecFloat.SFleb, SpecFloat.SFltb, SpecFloat.SFcompare.
  destruct (Prim2SF lo) as [sa | sa | | sa ma ea],
    (Prim2SF hi) as [sb | sb | | sb mb eb];
    try destruct sa; try destruct sb; try reflexivity; try discriminate;
    change (Pos.compare_cont Eq) with Pos.compare;
    change IntDef.Z.compare with Z.compare;
    repeat match goal with
           | |- context [Z.compare ?u ?v] => destruct (Z.compare_spec u v)
           | |- context [Pos.compare ?u ?v] => destruct (Pos.compare_spec u v)
           end;
    cbn [CompOpp]; try reflexivity; try discriminate; intros; lia.
Qed.

Lemma clamp_ordered (x lo hi : float) :
  (lo <=? hi)%float = true -> clamp_lower_last x lo hi = clamp x lo hi.
Proof.
  intros Hle. unfold clamp_lower_last, clamp, fmax, fmin.
  destruct (hi <? x)%float eqn:Hx; [| reflexivity].
  rewrite (float_le_lt lo hi x Hle Hx), (float_le_not_gt lo hi Hle).
  reflexivity.
Qed.

Lemma clamp_ordered_min_max (x lo hi : float) :
  (lo <=? hi)%float = true ->
  clamp_lower_last x lo hi = clamp_upper_last x lo hi.
Proof.
  intros Hle. rewrite (clamp_ordered x lo hi Hle).
  unfold clamp, clamp_upper_last, fmax, fmin.
  destruct (x <? lo)%float; [| reflexivity].
  rewrite (float_le_not_gt lo hi Hle). reflexivity.
Qed.

(** *** The base size is a number

    Products and quotients of finite numbers and of conversions of positive
    integers are never NaN; so below its upper bound is what is not above
    it. *)

Lemma iter_pos_invariant {X : Type} (P : X -> Prop) (f : X -> X) :
  (forall x, P x -> P (f x)) ->
  forall p x, P x -> P (SpecFloat.iter_pos f p x).
Proof.
  intros Hf. induction p as [p IH | p IH |]; intros x Hx;
    cbn [SpecFloat.iter_pos]; auto.
Qed.

Lemma shr_1_nonneg (mrs : SpecFloat.shr_record) :
  0 <= SpecFloat.shr_m mrs -> 0 <= SpecFloat.shr_m (SpecFloat.shr_1 mrs).
Proof.
  destruct mrs as [[| [q | q |] | q] r s]; cbn [SpecFloat.shr_1 SpecFloat.shr_m];
    lia.
Qed.

Lemma shr_fexp_nonneg (m e : Z) (l : SpecFloat.location) :
  0 <= m -> 0 <= SpecFloat.shr_m (fst (SpecFloat.shr_fexp prec emax m e l)).
Proof.
  intros Hm. unfold SpecFloat.shr_fexp, SpecFloat.shr.
  assert (H0 : 0 <= SpecFloat.shr_m (SpecFloat.shr_record_of_loc m l))
    by (destruct l as [| []]; exact Hm).
  destruct (_ - e) as [| p | p]; cbn [fst]; try exact H0.
  apply (iter_pos_invariant (fun r => 0 <= SpecFloat.shr_m r));
    [exact shr_1_nonneg | exact H0].
Qed.

Lemma binary_round_aux_not_nan (sx : bool) (m e : Z) (l : SpecFloat.location) :
  0 <= m ->
  SpecFloat.binary_round_aux prec emax sx m e l <> SpecFloat.S754_nan.
Proof.
  intros Hm. unfold SpecFloat.binary_round_aux.
  pose proof (shr_fexp_nonneg m e l Hm) as H1.
  destruct (SpecFloat.shr_fexp prec emax m e l) as [mrs1 e1]. cbn [fst] in H1.
  assert (H2 : 0 <= SpecFloat.round_nearest_even (SpecFloat.shr_m mrs1)
                      (SpecFloat.loc_of_shr_record mrs1)).
  { unfold SpecFloat.round_nearest_even.
    destruct (SpecFloat.loc_of_shr_record mrs1) as [| []];
      try destruct (IntDef.Z.even _); lia. }
  pose proof (shr_fexp_nonneg _ e1 SpecFloat.loc_Exact H2) as H3.
  destruct (SpecFloat.shr_fexp prec emax _ e1 SpecFloat.loc_Exact)
    as [mrs2 e2].
  cbn [fst] in H3.
  destruct (SpecFloat.shr_m mrs2); [discriminate | | lia].
  destruct (e2 <=? emax - prec); discriminate.
Qed.

Lemma isFinite_spec (x : float) :
  isFinite x = true -> exists s m e, Prim2SF x = SpecFloat.S754_finite s m e.
Proof. unfold isFinite. destruct (Prim2SF x); try discriminate; eauto. Qed.

Lemma mul_finite_notNaN (x y : float) :
  notNaN x -> isFinite y = true -> notNaN (x * y).
Proof.
  unfold notNaN. intros Hx Hy.
  destruct (isFinite_spec y Hy) as (sy & my & ey & Ey).
  rewrite FloatAxioms.mul_spec, Ey. unfold FloatAxioms.SF64mul, SpecFloat.SFmul.
  destruct (Prim2SF x) as [sx | sx | | sx mx ex]; try discriminate;
    [contradiction |].
  apply binary_round_aux_not_nan. lia.
Qed.

Lemma div_finite_notNaN (x y : float) :
  isFinite x = true ->
  (isFinite y = true \/ Prim2SF y = SpecFloat.S754_infinity false) ->
  notNaN (x / y).
Proof.
  unfold notNaN. intros Hx Hy.
  destruct (isFinite_spec x Hx) as (sx & mx & ex & Ex).
  rewrite FloatAxioms.div_spec, Ex. unfold FloatAxioms.SF64div, SpecFloat.SFdiv.
  destruct Hy as [Hy | ->]; [| discriminate].
  destruct (isFinite_spec y Hy) as (sy & my & ey & ->).
  unfold SpecFloat.SFdiv_core_binary.
  set (s := (_ - _ - _)%Z).
  set (m' := match s with Z.pos _ => _ | 0 => _ | Z.neg _ => _ end).
  assert (Hm' : 0 <= m').
  { unfold m'. destruct s; try lia. apply Z.shiftl_nonneg. lia. }
  pose proof (Z.div_pos m' (Z.pos my) Hm' ltac:(lia)) as Hq.
  unfold Z.div in Hq.
  change IntDef.Z.div_eucl with Z.div_eucl.
  destruct (Z.div_eucl m' (Z.pos my)) as [q r]. cbn [fst] in Hq.
  apply binary_round_aux_not_nan. exact Hq.
Qed.

Lemma float64_positive_finite_or_inf (n : Z) :
  0 < n < 2 ^ 63 ->
  isFinite (float64 n) = true
  \/ Prim2SF (float64 n) = SpecFloat.S754_infinity false.
Proof.
  intros Hn. unfold float64, isFinite.
  destruct (Z.ltb_spec n 0); [lia |].
  rewrite FloatAxioms.of_uint63_spec, Uint63.of_Z_spec.
  rewrite Z.mod_small by (change wB with (2 ^ 63); lia).
  destruct n as [| p | p]; [lia | | lia].
  destruct (binary_normalize_positive p) as [(m & e & ->) | ->]; auto.
Qed.

Lemma SFcompare_not_above (a b c : SpecFloat.spec_float) :
  a <> SpecFloat.S754_nan ->
  SpecFloat.SFltb b a = false -> SpecFloat.SFltb b c = true ->
  SpecFloat.SFltb a c = true.
Proof.
  unfold SpecFloat.SFltb, SpecFloat.SFcompare.
  destruct a as [sa | sa | | sa ma ea], b as [sb | sb | | sb mb eb],
    c as [sc | sc | | sc mc ec];
    try destruct sa; try destruct sb; try destruct sc;
    try reflexivity; try discriminate; try contradiction;
    change (Pos.compare_cont Eq) with Pos.compare;
    change IntDef.Z.compare with Z.compare;
    repeat match goal with
           | |- context [Z.compare ?u ?v] => destruct (Z.compare_spec u v)
           | |- context [Pos.compare ?u ?v] => destruct (Pos.compare_spec u v)
           end;
    cbn [CompOpp]; try reflexivity; try discriminate; intros; lia.
Qed.

Lemma clamp_crossed (x lo hi : float) :
  notNaN x -> (hi <? lo)%float = true -> clamp_lower_last x lo hi = lo.
Proof.
  intros Hx Hc. unfold clamp_lower_last, fmax, fmin.
  destruct (hi <? x)%float eqn:E.
  - rewrite Hc. reflexivity.
  - assert (H : (x <? lo)%float = true).
    { rewrite FloatAxioms.ltb_spec in *.
      exact (SFcompare_not_above _ _ _ Hx E Hc). }
    rewrite H. reflexivity.
Qed.

(** C1, as the code has it: for dimensions between 1 and 3000 and any text,
    [calculateOptimalFontSize] is the six steps of the spec with the upper
    bound applied first and the lower bound last, max(min(baseFontSize,
    maxFontSize), minFontSize).  This is the common clamp, in either of its
    two writings, whenever the bounds are in order, which they are from a
    smaller dimension of 30 on; below 30 the lower bound exceeds the upper
    one and the result is the lower bound, 12. *)
Theorem calculateOptimalFontSize_steps (width height : Z) (text : string) :
  1 <= width <= 3000 -> 1 <= height <= 3000 -> len text < 2 ^ 63 ->
  calculateOptimalFontSize width height text
  = computeFontSize_lower_last width height text
  /\ (30 <= Z.min width height ->
      calculateOptimalFontSize width height text
      = computeFontSize width height text
      /\ calculateOptimalFontSize width height text
         = computeFontSize_upper_last width height text)
  /\ (Z.min width height < 30 ->
      calculateOptimalFontSize width height text = 12.0%float).
Proof.
  intros Hw Hh Hl.
  pose proof (RuneCountInString_bounds text) as Hn.
  set (n := utf8.RuneCountInString text) in *.
  set (m := Z.min width height).
  assert (Hm : 1 <= m <= 3000) by (unfold m; lia).
  pose proof (bounds_check_all m Hm) as Hb. unfold bounds_check in Hb.
  cbv zeta in Hb.
  apply andb_prop in Hb. destruct Hb as [Hb Fscale].
  apply andb_prop in Hb. destruct Hb as [Hb _].
  apply andb_prop in Hb. destruct Hb as [Hb Hord].
  apply andb_prop in Hb. destruct Hb as [Bmax Bmin].
  apply FloatAxioms.Leibniz.eqb_spec in Bmax, Bmin.
  pose proof (bounds_check_all width Hw) as Hbw. unfold bounds_check in Hbw.
  cbv zeta in Hbw.
  apply andb_prop in Hbw. destruct Hbw as [Hbw _].
  apply andb_prop in Hbw. destruct Hbw as [_ Fwidth].
  assert (E1 : (if height <? width then float64 height else float64 width)
               = float64 m).
  { unfold m. destruct (Z.ltb_spec height width).
    - rewrite Z.min_r by lia. reflexivity.
    - rewrite Z.min_l by lia. reflexivity. }
  assert (E2 : (if (float64 n =? 0)%float then 1%float else float64 n)
               = float64 (Z.max 1 n)).
  { destruct (Z.eq_dec n 0) as [-> | Hn0]; [reflexivity |].
    rewrite float64_nonzero by lia. rewrite Z.max_r by lia. reflexivity. }
  assert (Hcode : calculateOptimalFontSize width height text
                  = computeFontSize_lower_last width height text).
  { unfold calculateOptimalFontSize, computeFontSize_lower_last,
      computeFontSize_with, clamp_lower_last.
    cbv zeta. fold n. fold m. rewrite E1, E2, Bmax, Bmin. reflexivity. }
  split; [exact Hcode |]. split.
  - intros H30. rewrite Hcode.
    unfold computeFontSize_lower_last, computeFontSize,
      computeFontSize_upper_last, computeFontSize_with.
    cbv zeta.
    destruct (Z.ltb_spec m 30); [unfold m in *; lia |].
    split; [apply clamp_ordered | apply clamp_ordered_min_max]; exact Hord.
  - intros H30. rewrite Hcode.
    unfold computeFontSize_lower_last, computeFontSize_with.
    cbv zeta. fold n. fold m.
    destruct (Z.ltb_spec m 30); [| unfold m in *; lia].
    apply andb_prop in Hord. destruct Hord as [Hlo Hcross].
    apply FloatAxioms.Leibniz.eqb_spec in Hlo.
    rewrite clamp_crossed; [exact Hlo | | exact Hcross].
    apply mul_finite_notNaN; [| exact Fscale].
    apply mul_finite_notNaN; [| reflexivity].
    apply div_finite_notNaN; [exact Fwidth |].
    apply float64_positive_finite_or_inf. lia.
Qed.

(* ================================================================= *)
(** ** Further properties of the sources *)

(** *** parseHexColor *)

Lemma digitVal_hexVal (c : ascii) :
  isHexDigit c = true ->
  strconv.digitVal (byte_val c) = Some (hexVal c) /\ 0 <= hexVal c < 16.
Proof.
  destruct c as [[] [] [] [] [] [] [] []]; intros H; vm_compute in H;
    try discriminate H;
    (split; [vm_compute; reflexivity
            | vm_compute; split; [discriminate | reflexivity]]).
Qed.

Lemma digitVal_not_hex (c : ascii) :
  isHexDigit c = false ->
  match strconv.digitVal (byte_val c) with
  | None => True
  | Some d => 16 <= d
  end.
Proof.
  destruct c as [[] [] [] [] [] [] [] []]; intros H; vm_compute in H;
    try discriminate H; vm_compute; try exact I; discriminate.
Qed.

(** [ParseUint(s, 16, 8)] of two bytes: their value when both are
    hexadecimal digits, a syntax error otherwise. *)
Lemma ParseUint_hex2_cases (c c' : ascii) :
  strconv.ParseUint (String c (String c' "")) 16 8
  = if isHexDigit c && isHexDigit c'
    then (16 * hexVal c + hexVal c', None)
    else (0, Some (strconv.syntaxError strconv.fnParseUint
                     (String c (String c' "")))).
Proof.
  unfold strconv.ParseUint. cbn [String.eqb negb Z.leb Z.compare andb orb].
  cbn [bytes strconv.ParseUint_loop].
  change (strconv.maxUint64 / 16 + 1) with 1152921504606846976.
  change (2 ^ (if 8 =? 0 then strconv.IntSize else 8) - 1) with 255.
  change (if 8 =? 0 then strconv.IntSize else 8) with 8.
  change (negb ((2 <=? 16) && (16 <=? 36))) with false.
  change ((8 <? 0) || (64 <? 8)) with false. cbv iota.
  change (2 ^ 64) with 18446744073709551616.
  change (0 * 16) with 0. rewrite (Z.mod_small 0) by lia.
  change (1152921504606846976 <=? 0) with false. cbv iota.
  destruct (isHexDigit c) eqn:Hc.
  - destruct (digitVal_hexVal c Hc) as [-> Hd].
    destruct (Z.leb_spec 16 (hexVal c)); [lia |].
    rewrite (Z.mod_small (0 + hexVal c)) by lia.
    destruct (Z.ltb_spec (0 + hexVal c) 0); [lia |].
    destruct (Z.ltb_spec 255 (0 + hexVal c)); [lia |].
    cbn [orb andb]. cbv iota.
    destruct (isHexDigit c') eqn:Hc'.
    + destruct (digitVal_hexVal c' Hc') as [-> Hd'].
      destruct (Z.leb_spec 16 (hexVal c')); [lia |].
      destruct (Z.leb_spec 1152921504606846976 (0 + hexVal c)); [lia |].
      rewrite (Z.mod_small (_ * 16)) by lia.
      rewrite (Z.mod_small (_ * 16 + hexVal c')) by lia.
      destruct (Z.ltb_spec ((0 + hexVal c) * 16 + hexVal c')
                  ((0 + hexVal c) * 16)); [lia |].
      destruct (Z.ltb_spec 255 ((0 + hexVal c) * 16 + hexVal c')); [lia |].
      cbn [orb]. cbv iota. f_equal. lia.
    + pose proof (digitVal_not_hex c' Hc') as Hn.
      destruct (strconv.digitVal (byte_val c')) as [d' |]; [| reflexivity].
      destruct (Z.leb_spec 16 d'); [reflexivity | lia].
  - cbn [andb]. pose proof (digitVal_not_hex c Hc) as Hn.
    destruct (strconv.digitVal (byte_val c)) as [d |]; [| reflexivity].
    destruct (Z.leb_spec 16 d); [reflexivity | lia].
Qed.

Lemma hexVal_range (c : ascii) : isHexDigit c = true -> 0 <= hexVal c < 16.
Proof. intros H. apply (digitVal_hexVal c H). Qed.

(** [parseHexColor] on six bytes. *)
Lemma parseHexColor_six (c0 c1 c2 c3 c4 c5 : ascii) :
  let s := String c0 (String c1 (String c2 (String c3 (String c4
             (String c5 ""))))) in
  forallb isHexDigit [c0; c1; c2; c3; c4; c5] = true ->
  parseHexColor s
  = Ok {| R := 16 * hexVal c0 + hexVal c1; G := 16 * hexVal c2 + hexVal c3;
          B := 16 * hexVal c4 + hexVal c5; A := 255 |}.
Proof.
  intros s H. cbn [forallb] in H.
  repeat (apply andb_prop in H; destruct H as [? H]).
  unfold parseHexColor, s.
  change (negb (len _ =? 6)) with false. cbv iota.
  change (slice _ 0 2) with (String c0 (String c1 "")).
  change (slice _ 2 4) with (String c2 (String c3 "")).
  change (slice _ 4 6) with (String c4 (String c5 "")).
  rewrite !ParseUint_hex2_cases.
  repeat match goal with
         | Hc : isHexDigit ?c = true |- _ =>
             rewrite Hc; pose proof (hexVal_range c Hc); clear Hc
         end.
  cbn [andb]. cbv iota.
  rewrite !Z.mod_small by lia. reflexivity.
Qed.

Lemma parseHexColor_six_fails (c0 c1 c2 c3 c4 c5 : ascii) :
  forallb isHexDigit [c0; c1; c2; c3; c4; c5] = false ->
  is_ok (parseHexColor (String c0 (String c1 (String c2 (String c3
           (String c4 (String c5 ""))))))) = false.
Proof.
  intros H. unfold parseHexColor.
  change (negb (len _ =? 6)) with false. cbv iota.
  change (slice _ 0 2) with (String c0 (String c1 "")).
  change (slice _ 2 4) with (String c2 (String c3 "")).
  change (slice _ 4 6) with (String c4 (String c5 "")).
  rewrite !ParseUint_hex2_cases. cbn [forallb] in H.
  destruct (isHexDigit c0), (isHexDigit c1); try reflexivity;
    destruct (isHexDigit c2), (isHexDigit c3); try reflexivity;
    destruct (isHexDigit c4), (isHexDigit c5); try reflexivity;
    discriminate H.
Qed.

Lemma len_eqb_6 (s : string) : (len s =? 6) = (String.length s =? 6)%nat.
Proof.
  unfold len.
  destruct (Z.eqb_spec (Z.of_nat (String.length s)) 6),
    (Nat.eqb_spec (String.length s) 6); try reflexivity; lia.
Qed.

(** X1: [parseHexColor] succeeds on exactly the strings that [colorRegex]
    matches: the renderer and the validator accept the same colors, whatever
    the string. *)
Theorem parseHexColor_accepts_colorRegex (s : string) :
  is_ok (parseHexColor s) = colorRegex_MatchString s.
Proof.
  unfold colorRegex_MatchString.
  destruct (String.length s =? 6)%nat eqn:Hl.
  - apply Nat.eqb_eq in Hl.
    do 6 (destruct s as [| ? s]; [discriminate Hl |]).
    destruct s; [| discriminate Hl].
    cbn [andb forallb_string].
    match goal with
    | |- _ = ?b =>
        destruct b eqn:Hb
    end.
    + rewrite parseHexColor_six; [reflexivity |].
      cbn [forallb]. rewrite andb_true_r in Hb. rewrite andb_true_r.
      exact Hb.
    + apply parseHexColor_six_fails.
      cbn [forallb]. rewrite andb_true_r in Hb. rewrite andb_true_r.
      exact Hb.
  - cbn [andb]. unfold parseHexColor. rewrite len_eqb_6, Hl. reflexivity.
Qed.

(** X2: the color of six hexadecimal digits: each channel is the number its
    two digits denote, letters in either case, which lies between 0 and 255,
    and the color is opaque. *)
Theorem parseHexColor_channels (c0 c1 c2 c3 c4 c5 : ascii) :
  forallb isHexDigit [c0; c1; c2; c3; c4; c5] = true ->
  parseHexColor
    (String c0 (String c1 (String c2 (String c3 (String c4 (String c5 ""))))))
  = Ok {| R := 16 * hexVal c0 + hexVal c1; G := 16 * hexVal c2 + hexVal c3;
          B := 16 * hexVal c4 + hexVal c5; A := 255 |}
  /\ 0 <= 16 * hexVal c0 + hexVal c1 <= 255
  /\ 0 <= 16 * hexVal c2 + hexVal c3 <= 255
  /\ 0 <= 16 * hexVal c4 + hexVal c5 <= 255.
Proof.
  intros H. split; [apply parseHexColor_six; exact H |].
  cbn [forallb] in H.
  repeat (apply andb_prop in H; destruct H as [? H]).
  repeat match goal with
         | Hc : isHexDigit ?c = true |- _ =>
             pose proof (hexVal_range c Hc); clear Hc
         end.
  lia.
Qed.

Lemma lowerASCII_hex (c : ascii) :
  isHexDigit c = true ->
  isHexDigit (lowerASCII c) = true /\ hexVal (lowerASCII c) = hexVal c.
Proof.
  destruct c as [[] [] [] [] [] [] [] []]; intros Hc;
    vm_compute in Hc; try discriminate Hc; vm_compute; split; reflexivity.
Qed.

Lemma parseHexColor_lower (s : string) :
  isHex6 s -> parseHexColor (map_string lowerASCII s) = parseHexColor s.
Proof.
  intros H. destruct (isHex6_inv s H)
    as (c0 & c1 & c2 & c3 & c4 & c5 & -> & H0 & H1 & H2 & H3 & H4 & H5).
  cbn [map_string].
  destruct (lowerASCII_hex c0 H0) as [L0 V0].
  destruct (lowerASCII_hex c1 H1) as [L1 V1].
  destruct (lowerASCII_hex c2 H2) as [L2 V2].
  destruct (lowerASCII_hex c3 H3) as [L3 V3].
  destruct (lowerASCII_hex c4 H4) as [L4 V4].
  destruct (lowerASCII_hex c5 H5) as [L5 V5].
  rewrite !parseHexColor_six
    by (cbn [forallb]; rewrite ?L0, ?L1, ?L2, ?L3, ?L4, ?L5, ?H0, ?H1, ?H2,
          ?H3, ?H4, ?H5; reflexivity).
  rewrite V0, V1, V2, V3, V4, V5. reflexivity.
Qed.

(** X3: the case of the letters of a color does not show in the picture:
    a request and the same request with its colors in lower case are drawn
    as the same image. *)
Theorem createImage_color_case (ig : ImageGenerator) (g : FontGlobals)
    (req : ImageRequest) :
  isHex6 (BgColor req) -> isHex6 (FgColor req) ->
  snd (createImage ig g (lowerColors req)) = snd (createImage ig g req)
  /\ is_ok (snd (createImage ig g req)) = true.
Proof.
  intros Hb Hf.
  destruct (parseHexColor_hex6 _ Hb) as (bg & Hbg & _).
  destruct (parseHexColor_hex6 _ Hf) as (fg & Hfg & _).
  assert (Hbg' : parseHexColor (BgColor (lowerColors req)) = Ok bg)
    by (cbn [lowerColors BgColor]; rewrite parseHexColor_lower; assumption).
  assert (Hfg' : parseHexColor (FgColor (lowerColors req)) = Ok fg)
    by (cbn [lowerColors FgColor]; rewrite parseHexColor_lower; assumption).
  rewrite (createImage_colors_ok _ _ _ _ _ Hbg Hfg).
  rewrite (createImage_colors_ok _ _ _ _ _ Hbg' Hfg').
  change (requestFontSize (lowerColors req)) with (requestFontSize req).
  destruct (GetFont (fontPool ig) g (requestFontSize req)) as [[fp g'] face].
  split; reflexivity.
Qed.

(** *** NewImageRequest *)

(** [ParseSize] on digits x digits within the bounds. *)
Lemma ParseSize_in_range (s g1 g2 : string) :
  matchesSize s g1 g2 ->
  1 <= decimalValue g1 <= 3000 -> 1 <= decimalValue g2 <= 3000 ->
  ParseSize s = Ok {| ImageSize.Width := decimalValue g1;
                      ImageSize.Height := decimalValue g2 |}.
Proof.
  intros M H1 H2. rewrite (ParseSize_match s g1 g2 M).
  destruct (Z.ltb_spec (decimalValue g1) (2 ^ 63)); [| lia].
  destruct (Z.ltb_spec (decimalValue g2) (2 ^ 63)); [| lia].
  destruct (Z.leb_spec (decimalValue g1) 0); [lia |].
  destruct (Z.leb_spec (decimalValue g2) 0); [lia |].
  destruct (Z.ltb_spec 3000 (decimalValue g1)); [lia |].
  destruct (Z.ltb_spec 3000 (decimalValue g2)); [lia |].
  reflexivity.
Qed.

(** X4: a size alone is a whole request: with no type, no colors and no
    text, [NewImageRequest] succeeds on every digits x digits between 1 and
    3000 and fills in png, cccccc, 666666 and, as the text, the dimensions
    printed without leading zeros. *)
Theorem NewImageRequest_size_only (s g1 g2 size : string) :
  matchesSize s g1 g2 ->
  1 <= decimalValue g1 <= 3000 -> 1 <= decimalValue g2 <= 3000 ->
  NewImageRequest s ""
    {| RequestQueryParams.Size := size; RequestQueryParams.Bg := "";
       RequestQueryParams.Fg := ""; RequestQueryParams.Text := "" |}
  = Ok {| Width := decimalValue g1; Height := decimalValue g2;
          Type_ := "png"; BgColor := "cccccc"; FgColor := "666666";
          Text := fmt.d (decimalValue g1) ++ "x" ++ fmt.d (decimalValue g2) |}.
Proof.
  intros M H1 H2. unfold NewImageRequest.
  rewrite (ParseSize_in_range s g1 g2 M H1 H2). reflexivity.
Qed.

(** [NewImageRequest] reads the size through [ParseSize] only. *)
Lemma NewImageRequest_ParseSize (s s' imageType : string)
    (p : RequestQueryParams.t) :
  ParseSize s = ParseSize s' ->
  NewImageRequest s imageType p = NewImageRequest s' imageType p.
Proof. intros H. unfold NewImageRequest. rewrite H. reflexivity. Qed.

(** X5: leading zeros do not count: two sizes whose widths and heights
    denote the same numbers give the same outcome, the same request or the
    same error, for the same type and parameters. *)
Theorem NewImageRequest_leading_zeros (s s' g1 g2 g1' g2' imageType : string)
    (p : RequestQueryParams.t) :
  matchesSize s g1 g2 -> matchesSize s' g1' g2' ->
  decimalValue g1 = decimalValue g1' -> decimalValue g2 = decimalValue g2' ->
  NewImageRequest s imageType p = NewImageRequest s' imageType p.
Proof.
  intros M M' E1 E2. apply NewImageRequest_ParseSize.
  rewrite (ParseSize_match s g1 g2 M), (ParseSize_match s' g1' g2' M').
  rewrite E1, E2. reflexivity.
Qed.

Lemma decimal_check_all (n : Z) : 1 <= n <= 3000 -> decimal_check n = true.
Proof.
  intros Hn.
  assert (H : forallb (fun k => decimal_check (Z.of_nat k)) (seq 1 3000) = true)
    by (vm_compute; reflexivity).
  rewrite forallb_forall in H.
  rewrite <- (Z2Nat.id n) by lia. apply H. apply in_seq. lia.
Qed.

(** [%dx%d] of two dimensions is a size that [ParseSize] reads back. *)
Lemma ParseSize_fmt (w h : Z) :
  1 <= w <= 3000 -> 1 <= h <= 3000 ->
  ParseSize (fmt.d w ++ "x" ++ fmt.d h)
  = Ok {| ImageSize.Width := w; ImageSize.Height := h |}.
Proof.
  intros Hw Hh.
  pose proof (decimal_check_all w Hw) as Cw.
  pose proof (decimal_check_all h Hh) as Ch.
  unfold decimal_check in Cw, Ch.
  apply andb_prop in Cw. destruct Cw as [Cw Vw].
  apply andb_prop in Cw. destruct Cw as [Dw Nw].
  apply andb_prop in Ch. destruct Ch as [Ch Vh].
  apply andb_prop in Ch. destruct Ch as [Dh Nh].
  apply Z.eqb_eq in Vw, Vh.
  assert (M : matchesSize (fmt.d w ++ "x" ++ fmt.d h) (fmt.d w) (fmt.d h)).
  { split; [reflexivity |]. split.
    - intros E. rewrite E in Nw. discriminate Nw.
    - split; [| split; assumption].
      intros E. rewrite E in Nh. discriminate Nh. }
  rewrite (ParseSize_match _ _ _ M), Vw, Vh.
  destruct (Z.ltb_spec w (2 ^ 63)); [| lia].
  destruct (Z.ltb_spec h (2 ^ 63)); [| lia].
  destruct (Z.leb_spec w 0); [lia |].
  destruct (Z.leb_spec h 0); [lia |].
  destruct (Z.ltb_spec 3000 w); [lia |].
  destruct (Z.ltb_spec 3000 h); [lia |].
  reflexivity.
Qed.

(** X6: the default text is the size in its canonical writing: when no text
    is given, the text of the request is [%dx%d] of its dimensions, a size
    that [ParseSize] reads as the size asked for, and asking for that size
    gives the very same request. *)
Theorem default_text_is_canonical_size (sizeStr imageType : string)
    (p : RequestQueryParams.t) (req : ImageRequest) :
  NewImageRequest sizeStr imageType p = Ok req ->
  RequestQueryParams.Text p = "" ->
  Text req = (fmt.d (Width req) ++ "x" ++ fmt.d (Height req))%string
  /\ ParseSize (Text req) = ParseSize sizeStr
  /\ NewImageRequest (Text req) imageType p = Ok req.
Proof.
  intros H Ht.
  assert (W : wellFormed req)
    by (apply validated_wellFormed; exists sizeStr, imageType, p; exact H).
  destruct W as (Hw & Hh & _).
  destruct (NewImageRequest_ok _ _ _ _ H) as (Hs & _ & _ & _ & Htext).
  rewrite Ht in Htext. change (applyDefault "" ?d) with d in Htext.
  assert (E : ParseSize (Text req) = ParseSize sizeStr).
  { rewrite Htext, Hs. apply ParseSize_fmt; assumption. }
  split; [exact Htext |]. split; [exact E |].
  rewrite (NewImageRequest_ParseSize _ _ _ _ E). exact H.
Qed.

Lemma validTypes_In (t : string) :
  validTypes t = true -> In t ["png"; "gif"; "jpg"; "jpeg"; "webp"].
Proof.
  unfold validTypes. rewrite existsb_exists.
  intros (u & Hu & E). apply String.eqb_eq in E. subst u. exact Hu.
Qed.

(** X7: the type of a request that [NewImageRequest] built is one of the
    five names in lower case, so the switch of [encodeImage] never reaches
    its unsupported-type branch and that of [getContentType] never its
    default: the image is encoded by the encoder of the type and announced
    with the MIME type of that format, jpg and jpeg sharing both. *)
Theorem validated_type_encoder_and_MIME (sizeStr imageType : string)
    (p : RequestQueryParams.t) (req : ImageRequest) :
  NewImageRequest sizeStr imageType p = Ok req ->
  (Type_ req = "png" /\ getContentType (Type_ req) = "image/png"
   /\ forall img, encodeImage img (Type_ req) = png_Encode img)
  \/ ((Type_ req = "jpg" \/ Type_ req = "jpeg")
      /\ getContentType (Type_ req) = "image/jpeg"
      /\ forall img, encodeImage img (Type_ req)
                     = jpeg_Encode img {| jpeg.Quality := 90 |})
  \/ (Type_ req = "gif" /\ getContentType (Type_ req) = "image/gif"
      /\ forall img, encodeImage img (Type_ req) = gif_Encode img None)
  \/ (Type_ req = "webp" /\ getContentType (Type_ req) = "image/webp"
      /\ forall img, encodeImage img (Type_ req)
                     = webp_Encode img
                         {| webp.Lossless := false; webp.Quality := 90;
                            webp.Exact := false |}).
Proof.
  intros H. destruct (NewImageRequest_ok _ _ _ _ H) as (_ & Ht & _).
  apply validTypes_In in Ht. cbn [In] in Ht.
  destruct Ht as [E | [E | [E | [E | [E | []]]]]]; rewrite <- E.
  - left. repeat split.
  - right; right; left. repeat split.
  - right; left. split; [left; reflexivity |]. repeat split.
  - right; left. split; [right; reflexivity |]. repeat split.
  - right; right; right. repeat split.
Qed.

Lemma lowerASCII_ascii (c : ascii) :
  (byte_val c <? utf8.RuneSelf) = true ->
  (byte_val (lowerASCII c) <? utf8.RuneSelf) = true
  /\ lowerASCII (lowerASCII c) = lowerASCII c.
Proof.
  destruct c as [[] [] [] [] [] [] [] []]; intros H; vm_compute in H;
    try discriminate H; vm_compute; split; reflexivity.
Qed.

Lemma map_lowerASCII_ascii (s : string) :
  isASCII s = true ->
  isASCII (map_string lowerASCII s) = true
  /\ map_string lowerASCII (map_string lowerASCII s) = map_string lowerASCII s.
Proof.
  unfold isASCII. induction s as [| c s IH]; [split; reflexivity |].
  cbn [forallb_string map_string]. intros H.
  apply andb_prop in H. destruct H as [Hc Hs].
  destruct (lowerASCII_ascii c Hc) as [Hc1 Hc2].
  destruct (IH Hs) as [IH1 IH2].
  rewrite Hc1, IH1, Hc2, IH2. split; reflexivity.
Qed.

Lemma strings_ToLower_ascii (s : string) :
  isASCII s = true ->
  strings_ToLower s = map_string lowerASCII s
  /\ strings_ToLower (map_string lowerASCII s) = map_string lowerASCII s.
Proof.
  intros H. destruct (map_lowerASCII_ascii s H) as [H1 H2].
  unfold strings_ToLower. rewrite H, H1, H2. split; reflexivity.
Qed.

(** X8: the type is read without regard to the case of ASCII letters: a
    request built for a type written in ASCII is built just the same for
    that type in lower case, which is the type the request carries. *)
Theorem NewImageRequest_type_case (sizeStr imageType : string)
    (p : RequestQueryParams.t) (req : ImageRequest) :
  isASCII imageType = true ->
  NewImageRequest sizeStr imageType p = Ok req ->
  NewImageRequest sizeStr (map_string lowerASCII imageType) p = Ok req
  /\ (imageType <> "" -> Type_ req = map_string lowerASCII imageType).
Proof.
  intros Ha. destruct (strings_ToLower_ascii imageType Ha) as [L1 L2].
  unfold NewImageRequest, ValidateType.
  destruct (ParseSize sizeStr) as [size | e]; [| discriminate].
  destruct imageType as [| c t].
  - cbn [map_string String.eqb]. intros H. split; [exact H |].
    intros N. exfalso. apply N. reflexivity.
  - cbn [map_string String.eqb] in *. rewrite L1, L2.
    destruct (validTypes _); [| discriminate]. cbn [negb].
    destruct (ValidateColor (applyDefault _ DefaultBg)); [| discriminate].
    destruct (ValidateColor (applyDefault _ DefaultFg)); [| discriminate].
    cbn [negb]. intros [= <-]. split; reflexivity.
Qed.

(** *** The font pool and the package variables *)

(** The package variables after [parseEmbeddedFont]: the outcome of the
    parse, the one they held already if any. *)
Lemma parseEmbeddedFont_globals (g : FontGlobals) (fontSize dpi : float) :
  fst (parseEmbeddedFont g fontSize dpi)
  = {| fontOnce := Some match fontOnce g with
                        | Some r => r
                        | None => opentype_Parse embeddedFont
                        end |}.
Proof.
  unfold parseEmbeddedFont.
  destruct (match fontOnce g with Some r => r | None => _ end) as [f | e];
    [destruct (opentype_NewFace _ _) |]; reflexivity.
Qed.

Lemma parseEmbeddedFont_parsed (g : FontGlobals) (r : result Font)
    (fontSize dpi : float) :
  fontOnce g = Some r -> fst (parseEmbeddedFont g fontSize dpi) = g.
Proof.
  intros H. rewrite parseEmbeddedFont_globals, H.
  destruct g as [o]. cbn [fontOnce] in H. rewrite H. reflexivity.
Qed.

(** A second call finds what the first one left and returns the same. *)
Lemma parseEmbeddedFont_again (g : FontGlobals) (fontSize dpi : float) :
  parseEmbeddedFont (fst (parseEmbeddedFont g fontSize dpi)) fontSize dpi
  = parseEmbeddedFont g fontSize dpi.
Proof.
  rewrite parseEmbeddedFont_globals. unfold parseEmbeddedFont.
  cbn [fontOnce]. reflexivity.
Qed.

Lemma GetFont_cases (fp : FontPool) (g : FontGlobals) (fontSize : float) :
  exists r,
    GetFont fp g fontSize = (fp, fst (parseEmbeddedFont g fontSize 72), r)
    /\ forall face, r = Some face ->
         face_opts face
         = {| FaceOptions.Size := fontSize; FaceOptions.DPI := 72 |}.
Proof.
  unfold GetFont.
  destruct (parseEmbeddedFont g fontSize 72) as [g' [face | e]] eqn:E.
  - exists (Some face). split; [reflexivity |].
    intros f [= <-]. exact (proj1 (parseEmbeddedFont_face _ _ _ _ _ E)).
  - exists None. split; [reflexivity | discriminate].
Qed.

(** What [NewFontPool]'s loop leaves: as many copies of the 24-point face as
    it ran rounds, or nothing more. *)
Lemma NewFontPool_loop_exact (n : nat) :
  forall g pool,
    fst (NewFontPool_loop n g pool)
    = match n with O => g | S _ => fst (parseEmbeddedFont g 24.0 72) end
    /\ fonts_cap (snd (NewFontPool_loop n g pool)) = fonts_cap pool
    /\ fonts (snd (NewFontPool_loop n g pool))
       = match snd (parseEmbeddedFont g 24.0 72) with
         | Ok face => (fonts pool ++ repeat face n)%list
         | Err _ => fonts pool
         end.
Proof.
  induction n as [| n IH]; intros g pool.
  - cbn [NewFontPool_loop fst snd repeat].
    destruct (snd _); rewrite ?app_nil_r; auto.
  - cbn [NewFontPool_loop].
    pose proof (parseEmbeddedFont_again g 24.0 72) as Ha.
    pose proof (parseEmbeddedFont_globals g 24.0 72) as Hg.
    destruct (parseEmbeddedFont g 24.0 72) as [g1 [face | e]] eqn:E;
      cbn [fst snd] in *.
    + destruct (IH g1 {| fonts := (fonts pool ++ [face])%list;
                         fonts_cap := fonts_cap pool |}) as (I1 & I2 & I3).
      rewrite Ha in I1, I3. cbn [fst snd fonts fonts_cap] in I1, I3, I2.
      split; [| split].
      * rewrite I1. destruct n; reflexivity.
      * exact I2.
      * rewrite I3, <- app_assoc. reflexivity.
    + destruct (IH g1 pool) as (I1 & I2 & I3).
      rewrite Ha in I1, I3. cbn [fst snd] in I1, I3.
      split; [| split].
      * rewrite I1. destruct n; reflexivity.
      * exact I2.
      * exact I3.
Qed.

(** X9: the pool a new generator starts with is either full or empty: its
    capacity is 32 and it holds 32 faces of the embedded font at 24 points
    and 72 dpi when the font parses and such a face can be built, none
    otherwise; the font has been parsed by then, once. *)
Theorem NewImageGenerator_pool (g : FontGlobals) :
  let pool := fontPool (snd (NewImageGenerator g)) in
  fonts_cap pool = 32%nat
  /\ poolBounded pool
  /\ (fonts pool = [] <-> is_ok (snd (parseEmbeddedFont g 24.0 72)) = false)
  /\ (fonts pool = []
      \/ exists font,
           fontOnce (fst (NewImageGenerator g)) = Some (Ok font)
           /\ fonts pool
              = repeat {| face_font := font;
                          face_opts := {| FaceOptions.Size := 24.0;
                                          FaceOptions.DPI := 72 |} |} 32)
  /\ fst (NewImageGenerator g) = fst (parseEmbeddedFont g 24.0 72)
  /\ fontOnce (fst (NewImageGenerator g)) <> None.
Proof.
  unfold NewImageGenerator, NewFontPool, poolBounded.
  change (Z.to_nat FONT_POOL_SIZE) with 32%nat.
  destruct (NewFontPool_loop_exact 32 g {| fonts := []; fonts_cap := 32 |})
    as (I1 & I2 & I3).
  destruct (NewFontPool_loop 32 g _) as [g1 pool].
  cbn [fst snd fontPool fonts fonts_cap app] in *. cbv zeta.
  pose proof (parseEmbeddedFont_globals g 24.0 72) as Hg.
  destruct (parseEmbeddedFont g 24.0 72) as [g' [face | e]] eqn:E;
    cbn [fst snd is_ok] in *; subst g1.
  - destruct (parseEmbeddedFont_face _ _ _ _ _ E) as [Ho Hf].
    split; [exact I2 |]. rewrite I3, I2.
    split; [rewrite repeat_length; apply Nat.le_refl |].
    split; [split; discriminate |].
    split.
    + right. exists (face_font face). split; [exact Hf |].
      destruct face as [ff fo]. cbn [face_font face_opts] in *.
      rewrite Ho. reflexivity.
    + split; [reflexivity |]. rewrite Hf. discriminate.
  - split; [exact I2 |]. rewrite I3, I2.
    split; [apply Nat.le_0_l |].
    split; [split; reflexivity |].
    split; [left; reflexivity |].
    split; [reflexivity |]. rewrite Hg. discriminate.
Qed.

(** What [createImage] leaves of the generator and of the package
    variables. *)
Lemma createImage_state (ig : ImageGenerator) (g : FontGlobals)
    (req : ImageRequest) :
  let st := fst (createImage ig g req) in
  (fontPool (st_ig st) = fontPool ig
   \/ exists face,
        fontPool (st_ig st) = PutFont (fontPool ig) face
        /\ face_opts face
           = {| FaceOptions.Size := requestFontSize req;
                FaceOptions.DPI := 72 |})
  /\ (st_globals st = g
      \/ st_globals st = fst (parseEmbeddedFont g (requestFontSize req) 72))
  /\ Type_ (st_req st) = Type_ req.
Proof.
  destruct (parseHexColor (BgColor req)) as [bg | e1] eqn:Hbg;
    [destruct (parseHexColor (FgColor req)) as [fg | e2] eqn:Hfg |].
  - rewrite (createImage_colors_ok _ _ _ _ _ Hbg Hfg).
    destruct (GetFont_cases (fontPool ig) g (requestFontSize req))
      as (r & -> & Hr).
    cbn [fst st_ig st_globals st_req set_fontPool fontPool set_Text Type_].
    split; [| split; [right; reflexivity | reflexivity]].
    destruct r as [face |]; [| left; reflexivity].
    right. exists face. split; [reflexivity | apply Hr; reflexivity].
  - unfold createImage. rewrite Hbg, Hfg. cbn. auto.
  - unfold createImage. rewrite Hbg. cbn. auto.
Qed.

(** What [GenerateImage] leaves, in terms of what [createImage] does. *)
Lemma GenerateImage_state (ig : ImageGenerator) (g : FontGlobals)
    (tGet tSet : Z) (req : ImageRequest) :
  let st := fst (GenerateImage ig g tGet tSet req) in
  (fontPool (st_ig st) = fontPool ig /\ st_globals st = g)
  \/ exists c,
       fontPool (st_ig st)
       = fontPool (st_ig (fst (createImage (set_memoryCache ig c) g req)))
       /\ st_globals st
          = st_globals (fst (createImage (set_memoryCache ig c) g req)).
Proof.
  unfold GenerateImage.
  destruct (cache.get _ _ _) as [c [data |]]; [left; split; reflexivity |].
  right. exists c.
  destruct (createImage _ g req) as [st [img | err]];
    [| split; reflexivity].
  destruct (encodeImage _ _) as [data [e |]]; split; reflexivity.
Qed.

(** X10: the pool only ever grows, and never beyond its capacity:
    [GenerateImage] leaves the capacity alone and the pool either as it was
    or with one more face at its end, the one built for the request at the
    size computed for it; a pool within its capacity stays so, and a full
    pool is left exactly as it was, the face built for the request being
    dropped. *)
Theorem GenerateImage_pool (ig : ImageGenerator) (g : FontGlobals)
    (tGet tSet : Z) (req : ImageRequest) :
  let fp := fontPool ig in
  let fp' := fontPool (st_ig (fst (GenerateImage ig g tGet tSet req))) in
  fonts_cap fp' = fonts_cap fp
  /\ (fp' = fp
      \/ exists face,
           fonts fp' = (fonts fp ++ [face])%list
           /\ (List.length (fonts fp) < fonts_cap fp)%nat
           /\ face_opts face
              = {| FaceOptions.Size := requestFontSize req;
                   FaceOptions.DPI := 72 |})
  /\ (poolBounded fp -> poolBounded fp')
  /\ ((fonts_cap fp <= List.length (fonts fp))%nat -> fp' = fp).
Proof.
  cbv zeta.
  assert (P : forall face,
             let fp' := PutFont (fontPool ig) face in
             fonts_cap fp' = fonts_cap (fontPool ig)
             /\ (fp' = fontPool ig
                 \/ (fonts fp' = (fonts (fontPool ig) ++ [face])%list
                     /\ (List.length (fonts (fontPool ig))
                         < fonts_cap (fontPool ig))%nat))).
  { intros face. unfold PutFont.
    destruct (Nat.ltb_spec (List.length (fonts (fontPool ig)))
                (fonts_cap (fontPool ig))); cbn [fonts fonts_cap]; auto. }
  assert (K : fontPool (st_ig (fst (GenerateImage ig g tGet tSet req)))
              = fontPool ig
              \/ exists face,
                   fontPool (st_ig (fst (GenerateImage ig g tGet tSet req)))
                   = PutFont (fontPool ig) face
                   /\ face_opts face
                      = {| FaceOptions.Size := requestFontSize req;
                           FaceOptions.DPI := 72 |}).
  { destruct (GenerateImage_state ig g tGet tSet req)
      as [[H _] | (c & H & _)]; [left; exact H |].
    rewrite H.
    exact (proj1 (createImage_state (set_memoryCache ig c) g req)). }
  unfold poolBounded.
  destruct K as [-> | (face & -> & Hf)].
  - split; [reflexivity |]. split; [left; reflexivity |]. split; auto.
  - destruct (P face) as (Hc & Hd). cbv zeta in Hc, Hd.
    split; [exact Hc |]. split; [| split].
    + destruct Hd as [Hd | [Hd Hl]]; [left; exact Hd |].
      right. exists face. auto.
    + intros Hb. rewrite Hc.
      destruct Hd as [-> | [-> Hl]]; [exact Hb |].
      rewrite length_app. cbn [List.length]. lia.
    + intros Hfull. destruct Hd as [Hd | [_ Hl]]; [exact Hd | lia].
Qed.

(** X11: the font is parsed once.  [GenerateImage] leaves the package
    variables as they were or, when they held no outcome yet, holding that
    of [opentype.Parse]; once they hold an outcome no operation changes
    them, and an outcome that is an error is final: [GetFont] returns nil
    ever after. *)
Theorem font_parsed_once (g : FontGlobals) :
  (forall ig tGet tSet req,
     let g' := st_globals (fst (GenerateImage ig g tGet tSet req)) in
     g' = g
     \/ (fontOnce g = None
         /\ fontOnce g' = Some (opentype_Parse embeddedFont)))
  /\ (forall r, fontOnce g = Some r ->
        (forall fontSize dpi, fst (parseEmbeddedFont g fontSize dpi) = g)
        /\ (forall fp fontSize, snd (fst (GetFont fp g fontSize)) = g)
        /\ (forall ig tGet tSet req,
              st_globals (fst (GenerateImage ig g tGet tSet req)) = g))
  /\ (forall e, fontOnce g = Some (Err e) ->
        forall fp fontSize, GetFont fp g fontSize = (fp, g, None)).
Proof.
  assert (G : forall ig tGet tSet req,
             st_globals (fst (GenerateImage ig g tGet tSet req)) = g
             \/ st_globals (fst (GenerateImage ig g tGet tSet req))
                = fst (parseEmbeddedFont g (requestFontSize req) 72)).
  { intros ig tGet tSet req.
    destruct (GenerateImage_state ig g tGet tSet req)
      as [[_ H] | (c & _ & H)]; [left; exact H |].
    rewrite H.
    exact (proj1 (proj2 (createImage_state (set_memoryCache ig c) g req))). }
  split; [| split].
  - intros ig tGet tSet req. cbv zeta.
    destruct (G ig tGet tSet req) as [H | H]; [left; exact H |].
    rewrite H. destruct (fontOnce g) as [r |] eqn:E.
    + left. exact (parseEmbeddedFont_parsed g r _ _ E).
    + right. rewrite parseEmbeddedFont_globals, E. split; reflexivity.
  - intros r Hr. split; [| split].
    + intros fontSize dpi. exact (parseEmbeddedFont_parsed g r _ _ Hr).
    + intros fp fontSize.
      destruct (GetFont_cases fp g fontSize) as (o & -> & _). cbn [fst snd].
      exact (parseEmbeddedFont_parsed g r _ _ Hr).
    + intros ig tGet tSet req.
      destruct (G ig tGet tSet req) as [H | H]; [exact H |].
      rewrite H. exact (parseEmbeddedFont_parsed g r _ _ Hr).
  - intros e He fp fontSize. unfold GetFont, parseEmbeddedFont.
    rewrite He. destruct g as [o]. cbn [fontOnce] in He. rewrite He.
    reflexivity.
Qed.

(** *** Errors and the cache of GenerateImage *)

(** On a request with colors of six hexadecimal digits and a supported
    type, [GenerateImage] can only fail in an encoder. *)
Lemma GenerateImage_error_cases (ig : ImageGenerator) (g : FontGlobals)
    (tGet tSet : Z) (req : ImageRequest) (st : State) (e : error) :
  isHex6 (BgColor req) -> isHex6 (FgColor req) ->
  validTypes (Type_ req) = true ->
  GenerateImage ig g tGet tSet req = (st, Err e) -> encoderError e.
Proof.
  intros Hb Hf Ht. unfold GenerateImage.
  destruct (cache.get _ _ _) as [c [data |]]; [discriminate |].
  destruct (parseHexColor_hex6 _ Hb) as (bg & Hbg & _).
  destruct (parseHexColor_hex6 _ Hf) as (fg & Hfg & _).
  rewrite (createImage_colors_ok _ _ _ _ _ Hbg Hfg).
  destruct (GetFont _ _ _) as [[fp g'] face].
  cbn [st_req set_Text Type_].
  match goal with
  | |- context [encodeImage ?i _] => set (img := i)
  end.
  apply validTypes_In in Ht. cbn [In] in Ht.
  unfold encoderError.
  destruct Ht as [E | [E | [E | [E | [E | []]]]]]; rewrite <- E;
    unfold encodeImage; cbn [String.eqb Ascii.eqb Bool.eqb orb];
    match goal with
    | |- context [let '(_, _) := ?enc in _] =>
        destruct enc as [data [err |]] eqn:En; [| discriminate]
    end;
    intros [= _ <-]; exists img; rewrite En; cbn [snd]; auto.
Qed.

(** X12: once a request is validated, rendering cannot fail: the only
    errors [GenerateImage] returns for a request that [NewImageRequest]
    built are errors of the encoder of its type; so where no encoder fails,
    [GenerateImage] succeeds. *)
Theorem GenerateImage_fails_only_in_encoder (sizeStr imageType : string)
    (p : RequestQueryParams.t) (req : ImageRequest) (ig : ImageGenerator)
    (g : FontGlobals) (tGet tSet : Z) :
  NewImageRequest sizeStr imageType p = Ok req ->
  (forall st e, GenerateImage ig g tGet tSet req = (st, Err e) ->
                encoderError e)
  /\ (encoders_total ->
      is_ok (snd (GenerateImage ig g tGet tSet req)) = true).
Proof.
  intros H. destruct (NewImageRequest_ok _ _ _ _ H) as (_ & Ht & Hb & Hf & _).
  split.
  - intros st e. apply GenerateImage_error_cases; assumption.
  - intros (T1 & T2 & T3 & T4).
    destruct (GenerateImage ig g tGet tSet req) as [st [data | e]] eqn:E;
      [reflexivity |].
    destruct (GenerateImage_error_cases _ _ _ _ _ _ _ Hb Hf Ht E)
      as (img & [N | [N | [N | N]]]).
    + rewrite T1 in N. discriminate N.
    + rewrite T2 in N. discriminate N.
    + rewrite T3 in N. discriminate N.
    + rewrite T4 in N. discriminate N.
Qed.

Lemma find_map_touch (k : string) (now : Z) (l : list cache.CacheEntry) :
  find (fun e => String.eqb (cache.key e) k) (map (cache.touch k now) l)
  = option_map (cache.touch k now)
      (find (fun e => String.eqb (cache.key e) k) l).
Proof.
  induction l as [| a l IH]; [reflexivity |].
  cbn [map find]. unfold cache.touch at 1.
  destruct (String.eqb (cache.key a) k) eqn:E.
  - cbn [cache.key]. rewrite E. cbn [option_map]. unfold cache.touch.
    rewrite E. reflexivity.
  - rewrite E. exact IH.
Qed.

(** A hit is a hit again, as long as the entry has not aged out since. *)
Lemma cache_get_again (c c' : cache.LruCache) (k : string) (v : list Z)
    (t t' : Z) :
  cache.updateAgeOnGet c = true -> t' - t <= cache.age c ->
  cache.get c k t = (c', Some v) ->
  exists c'', cache.get c' k t' = (c'', Some v)
              /\ cache.updateAgeOnGet c' = true /\ cache.age c' = cache.age c.
Proof.
  intros Hu Ha. unfold cache.get at 1.
  destruct (find _ (cache.entries c)) as [e |] eqn:F; [| discriminate].
  destruct (cache.expired c t e); [discriminate |].
  intros [= <- <-]. unfold cache.get.
  cbn [cache.with_entries cache.entries].
  rewrite find_map_touch, F. cbn [option_map].
  apply find_some in F. destruct F as [_ Fk].
  assert (Et : cache.touch k t e
               = {| cache.key := cache.key e;
                    cache.encodedBytes := cache.encodedBytes e;
                    cache.insertedAt := cache.insertedAt e;
                    cache.lastAccessedAt := t |})
    by (unfold cache.touch; rewrite Fk; reflexivity).
  rewrite Et. unfold cache.expired.
  cbn [cache.with_entries cache.age cache.updateAgeOnGet cache.lastAccessedAt
       cache.insertedAt cache.encodedBytes].
  rewrite Hu. destruct (Z.ltb_spec (cache.age c) (t' - t)); [lia |].
  eexists. split; [reflexivity |]. split; reflexivity.
Qed.

(** What was stored is found, as long as it has not aged out. *)
Lemma cache_put_get_later (c : cache.LruCache) (k : string) (v : list Z)
    (t t' : Z) :
  t' - t <= cache.age c ->
  exists c', cache.get (cache.put c k v t) k t' = (c', Some v).
Proof.
  intros Hage. unfold cache.get, cache.put.
  set (es0 := filter (fun e => negb (String.eqb (cache.key e) k))
                (cache.entries c)).
  set (es := if (cache.size c <=? List.length es0)%nat
             then cache.evict es0 else es0).
  assert (Hes : forall e, In e es -> String.eqb (cache.key e) k = false).
  { assert (H0 : forall e, In e es0 -> String.eqb (cache.key e) k = false).
    { intros e He. apply filter_In in He. destruct He as [_ He].
      apply negb_true_iff in He. exact He. }
    unfold es, cache.evict.
    destruct (cache.size c <=? List.length es0)%nat; [| exact H0].
    destruct (cache.oldest es0); [| exact H0].
    intros e He. apply filter_In in He. apply H0. exact (proj1 He). }
  cbn [cache.with_entries cache.entries].
  rewrite (find_app_skip _ es _ Hes). cbn [find cache.key].
  rewrite String.eqb_refl. unfold cache.expired.
  cbn [cache.with_entries cache.age cache.updateAgeOnGet cache.lastAccessedAt
       cache.insertedAt cache.encodedBytes].
  replace (t' - (if cache.updateAgeOnGet c then t else t)) with (t' - t)
    by (destruct (cache.updateAgeOnGet c); reflexivity).
  destruct (Z.ltb_spec (cache.age c) (t' - t)); [lia |].
  eexists. reflexivity.
Qed.

(** What a call that succeeded leaves in the cache: the bytes it returned,
    under the key of the request, for as long as the entry has not aged
    out. *)
Lemma GenerateImage_success_cached (ig : ImageGenerator) (g : FontGlobals)
    (t1 t2 t3 : Z) (req : ImageRequest) (st : State) (data : list Z) :
  cache.updateAgeOnGet (memoryCache ig) = true ->
  t1 <= t2 -> t3 - t1 <= cache.age (memoryCache ig) ->
  GenerateImage ig g t1 t2 req = (st, Ok data) ->
  exists c,
    cache.get (memoryCache (st_ig st)) (getCacheKey req) t3 = (c, Some data).
Proof.
  intros Hu Ht Ha. unfold GenerateImage.
  destruct (cache.get (memoryCache ig) (getCacheKey req) t1)
    as [c [d |]] eqn:Hget.
  - intros [= <- <-].
    destruct (cache_get_again _ _ _ _ t1 t3 Hu Ha Hget) as (c'' & Hg & _).
    exists c''. exact Hg.
  - apply cache_get_miss in Hget. subst c.
    pose proof (createImage_request (set_memoryCache ig (memoryCache ig)) g req)
      as Hm.
    destruct (createImage _ g req) as [st1 [img | e1]]; [| discriminate].
    destruct Hm as [Hm _]. cbn [set_memoryCache memoryCache] in Hm.
    destruct (encodeImage _ _) as [d [e |]]; [discriminate |].
    intros [= <- <-]. cbn [st_ig set_memoryCache memoryCache].
    apply cache_put_get_later. rewrite Hm. lia.
Qed.

(** X13: an image is generated once.  After a call of [GenerateImage] that
    succeeded, a call for an equal request, made before the time to live has
    run out since the first lookup, returns the same bytes from the cache
    and leaves the request, the font pool and the package variables as they
    are, on a cache whose hits refresh the entry, as the generator's is. *)
Theorem GenerateImage_memoized (ig : ImageGenerator) (g : FontGlobals)
    (t1 t2 t3 t4 : Z) (req : ImageRequest) (st : State) (data : list Z) :
  cache.updateAgeOnGet (memoryCache ig) = true ->
  t1 <= t2 -> t3 - t1 <= cache.age (memoryCache ig) ->
  GenerateImage ig g t1 t2 req = (st, Ok data) ->
  exists c,
    GenerateImage (st_ig st) (st_globals st) t3 t4 req
    = ({| st_ig := set_memoryCache (st_ig st) c;
          st_globals := st_globals st; st_req := req |}, Ok data).
Proof.
  intros Hu Ht Ha H.
  destruct (GenerateImage_success_cached _ _ _ _ t3 _ _ _ Hu Ht Ha H)
    as (c & Hc).
  exists c. unfold GenerateImage. rewrite Hc. reflexivity.
Qed.

(** *** The range of the font size *)

Lemma range_check_all (m : Z) : 1 <= m <= 3000 -> range_check m = true.
Proof.
  intros Hm.
  assert (H : forallb (fun k => range_check (Z.of_nat k)) (seq 1 3000) = true)
    by (vm_compute; reflexivity).
  rewrite forallb_forall in H.
  rewrite <- (Z2Nat.id m) by lia. apply H. apply in_seq. lia.
Qed.

Ltac SFcompare_cases :=
  unfold SpecFloat.SFleb, SpecFloat.SFltb, SpecFloat.SFcompare;
  repeat match goal with
         | x : SpecFloat.spec_float |- _ => destruct x as [[] | [] | | [] ? ?]
         end;
  try reflexivity; try discriminate; try contradiction;
  change (Pos.compare_cont Eq) with Pos.compare;
  change IntDef.Z.compare with Z.compare;
  repeat match goal with
         | |- context [Z.compare ?u ?v] => destruct (Z.compare_spec u v)
         | |- context [Pos.compare ?u ?v] => destruct (Pos.compare_spec u v)
         end;
  cbn [CompOpp]; try reflexivity; try discriminate; intros; lia.

(** The order of binary64 on numbers: what is not below a bound is above
    what the bound is above, and what is not above a bound is below what the
    bound is below. *)
Lemma SFcompare_lower (lo m x : SpecFloat.spec_float) :
  SpecFloat.SFleb lo m = true -> x <> SpecFloat.S754_nan ->
  SpecFloat.SFltb x m = false -> SpecFloat.SFleb lo x = true.
Proof. SFcompare_cases. Qed.

Lemma SFcompare_upper (hi c x : SpecFloat.spec_float) :
  SpecFloat.SFleb hi c = true -> x <> SpecFloat.S754_nan ->
  SpecFloat.SFltb hi x = false -> SpecFloat.SFleb x c = true.
Proof. SFcompare_cases. Qed.

Lemma SFcompare_le_trans (a b c : SpecFloat.spec_float) :
  SpecFloat.SFleb a b = true -> SpecFloat.SFleb b c = true ->
  SpecFloat.SFleb a c = true.
Proof. SFcompare_cases. Qed.

Lemma SFcompare_le_refl (a b : SpecFloat.spec_float) :
  SpecFloat.SFleb a b = true -> SpecFloat.SFleb a a = true.
Proof. SFcompare_cases. Qed.

Lemma SFcompare_le_notNaN (a b : SpecFloat.spec_float) :
  SpecFloat.SFleb a b = true -> a <> SpecFloat.S754_nan.
Proof.
  unfold SpecFloat.SFleb, SpecFloat.SFcompare.
  destruct a; try discriminate; intros _; discriminate.
Qed.

Lemma float_lower (lo m x : float) :
  (lo <=? m)%float = true -> notNaN x -> (x <? m)%float = false ->
  (lo <=? x)%float = true.
Proof.
  unfold notNaN. rewrite !FloatAxioms.leb_spec, FloatAxioms.ltb_spec.
  apply SFcompare_lower.
Qed.

Lemma float_upper (hi c x : float) :
  (hi <=? c)%float = true -> notNaN x -> (hi <? x)%float = false ->
  (x <=? c)%float = true.
Proof.
  unfold notNaN. rewrite !FloatAxioms.leb_spec, FloatAxioms.ltb_spec.
  apply SFcompare_upper.
Qed.

Lemma float_le_trans (a b c : float) :
  (a <=? b)%float = true -> (b <=? c)%float = true -> (a <=? c)%float = true.
Proof. rewrite !FloatAxioms.leb_spec. apply SFcompare_le_trans. Qed.

Lemma float_le_refl (a b : float) :
  (a <=? b)%float = true -> (a <=? a)%float = true.
Proof. rewrite !FloatAxioms.leb_spec. apply SFcompare_le_refl. Qed.

Lemma float_le_notNaN (a b : float) : (a <=? b)%float = true -> notNaN a.
Proof.
  unfold notNaN. rewrite FloatAxioms.leb_spec. apply SFcompare_le_notNaN.
Qed.

(** The base size is a number. *)
Lemma baseFontSize_notNaN (width m k : Z) :
  1 <= width <= 3000 -> 1 <= m <= 3000 -> 0 < k < 2 ^ 63 ->
  notNaN (float64 width * 0.85 / float64 k * 0.8 * (float64 m / 200.0)).
Proof.
  intros Hw Hm Hk.
  pose proof (bounds_check_all m Hm) as Hb. unfold bounds_check in Hb.
  cbv zeta in Hb. apply andb_prop in Hb. destruct Hb as [_ Fscale].
  pose proof (bounds_check_all width Hw) as Hbw. unfold bounds_check in Hbw.
  cbv zeta in Hbw.
  apply andb_prop in Hbw. destruct Hbw as [Hbw _].
  apply andb_prop in Hbw. destruct Hbw as [_ Fwidth].
  apply mul_finite_notNaN; [| exact Fscale].
  apply mul_finite_notNaN; [| reflexivity].
  apply div_finite_notNaN; [exact Fwidth |].
  apply float64_positive_finite_or_inf. exact Hk.
Qed.

(** X14: the font size of a request within the size bounds is a number
    between 12 and 150, whatever the text; and when the smaller dimension is
    at least 30 it is at most 0.4 of that dimension. *)
Theorem calculateOptimalFontSize_range (width height : Z) (text : string) :
  1 <= width <= 3000 -> 1 <= height <= 3000 -> len text < 2 ^ 63 ->
  let fontSize := calculateOptimalFontSize width height text in
  (12.0 <=? fontSize)%float = true /\ (fontSize <=? 150.0)%float = true
  /\ (30 <= Z.min width height ->
      (fontSize <=? float64 (Z.min width height) * 0.4)%float = true).
Proof.
  intros Hw Hh Hl.
  pose proof (RuneCountInString_bounds text) as Hn.
  set (n := utf8.RuneCountInString text) in *.
  set (m := Z.min width height).
  assert (Hm : 1 <= m <= 3000) by (unfold m; lia).
  assert (E1 : (if height <? width then float64 height else float64 width)
               = float64 m).
  { unfold m. destruct (Z.ltb_spec height width).
    - rewrite Z.min_r by lia. reflexivity.
    - rewrite Z.min_l by lia. reflexivity. }
  assert (E2 : (if (float64 n =? 0)%float then 1%float else float64 n)
               = float64 (Z.max 1 n)).
  { destruct (Z.eq_dec n 0) as [-> | Hn0]; [reflexivity |].
    rewrite float64_nonzero by lia. rewrite Z.max_r by lia. reflexivity. }
  pose proof (baseFontSize_notNaN width m (Z.max 1 n) Hw Hm ltac:(lia))
    as Hbase.
  pose proof (range_check_all m Hm) as R. unfold range_check in R.
  cbv zeta in R.
  apply andb_prop in R. destruct R as [R Rord].
  apply andb_prop in R. destruct R as [R R4].
  apply andb_prop in R. destruct R as [R R3].
  apply andb_prop in R. destruct R as [R1 R2].
  unfold calculateOptimalFontSize. cbv zeta. fold n. rewrite E1, E2.
  set (base := (float64 width * 0.85 / float64 (Z.max 1 n) * 0.8
                * (float64 m / 200.0))%float) in *.
  set (maxFS := if (150.0 <? float64 m * 0.4)%float then 150.0%float
                else (float64 m * 0.4)%float) in *.
  set (minFS := if (float64 m * 0.02 <? 12.0)%float then 12.0%float
                else (float64 m * 0.02)%float) in *.
  set (f1 := if (maxFS <? base)%float then maxFS else base).
  assert (N1 : notNaN f1).
  { unfold f1. destruct (maxFS <? base)%float; [| exact Hbase].
    exact (float_le_notNaN _ _ R3). }
  assert (U1 : (f1 <=? maxFS)%float = true).
  { unfold f1. destruct (maxFS <? base)%float eqn:E.
    - exact (float_le_refl _ _ R3).
    - exact (float_upper maxFS maxFS base (float_le_refl _ _ R3) Hbase E). }
  destruct (f1 <? minFS)%float eqn:E.
  - split; [exact R1 |]. split; [exact R2 |].
    intros H30. destruct (Z.ltb_spec m 30); [lia |].
    exact (float_le_trans _ _ _ Rord R4).
  - split; [exact (float_lower _ _ _ R1 N1 E) |].
    split; [exact (float_le_trans _ _ _ U1 R3) |].
    intros _. exact (float_le_trans _ _ _ U1 R4).
Qed.

(** *** The handler: size, type and text *)

Lemma strings_Split_absent (sep : ascii) (a : string) :
  absent sep a -> strings_Split a sep = [a].
Proof.
  unfold absent. induction a as [| c a IH]; [reflexivity |].
  cbn [forallb_string strings_Split]. intros H.
  apply andb_prop in H. destruct H as [Hc Ha].
  apply negb_true_iff in Hc. rewrite Hc, (IH Ha). reflexivity.
Qed.

Lemma strings_Split_app (sep : ascii) (a b : string) :
  absent sep a ->
  strings_Split (a ++ String sep b) sep = a :: strings_Split b sep.
Proof.
  unfold absent. induction a as [| c a IH].
  - intros _. cbn [append strings_Split]. rewrite Ascii.eqb_refl. reflexivity.
  - cbn [forallb_string append strings_Split]. intros H.
    apply andb_prop in H. destruct H as [Hc Ha].
    apply negb_true_iff in Hc. rewrite Hc, (IH Ha). reflexivity.
Qed.

(** There is one piece more than there are separators, and no piece holds
    a separator. *)
Lemma strings_Split_pieces (sep : ascii) (s : string) :
  List.length (strings_Split s sep) = S (count_byte sep s)
  /\ Forall (absent sep) (strings_Split s sep).
Proof.
  unfold absent. induction s as [| c s [IHl IHf]].
  - split; [reflexivity |]. repeat constructor.
  - cbn [strings_Split count_byte]. destruct (Ascii.eqb c sep) eqn:E.
    + split; [cbn [List.length]; rewrite IHl; reflexivity |].
      constructor; [reflexivity | exact IHf].
    + destruct (strings_Split s sep) as [| p ps]; [discriminate IHl |].
      split; [exact IHl |]. inversion IHf as [| ? ? Hp Hps]; subst.
      constructor; [| exact Hps].
      cbn [forallb_string]. rewrite E, Hp. reflexivity.
Qed.

Lemma count_byte_absent (c : ascii) (s : string) :
  absent c s <-> count_byte c s = O.
Proof.
  unfold absent. induction s as [| a s IH]; [split; reflexivity |].
  cbn [forallb_string count_byte]. destruct (Ascii.eqb a c); cbn [negb andb].
  - split; discriminate.
  - exact IH.
Qed.

Lemma byte_val_eqb (c d : ascii) :
  (byte_val c =? byte_val d) = Ascii.eqb c d.
Proof.
  destruct (Z.eqb_spec (byte_val c) (byte_val d)) as [E | N],
    (Ascii.eqb_spec c d) as [E' | N']; try reflexivity.
  - exfalso. apply N'. apply byte_val_inj. exact E.
  - exfalso. apply N. rewrite E'. reflexivity.
Qed.

Lemma is_percent (c : ascii) : (byte_val c =? 37) = Ascii.eqb c "%".
Proof. exact (byte_val_eqb c "%"). Qed.

Lemma is_plus (c : ascii) : (byte_val c =? 43) = Ascii.eqb c "+".
Proof. exact (byte_val_eqb c "+"). Qed.

(** Without a [%] the first loop cannot fail; it reports a [+] if there is
    one. *)
Lemma unescape_scan_no_percent (s : string) :
  absent "%" s ->
  forall n hasPlus,
    url.unescape_scan s n hasPlus
    = Ok (n, hasPlus
             || negb (forallb_string (fun a => negb (Ascii.eqb a "+")) s)).
Proof.
  unfold absent. induction s as [| c s IH]; intros H n hp.
  - cbn [url.unescape_scan forallb_string negb]. rewrite orb_false_r.
    reflexivity.
  - cbn [forallb_string] in *. apply andb_prop in H. destruct H as [Hc Hs].
    apply negb_true_iff in Hc.
    cbn [url.unescape_scan]. rewrite is_percent, Hc, is_plus.
    destruct (Ascii.eqb c "+"); rewrite (IH Hs); cbn [negb andb].
    + rewrite orb_true_r. reflexivity.
    + reflexivity.
Qed.

Lemma unescape_build_no_percent (s : string) :
  absent "%" s -> url.unescape_build s = map_string plusToSpace s.
Proof.
  unfold absent. induction s as [| c s IH]; intros H; [reflexivity |].
  cbn [forallb_string] in H. apply andb_prop in H. destruct H as [Hc Hs].
  apply negb_true_iff in Hc.
  cbn [url.unescape_build map_string]. rewrite is_percent, Hc.
  unfold plusToSpace at 1. destruct (byte_val c =? 43); rewrite (IH Hs);
    reflexivity.
Qed.

Lemma plusToSpace_no_plus (s : string) :
  absent "+" s -> map_string plusToSpace s = s.
Proof.
  unfold absent. induction s as [| c s IH]; intros H; [reflexivity |].
  cbn [forallb_string] in H. apply andb_prop in H. destruct H as [Hc Hs].
  apply negb_true_iff in Hc.
  cbn [map_string]. unfold plusToSpace at 1. rewrite is_plus, Hc, (IH Hs).
  reflexivity.
Qed.

Lemma QueryUnescape_no_percent (s : string) :
  absent "%" s -> url.QueryUnescape s = Ok (map_string plusToSpace s).
Proof.
  intros H. unfold url.QueryUnescape, url.unescape.
  rewrite (unescape_scan_no_percent s H). cbn [orb Z.eqb andb].
  destruct (forallb_string _ s) eqn:E; cbn [negb].
  - rewrite (plusToSpace_no_plus s E). reflexivity.
  - rewrite (unescape_build_no_percent s H). reflexivity.
Qed.

(** Where the first loop succeeds, the second writes one byte at least for
    a string that is not empty, and no more bytes than it reads. *)
Lemma unescape_build_length (k : nat) :
  forall s n hasPlus,
    (String.length s <= k)%nat ->
    is_ok (url.unescape_scan s n hasPlus) = true ->
    (String.length (url.unescape_build s) <= String.length s)%nat
    /\ (s <> "" -> url.unescape_build s <> "").
Proof.
  induction k as [| k IH]; intros s n hp Hk Hs.
  - destruct s; [| cbn [String.length] in Hk; lia].
    split; [apply Nat.le_refl | intros N; exact N].
  - destruct s as [| c rest]; [split; [apply Nat.le_refl | intros N; exact N] |].
    cbn [url.unescape_scan url.unescape_build] in *.
    cbn [String.length] in Hk.
    destruct (byte_val c =? 37).
    + destruct rest as [| a [| b rest']]; try discriminate Hs.
      destruct (negb (url.ishex (byte_val a)) || negb (url.ishex (byte_val b)));
        [discriminate Hs |].
      cbn [String.length] in *.
      destruct (IH rest' (n + 1) hp ltac:(lia) Hs) as [Hl _].
      split; [lia | discriminate].
    + assert (Hr : is_ok (url.unescape_scan rest n
                            (if byte_val c =? 43 then true else hp)) = true)
        by (destruct (byte_val c =? 43); exact Hs).
      destruct (IH rest n _ ltac:(lia) Hr) as [Hl _].
      destruct (byte_val c =? 43); cbn [String.length];
        (split; [lia | discriminate]).
Qed.

(** X16: what the handler makes of the text parameter.  A text without [%]
    is passed on with every [+] turned into a space, so unchanged when it
    has no [+] either; a text whose escapes are malformed is passed on as it
    is; the text passed on is never longer than the parameter, and it is
    empty only if the parameter is, so the default text is used exactly when
    no text was given. *)
Theorem handlerText_decoding (text : string) :
  (absent "%" text -> handlerText text = map_string plusToSpace text)
  /\ (absent "%" text -> absent "+" text -> handlerText text = text)
  /\ (is_ok (url.QueryUnescape text) = false -> handlerText text = text)
  /\ (String.length (handlerText text) <= String.length text)%nat
  /\ (handlerText text = "" <-> text = "").
Proof.
  assert (L : (String.length (handlerText text) <= String.length text)%nat
              /\ (text <> "" -> handlerText text <> "")).
  { unfold handlerText, url.QueryUnescape, url.unescape.
    destruct text as [| c t];
      [split; [apply Nat.le_refl | intros N; exact N] |].
    cbn [String.eqb].
    destruct (url.unescape_scan (String c t) 0 false) as [[n hp] | e] eqn:E;
      [| split; [apply Nat.le_refl | intros N; exact N]].
    destruct ((n =? 0) && negb hp);
      [split; [apply Nat.le_refl | intros N; exact N] |].
    apply (unescape_build_length (String.length (String c t)) _ 0 false
             (Nat.le_refl _)).
    rewrite E. reflexivity. }
  destruct L as [L1 L2].
  assert (P : absent "%" text -> handlerText text = map_string plusToSpace text).
  { intros H. unfold handlerText. rewrite (QueryUnescape_no_percent text H).
    destruct text; reflexivity. }
  split; [exact P |].
  split; [intros H1 H2; rewrite (P H1); apply plusToSpace_no_plus; exact H2 |].
  split.
  - unfold handlerText. destruct (url.QueryUnescape text); [discriminate |].
    intros _. destruct text; reflexivity.
  - split; [exact L1 |]. split.
    + intros E. destruct text as [| c t]; [reflexivity |].
      exfalso. apply L2; [discriminate | exact E].
    + intros ->. reflexivity.
Qed.

(** *** The handler: the response *)

(** [HandlerImage], step by step. *)
Lemma HandlerImage_steps (paramsErr queryErr : option error)
    (p : RequestQueryParams.t) (ig : ImageGenerator) (g : FontGlobals)
    (tGet tSet : Z) :
  HandlerImage paramsErr queryErr p ig g tGet tSet
  = match paramsErr, queryErr with
    | Some err, _ => (ig, g, fiber.Status_JSON 400 err)
    | None, Some err => (ig, g, fiber.Status_JSON 400 err)
    | None, None =>
        match handlerRequest p with
        | Err err => (ig, g, fiber.Status_JSON 400 err)
        | Ok req =>
            match GenerateImage ig g tGet tSet req with
            | (st, Err err) =>
                (st_ig st, st_globals st, fiber.Status_JSON 500 err)
            | (st, Ok imageData) =>
                (st_ig st, st_globals st,
                 {| fiber.status := 200;
                    fiber.headers :=
                      [("Content-Type", getContentType (Type_ req));
                       ("Cache-Control", "public, max-age=31536000")];
                    fiber.body := fiber.Bytes imageData |})
            end
        end
    end.
Proof.
  unfold HandlerImage. destruct paramsErr, queryErr; try reflexivity.
  cbv zeta.
  assert (E : (if negb (String.eqb (RequestQueryParams.Text p) "")
               then match url.QueryUnescape (RequestQueryParams.Text p) with
                    | Ok decodedText =>
                        {| RequestQueryParams.Size := RequestQueryParams.Size p;
                           RequestQueryParams.Bg := RequestQueryParams.Bg p;
                           RequestQueryParams.Fg := RequestQueryParams.Fg p;
                           RequestQueryParams.Text := decodedText |}
                    | Err _ => p
                    end
               else p) = handlerParams p).
  { unfold handlerParams, handlerText. destruct p as [sz bg fg txt].
    cbn [RequestQueryParams.Size RequestQueryParams.Bg RequestQueryParams.Fg
         RequestQueryParams.Text].
    destruct (String.eqb_spec txt "") as [-> | N]; [reflexivity |].
    cbn [negb]. destruct (url.QueryUnescape txt); reflexivity. }
  rewrite E.
  change (NewImageRequest _ _ (handlerParams p)) with (handlerRequest p).
  destruct (handlerRequest p) as [req | e]; [| reflexivity].
  pose proof (GenerateImage_request ig g tGet tSet req) as Hr.
  destruct (GenerateImage ig g tGet tSet req) as [st [data | e]];
    [| reflexivity].
  cbn [fst] in Hr.
  assert (Ht : Type_ (st_req st) = Type_ req)
    by (destruct Hr as [-> | ->]; reflexivity).
  rewrite Ht. reflexivity.
Qed.

Lemma getContentType_imageMIME (t : string) :
  In t ["png"; "gif"; "jpg"; "jpeg"; "webp"] ->
  getContentType t = imageMIME t.
Proof.
  cbn [In]. intros [E | [E | [E | [E | [E | []]]]]]; rewrite <- E; reflexivity.
Qed.

(** X15: how the handler reads the [Size] field of the parameters, as the
    two parsers have left it, whether they filled it from the route or from
    the query.  Without a dot the field is the size, and the type is left to
    its default; with one dot the size is what precedes it and the type what
    follows; with two dots or more the size is what precedes the first and
    the type is left to its default, whatever follows.  The handler builds
    its request from these and answers according to it. *)
Theorem handlerRequest_size_and_type (p : RequestQueryParams.t) :
  let s := RequestQueryParams.Size p in
  (absent "." s ->
   handlerRequest p = NewImageRequest s "" (handlerParams p))
  /\ (forall a b, s = (a ++ "." ++ b)%string -> absent "." a -> absent "." b ->
        handlerRequest p = NewImageRequest a b (handlerParams p))
  /\ (forall a b, s = (a ++ "." ++ b)%string -> absent "." a ->
        ~ absent "." b ->
        handlerRequest p = NewImageRequest a "" (handlerParams p))
  /\ absent "." (handlerSize p) /\ absent "." (handlerType p)
  /\ forall ig g tGet tSet,
       HandlerImage None None p ig g tGet tSet
       = match handlerRequest p with
         | Err err => (ig, g, fiber.Status_JSON 400 err)
         | Ok req =>
             match GenerateImage ig g tGet tSet req with
             | (st, Err err) =>
                 (st_ig st, st_globals st, fiber.Status_JSON 500 err)
             | (st, Ok imageData) =>
                 (st_ig st, st_globals st,
                  {| fiber.status := 200;
                     fiber.headers :=
                       [("Content-Type", getContentType (Type_ req));
                        ("Cache-Control", "public, max-age=31536000")];
                     fiber.body := fiber.Bytes imageData |})
             end
         end.
Proof.
  cbv zeta.
  split; [| split; [| split; [| split; [| split]]]];
    [| | | | | intros ig g tGet tSet;
       exact (HandlerImage_steps None None p ig g tGet tSet)];
    unfold handlerRequest, handlerSize, handlerType.
  - intros H. rewrite (strings_Split_absent _ _ H). reflexivity.
  - intros a b -> Ha Hb. cbn [append].
    rewrite (strings_Split_app _ a b Ha), (strings_Split_absent _ _ Hb).
    reflexivity.
  - intros a b -> Ha Hb. cbn [append].
    rewrite (strings_Split_app _ a b Ha).
    destruct (strings_Split_pieces "." b) as [Hl _].
    cbn [List.length nth]. rewrite Hl.
    destruct (count_byte "." b) eqn:E; [| reflexivity].
    exfalso. apply Hb. apply count_byte_absent. exact E.
  - destruct (strings_Split_pieces "." (RequestQueryParams.Size p))
      as [Hl Hf].
    destruct (strings_Split _ _) as [| x l]; [discriminate Hl |].
    inversion Hf; assumption.
  - destruct (strings_Split_pieces "." (RequestQueryParams.Size p))
      as [Hl Hf].
    destruct (strings_Split _ _) as [| x [| y [| z l]]]; try reflexivity.
    cbn [List.length Nat.eqb nth].
    inversion Hf as [| ? ? _ Hf']; subst. inversion Hf'; assumption.
Qed.

(** X17: the three ways [HandlerImage] answers.  400 with the error, the
    generator untouched, when a parser fails or [NewImageRequest] rejects the
    request; 500 with the error when an encoder fails, which is the only way
    generation can fail; otherwise 200 with the bytes [GenerateImage]
    returned, the content type of the format of the request and the cache
    control header. *)
Theorem HandlerImage_response (paramsErr queryErr : option error)
    (p : RequestQueryParams.t) (ig : ImageGenerator) (g : FontGlobals)
    (tGet tSet : Z) :
  let '(ig', g', resp) := HandlerImage paramsErr queryErr p ig g tGet tSet in
  (ig' = ig /\ g' = g
   /\ exists e,
        resp = fiber.Status_JSON 400 e
        /\ (paramsErr = Some e
            \/ (paramsErr = None /\ queryErr = Some e)
            \/ (paramsErr = None /\ queryErr = None
                /\ handlerRequest p = Err e)))
  \/ (paramsErr = None /\ queryErr = None
      /\ exists req e,
           handlerRequest p = Ok req
           /\ snd (GenerateImage ig g tGet tSet req) = Err e
           /\ resp = fiber.Status_JSON 500 e /\ encoderError e)
  \/ (paramsErr = None /\ queryErr = None
      /\ exists req data,
           handlerRequest p = Ok req
           /\ snd (GenerateImage ig g tGet tSet req) = Ok data
           /\ In (Type_ req) ["png"; "gif"; "jpg"; "jpeg"; "webp"]
           /\ resp
              = {| fiber.status := 200;
                   fiber.headers :=
                     [("Content-Type", imageMIME (Type_ req));
                      ("Cache-Control", "public, max-age=31536000")];
                   fiber.body := fiber.Bytes data |}).
Proof.
  rewrite HandlerImage_steps.
  destruct paramsErr as [e |]; [left; eauto 10 |].
  destruct queryErr as [e |]; [left; eauto 10 |].
  destruct (handlerRequest p) as [req | e] eqn:Hreq; [| left; eauto 10].
  unfold handlerRequest in Hreq.
  destruct (NewImageRequest_ok _ _ _ _ Hreq) as (_ & Ht & Hb & Hf & _).
  destruct (GenerateImage ig g tGet tSet req) as [st [data | e]] eqn:E.
  - right. right. split; [reflexivity |]. split; [reflexivity |].
    exists req, data. split; [reflexivity |].
    split; [rewrite E; reflexivity |].
    pose proof (validTypes_In _ Ht) as Hin. split; [exact Hin |].
    rewrite (getContentType_imageMIME _ Hin). reflexivity.
  - right. left. split; [reflexivity |]. split; [reflexivity |].
    exists req, e. split; [reflexivity |].
    split; [rewrite E; reflexivity |]. split; [reflexivity |].
    exact (GenerateImage_error_cases _ _ _ _ _ _ _ Hb Hf Ht E).
Qed.

(** X18: where no encoder fails, the handler never answers 500: it answers
    200 when both parsers succeed and [NewImageRequest] accepts the request,
    and 400 otherwise. *)
Theorem HandlerImage_no_server_error (paramsErr queryErr : option error)
    (p : RequestQueryParams.t) (ig : ImageGenerator) (g : FontGlobals)
    (tGet tSet : Z) :
  encoders_total ->
  let status :=
    fiber.status (snd (HandlerImage paramsErr queryErr p ig g tGet tSet)) in
  status = (if match paramsErr, queryErr with
               | None, None => is_ok (handlerRequest p)
               | _, _ => false
               end
            then 200 else 400).
Proof.
  intros (T1 & T2 & T3 & T4). cbv zeta. rewrite HandlerImage_steps.
  destruct paramsErr as [e |]; [reflexivity |].
  destruct queryErr as [e |]; [reflexivity |].
  destruct (handlerRequest p) as [req | e] eqn:Hreq; [| reflexivity].
  unfold handlerRequest in Hreq.
  destruct (NewImageRequest_ok _ _ _ _ Hreq) as (_ & Ht & Hb & Hf & _).
  destruct (GenerateImage ig g tGet tSet req) as [st [data | e]] eqn:E;
    [reflexivity |].
  exfalso.
  destruct (GenerateImage_error_cases _ _ _ _ _ _ _ Hb Hf Ht E)
    as (img & [N | [N | [N | N]]]).
  - rewrite T1 in N. discriminate N.
  - rewrite T2 in N. discriminate N.
  - rewrite T3 in N. discriminate N.
  - rewrite T4 in N. discriminate N.
Qed.

(** X20: the same request gets the same answer.  After [HandlerImage] has
    answered 200, a request with the same parameters made before the time to
    live has run out since the first lookup gets the same response, status,
    headers and bytes, and leaves the font pool and the package variables as
    they are, on a cache whose hits refresh the entry, as the generator's
    is. *)
Theorem HandlerImage_same_answer (p : RequestQueryParams.t)
    (ig ig1 : ImageGenerator) (g g1 : FontGlobals) (t1 t2 t3 t4 : Z)
    (resp : fiber.Response) :
  cache.updateAgeOnGet (memoryCache ig) = true ->
  t1 <= t2 -> t3 - t1 <= cache.age (memoryCache ig) ->
  HandlerImage None None p ig g t1 t2 = (ig1, g1, resp) ->
  fiber.status resp = 200 ->
  exists c,
    HandlerImage None None p ig1 g1 t3 t4 = (set_memoryCache ig1 c, g1, resp).
Proof.
  intros Hu Ht Ha. rewrite !HandlerImage_steps.
  destruct (handlerRequest p) as [req | e]; [| intros [= <- <- <-]; discriminate].
  destruct (GenerateImage ig g t1 t2 req) as [st [data | e]] eqn:E;
    [| intros [= <- <- <-]; discriminate].
  intros [= <- <- <-] _.
  destruct (GenerateImage_success_cached _ _ _ _ t3 _ _ _ Hu Ht Ha E)
    as (c & Hc).
  exists c. unfold GenerateImage. rewrite Hc. reflexivity.
Qed.

(** *** The picture is a function of the request *)

Lemma parseEmbeddedFont_coherent (g : FontGlobals) (fontSize dpi : float) :
  globalsCoherent g ->
  parseEmbeddedFont g fontSize dpi
  = parseEmbeddedFont {| fontOnce := None |} fontSize dpi.
Proof.
  intros [H | H]; unfold parseEmbeddedFont; rewrite H; reflexivity.
Qed.

Lemma createImage_coherent (ig : ImageGenerator) (g : FontGlobals)
    (req : ImageRequest) :
  globalsCoherent g ->
  snd (createImage ig g req)
  = snd (createImage {| memoryCache := cache.New 0 0 false;
                        fontPool := {| fonts := []; fonts_cap := 0 |} |}
           {| fontOnce := None |} req).
Proof.
  intros Hg.
  destruct (parseHexColor (BgColor req)) as [bg | e1] eqn:Hbg;
    [destruct (parseHexColor (FgColor req)) as [fg | e2] eqn:Hfg |].
  - rewrite !(createImage_colors_ok _ _ _ _ _ Hbg Hfg).
    unfold GetFont.
    rewrite (parseEmbeddedFont_coherent g _ _ Hg).
    destruct (parseEmbeddedFont _ _ _) as [g1 [face | e]]; reflexivity.
  - unfold createImage. rewrite Hbg, Hfg. reflexivity.
  - unfold createImage. rewrite Hbg. reflexivity.
Qed.

(** X19: the picture is a function of the request alone.  Whatever the
    generator holds in its pool and its cache, and whether the font has been
    parsed already or not, [createImage] returns the same image, or the same
    error, for the same request; and the package variables stay what this
    relies on, empty or holding the outcome of parsing the embedded font,
    through [NewImageGenerator] and every [GenerateImage]. *)
Theorem createImage_depends_on_request_only (ig ig' : ImageGenerator)
    (g g' : FontGlobals) (req : ImageRequest) :
  globalsCoherent g -> globalsCoherent g' ->
  snd (createImage ig g req) = snd (createImage ig' g' req)
  /\ globalsCoherent (fst (NewImageGenerator g))
  /\ forall tGet tSet,
       globalsCoherent (st_globals (fst (GenerateImage ig g tGet tSet req))).
Proof.
  intros Hg Hg'. split; [| split].
  - rewrite (createImage_coherent ig g req Hg).
    rewrite (createImage_coherent ig' g' req Hg'). reflexivity.
  - unfold NewImageGenerator, NewFontPool.
    destruct (NewFontPool_loop_exact (Z.to_nat FONT_POOL_SIZE) g
                {| fonts := []; fonts_cap := Z.to_nat FONT_POOL_SIZE |})
      as (I1 & _).
    destruct (NewFontPool_loop _ g _) as [g1 pool]. cbn [fst] in *.
    rewrite I1. change (Z.to_nat FONT_POOL_SIZE) with 32%nat. cbv iota.
    rewrite parseEmbeddedFont_globals. unfold globalsCoherent.
    cbn [fontOnce]. destruct Hg as [-> | ->]; right; reflexivity.
  - intros tGet tSet.
    assert (P : forall s d, globalsCoherent (fst (parseEmbeddedFont g s d))).
    { intros s d. rewrite parseEmbeddedFont_globals. unfold globalsCoherent.
      cbn [fontOnce]. destruct Hg as [-> | ->]; right; reflexivity. }
    destruct (GenerateImage_state ig g tGet tSet req)
      as [[_ H] | (c & _ & H)]; rewrite H; [exact Hg |].
    destruct (createImage_state (set_memoryCache ig c) g req)
      as (_ & [K | K] & _); rewrite K; [exact Hg | apply P].
Qed.
End Placeholder.

(* ================================================================= *)
(** * Checks of the library models against known values *)

Example md5_empty :
  fmt.x (md5.Sum (bytes "")) = "d41d8cd98f00b204e9800998ecf8427e".
Proof. vm_compute. reflexivity. Qed.

Example md5_abc :
  fmt.x (md5.Sum (bytes "abc")) = "900150983cd24fb0d6963f7d28e17f72".
Proof. vm_compute. reflexivity. Qed.

Example md5_alphabet :
  fmt.x (md5.Sum (bytes "abcdefghijklmnopqrstuvwxyz"))
  = "c3fcd3d76192e4007dfb496cca67e13b".
Proof. vm_compute. reflexivity. Qed.

(** U+5360 is the three bytes E5 8D A0; the byte FF starts no encoding. *)
Example RuneCount_multibyte :
  utf8.RuneCountInString
    (String (ascii_of_nat 229) (String (ascii_of_nat 141)
       (String (ascii_of_nat 160) "x"))) = 2
  /\ utf8.ValidString
       (String (ascii_of_nat 229) (String (ascii_of_nat 141)
          (String (ascii_of_nat 160) "x"))) = true
  /\ utf8.RuneCountInString (String (ascii_of_nat 255) "x") = 2
  /\ utf8.ValidString (String (ascii_of_nat 255) "x") = false.
Proof. repeat split. Qed.

Example Atoi_values :
  strconv.Atoi "0300" = (300, None)
  /\ strconv.Atoi "9223372036854775807" = (9223372036854775807, None)
  /\ strconv.Atoi "9223372036854775808"
     = (9223372036854775807,
        Some (NumError "Atoi" "9223372036854775808" ErrRange))
  /\ strconv.Atoi "12a" = (0, Some (NumError "Atoi" "12a" ErrSyntax)).
Proof. repeat split. Qed.

Example fontSize_300x200 :
  calculateOptimalFontSize 300 200 "300x200" = 29.142857142857146%float.
Proof. vm_compute. reflexivity. Qed.

(* ================================================================= *)
(** * Concrete runs

    The libraries around the generator, fixed to simple functions, and the
    theorems above applied to concrete requests. *)

Definition sample_ToLower_Map (s : string) : string := s.
Definition sample_font : string := "OTTO".
Definition sample_Parse (data : string) : result Font := Ok (ParsedFont data).
Definition sample_Parse_fails (data : string) : result Font :=
  Err (LibError "opentype" "invalid font").
Definition sample_NewFace_err (f : Font) (o : FaceOptions.t) : option error :=
  None.
Definition sample_LoadFontFace_err (path : string) (points : float)
    : option error :=
  if String.eqb path ""
  then Some (LibError "gg" "open : no such file or directory")
  else None.
Definition sample_MeasureString (font : FontSel) (s : string) : float * float :=
  ((float64 (len s) * 10)%float, 20%float).
Definition sample_png (img : Image) : list Z * option error :=
  ([137; 80; 78; 71], None).
Definition sample_jpeg (img : Image) (o : jpeg.Options)
    : list Z * option error := ([255; 216; jpeg.Quality o], None).
Definition sample_gif (img : Image) (o : option gif.Options)
    : list Z * option error := ([71; 73; 70], None).
Definition sample_webp (img : Image) (o : webp.Options)
    : list Z * option error := ([82; 73; 70; 70], None).

Definition sample_globals : FontGlobals := {| fontOnce := None |}.

(** The generator as [NewImageGenerator] builds it, its font parsed. *)
Definition sample_generator : ImageGenerator :=
  snd (NewImageGenerator sample_font sample_Parse sample_NewFace_err
         sample_globals).

Definition sample_globals' : FontGlobals :=
  fst (NewImageGenerator sample_font sample_Parse sample_NewFace_err
         sample_globals).

Definition sample_request : ImageRequest :=
  {| Width := 300; Height := 200; Type_ := "png"; BgColor := "cccccc";
     FgColor := "666666"; Text := "300x200" |}.

Definition sample_params : RequestQueryParams.t :=
  {| RequestQueryParams.Size := "300x200"; RequestQueryParams.Bg := "";
     RequestQueryParams.Fg := ""; RequestQueryParams.Text := "" |}.

(** A request whose text is the single byte 0xFF, which is not UTF-8. *)
Definition invalid_text : string := String (ascii_of_nat 255) "".

Definition invalid_text_request : ImageRequest :=
  {| Width := 300; Height := 200; Type_ := "png"; BgColor := "cccccc";
     FgColor := "666666"; Text := invalid_text |}.

Lemma float_neq (a b : float) (p : float -> bool) :
  p a <> p b -> a <> b.
Proof. intros H E. apply H. rewrite E. reflexivity. Qed.

(** C1 at 300x200 with the default text: both readings of the clamp. *)
Lemma calculateOptimalFontSize_steps_witness :
  calculateOptimalFontSize 300 200 "300x200"
  = computeFontSize_lower_last 300 200 "300x200"
  /\ calculateOptimalFontSize 300 200 "300x200"
     = computeFontSize 300 200 "300x200".
Proof.
  destruct (calculateOptimalFontSize_steps 300 200 "300x200")
    as (H1 & H2 & _); [lia | lia | reflexivity |].
  split; [exact H1 | apply H2; simpl; lia].
Defined.

(** C1 fails as stated where the lower bound exceeds the upper one and the
    base size is above both: at 300x20 with a one-letter text the bounds are
    12 and 8 and the base size 20.4; the code returns 12, the clamp of the
    spec 8, in either of its two writings. *)
Lemma calculateOptimalFontSize_not_clamp :
  calculateOptimalFontSize 300 20 "A" <> computeFontSize 300 20 "A"
  /\ calculateOptimalFontSize 300 20 "A"
     <> computeFontSize_upper_last 300 20 "A".
Proof.
  split; apply (float_neq _ _ (fun x => (x <? 10)%float));
    vm_compute; discriminate.
Qed.

(** C2 fails as stated: [createImage], and [GenerateImage] through it,
    overwrite the text of a request whose text is not valid UTF-8, here the
    request the validator builds for the text 0xFF. *)
Lemma createImage_overwrites_text :
  NewImageRequest sample_ToLower_Map "300x200" ""
    {| RequestQueryParams.Size := "300x200"; RequestQueryParams.Bg := "";
       RequestQueryParams.Fg := ""; RequestQueryParams.Text := invalid_text |}
  = Ok invalid_text_request
  /\ st_req (fst (createImage sample_font sample_Parse sample_NewFace_err
                    sample_LoadFontFace_err sample_MeasureString
                    sample_generator sample_globals' invalid_text_request))
     <> invalid_text_request
  /\ st_req (fst (GenerateImage sample_font sample_Parse sample_NewFace_err
                    sample_LoadFontFace_err sample_MeasureString sample_png
                    sample_jpeg sample_gif sample_webp sample_generator
                    sample_globals' 0 0 invalid_text_request))
     <> invalid_text_request.
Proof. split; [reflexivity |]. split; vm_compute; discriminate. Qed.

(** C3 at a GIF request whose encoding fails, on a cache that holds an
    image already. *)
Definition failing_gif (img : Image) (o : option gif.Options)
    : list Z * option error := ([], Some (LibError "gif" "encoding failed")).

Definition warm_generator : ImageGenerator :=
  st_ig (fst (GenerateImage sample_font sample_Parse sample_NewFace_err
                sample_LoadFontFace_err sample_MeasureString sample_png
                sample_jpeg sample_gif sample_webp sample_generator
                sample_globals' 0 0 sample_request)).

Definition gif_request : ImageRequest :=
  {| Width := 300; Height := 200; Type_ := "gif"; BgColor := "cccccc";
     FgColor := "666666"; Text := "300x200" |}.

Lemma GenerateImage_error_keeps_cache_witness :
  memoryCache
    (st_ig (fst (GenerateImage sample_font sample_Parse sample_NewFace_err
                   sample_LoadFontFace_err sample_MeasureString sample_png
                   sample_jpeg failing_gif sample_webp warm_generator
                   sample_globals' 10 10 gif_request)))
  = memoryCache warm_generator
  /\ List.length (cache.entries (memoryCache warm_generator)) = 1%nat.
Proof.
  split; [| reflexivity].
  apply (GenerateImage_error_keeps_cache sample_font sample_Parse
           sample_NewFace_err sample_LoadFontFace_err sample_MeasureString
           sample_png sample_jpeg failing_gif sample_webp warm_generator
           sample_globals' 10 10 gif_request _
           (LibError "gif" "encoding failed")).
  vm_compute. reflexivity.
Defined.

(** C4 at two validated requests that differ in their text only. *)
Lemma getCacheKey_fingerprint_witness :
  String.length (getCacheKey sample_request) = 32%nat
  /\ cacheKeyString sample_request
     <> cacheKeyString (set_Text sample_request "Logo").
Proof.
  destruct (getCacheKey_fingerprint sample_ToLower_Map sample_request
              (set_Text sample_request "Logo")) as (H1 & _ & _ & H4 & _).
  split; [exact H1 |]. apply H4.
  - apply (validated_wellFormed sample_ToLower_Map).
    exists "300x200", "", sample_params. reflexivity.
  - apply (validated_wellFormed sample_ToLower_Map).
    exists "300x200", "",
      {| RequestQueryParams.Size := "300x200"; RequestQueryParams.Bg := "";
         RequestQueryParams.Fg := ""; RequestQueryParams.Text := "Logo" |}.
    reflexivity.
  - discriminate.
Defined.

(** C5 at the token "300x200": it is accepted with these dimensions, and the
    request built from it carries them. *)
Lemma size_validation_witness :
  ParseSize "300x200"
  = Ok {| ImageSize.Width := 300; ImageSize.Height := 200 |}
  /\ exists req,
       NewImageRequest sample_ToLower_Map "300x200" "" sample_params = Ok req
       /\ Width req = 300 /\ Height req = 200.
Proof.
  destruct (size_validation sample_ToLower_Map "300x200")
    as (H1 & _ & _ & H4).
  assert (HP : ParseSize "300x200"
               = Ok {| ImageSize.Width := 300; ImageSize.Height := 200 |}).
  { apply H1. exists "300", "200".
    repeat split; try reflexivity; try discriminate. }
  split; [exact HP |].
  apply (H4 300 200 "" sample_params HP); reflexivity.
Defined.

(** C6 at a pool that holds 32 faces of 24 points, asked for 30 points:
    the face returned is the embedded font at 30 points and 72 dpi, the pool
    is left as it was, and the face is none of the pooled ones. *)
Definition face_30 : Face :=
  {| face_font := ParsedFont sample_font;
     face_opts := {| FaceOptions.Size := 30; FaceOptions.DPI := 72 |} |}.

Lemma GetFont_exact_size_witness :
  GetFont sample_font sample_Parse sample_NewFace_err
    (fontPool sample_generator) sample_globals' 30
  = (fontPool sample_generator, sample_globals', Some face_30)
  /\ List.length (fonts (fontPool sample_generator)) = 32%nat
  /\ forall pooled, In pooled (fonts (fontPool sample_generator)) ->
       face_30 <> pooled.
Proof.
  destruct (GetFont_exact_size sample_font sample_Parse sample_NewFace_err
              (fontPool sample_generator) sample_globals' 30)
    as (H1 & H2 & H3).
  split; [exact H1 |]. split; [reflexivity |].
  intros pooled Hin.
  destruct (H3 face_30 (H2 (ParsedFont sample_font) eq_refl eq_refl))
    as (_ & _ & H4).
  apply (H4 pooled Hin).
  change (fonts (fontPool sample_generator))
    with (repeat {| face_font := ParsedFont sample_font;
                    face_opts := {| FaceOptions.Size := 24;
                                    FaceOptions.DPI := 72 |} |} 32) in Hin.
  apply repeat_spec in Hin. rewrite Hin.
  apply (float_neq _ _ (fun x => (x <? 25)%float)). vm_compute. discriminate.
Defined.


Definition fontless_generator : ImageGenerator :=
  snd (NewImageGenerator sample_font sample_Parse_fails sample_NewFace_err
         sample_globals).




(** C8 at the request whose text is the byte 0xFF. *)
Lemma createImage_text_substitution_witness :
  exists st font,
    createImage sample_font sample_Parse sample_NewFace_err
      sample_LoadFontFace_err sample_MeasureString sample_generator sample_globals'
      invalid_text_request
    = (st, Ok {| im_width := 300; im_height := 200;
                 im_ops :=
                   [OpClear {| R := 204; G := 204; B := 204; A := 255 |};
                    OpDrawStringAnchored "Invalid UTF-8" 150 97 0.5 0.5
                      {| R := 102; G := 102; B := 102; A := 255 |} font] |}).
Proof.
  exact (proj1 (createImage_text_substitution sample_ToLower_Map sample_font
                  sample_Parse sample_NewFace_err sample_LoadFontFace_err sample_MeasureString
                  sample_generator sample_globals' invalid_text_request
                  _ _ eq_refl eq_refl)).
Defined.

(** C9 at a type that is none of the five. *)
Lemma encodeImage_dispatch_witness :
  encodeImage sample_png sample_jpeg sample_gif sample_webp
    {| im_width := 1; im_height := 1; im_ops := [] |} "bmp"
  = ([], Some (errorString "unsupported image type: bmp")).
Proof.
  apply (encodeImage_dispatch sample_png sample_jpeg sample_gif sample_webp).
  simpl. intros [H | [H | [H | [H | [H | []]]]]]; discriminate H.
Defined.

(** C10 at the request built from "300x200" with red on white. *)
Lemma validated_colors_parse_witness :
  parseHexColor "ff0000" = Ok {| R := 255; G := 0; B := 0; A := 255 |}
  /\ isHex6 "FFFFFF"
  /\ forall ig g,
       is_ok (snd (createImage sample_font sample_Parse sample_NewFace_err
                     sample_LoadFontFace_err sample_MeasureString ig g
                     {| Width := 300; Height := 200; Type_ := "png";
                        BgColor := "ff0000"; FgColor := "FFFFFF";
                        Text := "300x200" |})) = true.
Proof.
  destruct (validated_colors_parse sample_ToLower_Map sample_font sample_Parse
              sample_NewFace_err sample_LoadFontFace_err sample_MeasureString "300x200" ""
              {| RequestQueryParams.Size := "300x200";
                 RequestQueryParams.Bg := "ff0000";
                 RequestQueryParams.Fg := "FFFFFF";
                 RequestQueryParams.Text := "" |}
              _ eq_refl) as (_ & Hf & _ & Hc).
  split; [reflexivity |]. split; [exact Hf | exact Hc].
Defined.

(** The scenarios of the spec for malformed tokens, and the key of the
    default request. *)
Example malformed_tokens :
  NewImageRequest sample_ToLower_Map "abcx200" "" sample_params
  = Err (errorString "invalid size format, expected WIDTHxHEIGHT")
  /\ NewImageRequest sample_ToLower_Map "300x200" "bmp" sample_params
     = Err (errorString "unsupported image type: bmp")
  /\ NewImageRequest sample_ToLower_Map "300x200" ""
       {| RequestQueryParams.Size := "300x200";
          RequestQueryParams.Bg := "zz0000"; RequestQueryParams.Fg := "";
          RequestQueryParams.Text := "" |}
     = Err (errorString "invalid background color: zz0000")
  /\ NewImageRequest sample_ToLower_Map "300x200" "" sample_params
     = Ok sample_request.
Proof. repeat split. Qed.

Example key_300x200 :
  cacheKeyString sample_request = "300x200_png_cccccc_666666_300x200"
  /\ getCacheKey sample_request = "dc63868cff9493a49e137601c4e2d757".
Proof. split; vm_compute; reflexivity. Qed.

(* ================================================================= *)
(** * Concrete runs of the further properties *)

Definition sample_NewImageRequest :=
  NewImageRequest sample_ToLower_Map.

Definition sample_createImage :=
  createImage sample_font sample_Parse sample_NewFace_err
    sample_LoadFontFace_err sample_MeasureString.

Definition sample_GenerateImage :=
  GenerateImage sample_font sample_Parse sample_NewFace_err
    sample_LoadFontFace_err sample_MeasureString sample_png sample_jpeg
    sample_gif sample_webp.

Definition sample_HandlerImage :=
  HandlerImage sample_ToLower_Map sample_font sample_Parse sample_NewFace_err
    sample_LoadFontFace_err sample_MeasureString sample_png sample_jpeg
    sample_gif sample_webp.

Lemma sample_encoders_total :
  encoders_total sample_png sample_jpeg sample_gif sample_webp.
Proof. repeat split. Qed.

(** X2 at orange, its letters in both cases. *)
Lemma parseHexColor_channels_witness :
  parseHexColor "FFaa00" = Ok {| R := 255; G := 170; B := 0; A := 255 |}.
Proof.
  exact (proj1 (parseHexColor_channels "F" "F" "a" "a" "0" "0" eq_refl)).
Defined.

(** X3 at a request with its colors in upper case. *)
Definition upper_request : ImageRequest :=
  {| Width := 300; Height := 200; Type_ := "png"; BgColor := "CCCCCC";
     FgColor := "FFAA00"; Text := "Logo" |}.

Lemma createImage_color_case_witness :
  BgColor (lowerColors upper_request) = "cccccc"
  /\ FgColor (lowerColors upper_request) = "ffaa00"
  /\ snd (sample_createImage sample_generator sample_globals'
            (lowerColors upper_request))
     = snd (sample_createImage sample_generator sample_globals' upper_request).
Proof.
  split; [reflexivity |]. split; [reflexivity |].
  apply (createImage_color_case sample_font sample_Parse sample_NewFace_err
           sample_LoadFontFace_err sample_MeasureString sample_generator
           sample_globals' upper_request); split; reflexivity.
Defined.

Lemma matchesSize_0300x200 : matchesSize "0300x200" "0300" "200".
Proof. repeat split; try reflexivity; discriminate. Qed.

Lemma matchesSize_300x200 : matchesSize "300x200" "300" "200".
Proof. repeat split; try reflexivity; discriminate. Qed.

(** X4 at a width written with a leading zero: the text is printed without
    it. *)
Lemma NewImageRequest_size_only_witness :
  sample_NewImageRequest "0300x200" "" sample_params = Ok sample_request.
Proof.
  apply (NewImageRequest_size_only sample_ToLower_Map "0300x200" "0300" "200"
           "300x200" matchesSize_0300x200); vm_compute; split; discriminate.
Defined.

(** X5 at the same two sizes, for a JPEG with a text. *)
Definition logo_params : RequestQueryParams.t :=
  {| RequestQueryParams.Size := "0300x200.jpg"; RequestQueryParams.Bg := "";
     RequestQueryParams.Fg := ""; RequestQueryParams.Text := "Logo" |}.

Lemma NewImageRequest_leading_zeros_witness :
  sample_NewImageRequest "0300x200" "jpg" logo_params
  = sample_NewImageRequest "300x200" "jpg" logo_params.
Proof.
  apply (NewImageRequest_leading_zeros sample_ToLower_Map "0300x200" "300x200"
           "0300" "200" "300" "200" "jpg" logo_params matchesSize_0300x200
           matchesSize_300x200); reflexivity.
Defined.

(** X6 at the size "0300x200": the text is "300x200", which as a size gives
    the same request. *)
Lemma default_text_is_canonical_size_witness :
  Text sample_request = "300x200"
  /\ ParseSize "300x200" = ParseSize "0300x200"
  /\ sample_NewImageRequest "300x200" "" sample_params = Ok sample_request.
Proof.
  exact (default_text_is_canonical_size sample_ToLower_Map "0300x200" ""
           sample_params sample_request eq_refl eq_refl).
Defined.

(** X7 at the type "JPG": the request carries "jpg", is encoded as JPEG and
    announced as image/jpeg. *)
Definition jpg_request : ImageRequest :=
  {| Width := 300; Height := 200; Type_ := "jpg"; BgColor := "cccccc";
     FgColor := "666666"; Text := "300x200" |}.

Lemma validated_type_encoder_and_MIME_witness :
  sample_NewImageRequest "300x200" "JPG" sample_params = Ok jpg_request
  /\ getContentType "jpg" = "image/jpeg"
  /\ forall img,
       encodeImage sample_png sample_jpeg sample_gif sample_webp img "jpg"
       = sample_jpeg img {| jpeg.Quality := 90 |}.
Proof.
  split; [reflexivity |].
  destruct (validated_type_encoder_and_MIME sample_ToLower_Map sample_png
              sample_jpeg sample_gif sample_webp "300x200" "JPG" sample_params
              jpg_request eq_refl)
    as [[E _] | [[_ H] | [[E _] | [E _]]]];
    [discriminate E | exact H | discriminate E | discriminate E].
Defined.

(** X8 at the type "PNG". *)
Lemma NewImageRequest_type_case_witness :
  sample_NewImageRequest "300x200" "png" sample_params = Ok sample_request
  /\ Type_ sample_request = "png".
Proof.
  destruct (NewImageRequest_type_case sample_ToLower_Map "300x200" "PNG"
              sample_params sample_request eq_refl eq_refl) as [H1 H2].
  split; [exact H1 |]. apply H2. discriminate.
Defined.

(** X12 at the default request, with encoders that do not fail. *)
Lemma GenerateImage_fails_only_in_encoder_witness :
  is_ok (snd (sample_GenerateImage sample_generator sample_globals' 0 0
                sample_request)) = true.
Proof.
  exact (proj2 (GenerateImage_fails_only_in_encoder sample_ToLower_Map
                  sample_font sample_Parse sample_NewFace_err
                  sample_LoadFontFace_err sample_MeasureString sample_png
                  sample_jpeg sample_gif sample_webp "300x200" ""
                  sample_params sample_request sample_generator
                  sample_globals' 0 0 eq_refl)
           sample_encoders_total).
Defined.

(** X13 at the default request, asked for again an hour after the first
    call on a new generator. *)
Definition first_call : State :=
  fst (sample_GenerateImage sample_generator sample_globals' 0 0
         sample_request).

Lemma first_call_result :
  sample_GenerateImage sample_generator sample_globals' 0 0 sample_request
  = (first_call, Ok [137; 80; 78; 71]).
Proof. vm_compute. reflexivity. Qed.

Lemma GenerateImage_memoized_witness :
  exists c,
    sample_GenerateImage (st_ig first_call) (st_globals first_call) 3600 3600
      sample_request
    = ({| st_ig := set_memoryCache (st_ig first_call) c;
          st_globals := st_globals first_call; st_req := sample_request |},
       Ok [137; 80; 78; 71]).
Proof.
  apply (GenerateImage_memoized sample_font sample_Parse sample_NewFace_err
           sample_LoadFontFace_err sample_MeasureString sample_png sample_jpeg
           sample_gif sample_webp sample_generator sample_globals' 0 0 3600
           3600 sample_request first_call [137; 80; 78; 71]).
  - reflexivity.
  - lia.
  - vm_compute. discriminate.
  - exact first_call_result.
Defined.

(** X14 at 300x200 with the default text. *)
Lemma calculateOptimalFontSize_range_witness :
  (12.0 <=? calculateOptimalFontSize 300 200 "300x200")%float = true
  /\ (calculateOptimalFontSize 300 200 "300x200" <=? 150.0)%float = true
  /\ (calculateOptimalFontSize 300 200 "300x200" <=? float64 200 * 0.4)%float
     = true.
Proof.
  destruct (calculateOptimalFontSize_range 300 200 "300x200")
    as (H1 & H2 & H3); [lia | lia | reflexivity |].
  split; [exact H1 |]. split; [exact H2 |]. apply H3. vm_compute. discriminate.
Defined.

(** X18 at a JPEG with a text and at a type that is not supported. *)
Definition bmp_params : RequestQueryParams.t :=
  {| RequestQueryParams.Size := "300x200.bmp"; RequestQueryParams.Bg := "";
     RequestQueryParams.Fg := ""; RequestQueryParams.Text := "" |}.

Lemma HandlerImage_no_server_error_witness :
  fiber.status
    (snd (sample_HandlerImage None None logo_params sample_generator
            sample_globals' 0 0)) = 200
  /\ fiber.status
       (snd (sample_HandlerImage None None bmp_params sample_generator
               sample_globals' 0 0)) = 400.
Proof.
  split.
  - exact (HandlerImage_no_server_error sample_ToLower_Map sample_font
             sample_Parse sample_NewFace_err sample_LoadFontFace_err
             sample_MeasureString sample_png sample_jpeg sample_gif
             sample_webp None None logo_params sample_generator
             sample_globals' 0 0 sample_encoders_total).
  - exact (HandlerImage_no_server_error sample_ToLower_Map sample_font
             sample_Parse sample_NewFace_err sample_LoadFontFace_err
             sample_MeasureString sample_png sample_jpeg sample_gif
             sample_webp None None bmp_params sample_generator
             sample_globals' 0 0 sample_encoders_total).
Defined.

(** The handler at work: the [Size] field with no dot, one dot, a dot at
    the end and two dots; the text decoded once more. *)
Example handler_paths :
  handlerRequest sample_ToLower_Map sample_params = Ok sample_request
  /\ handlerRequest sample_ToLower_Map
       {| RequestQueryParams.Size := "300x200.JPG";
          RequestQueryParams.Bg := ""; RequestQueryParams.Fg := "";
          RequestQueryParams.Text := "" |} = Ok jpg_request
  /\ handlerRequest sample_ToLower_Map
       {| RequestQueryParams.Size := "300x200.";
          RequestQueryParams.Bg := ""; RequestQueryParams.Fg := "";
          RequestQueryParams.Text := "" |} = Ok sample_request
  /\ handlerRequest sample_ToLower_Map
       {| RequestQueryParams.Size := "300x200.tar.gz";
          RequestQueryParams.Bg := ""; RequestQueryParams.Fg := "";
          RequestQueryParams.Text := "" |} = Ok sample_request
  /\ handlerRequest sample_ToLower_Map
       {| RequestQueryParams.Size := "300x200.bmp";
          RequestQueryParams.Bg := ""; RequestQueryParams.Fg := "";
          RequestQueryParams.Text := "" |}
     = Err (errorString "unsupported image type: bmp").
Proof. repeat split. Qed.

Example handler_texts :
  handlerText "Hello%20World" = "Hello World"
  /\ handlerText "a+b" = "a b"
  /\ handlerText "100%" = "100%"
  /\ handlerText "50%zz" = "50%zz"
  /\ handlerText "%4a%4B" = "JK"
  /\ url.QueryUnescape "100%" = Err (url.EscapeError "%")
  /\ url.QueryUnescape "50%zz1" = Err (url.EscapeError "%zz").
Proof. repeat split. Qed.

Example handler_response :
  snd (sample_HandlerImage None None logo_params sample_generator
         sample_globals' 0 0)
  = {| fiber.status := 200;
       fiber.headers :=
         [("Content-Type", "image/jpeg");
          ("Cache-Control", "public, max-age=31536000")];
       fiber.body := fiber.Bytes [255; 216; 90] |}
  /\ snd (sample_HandlerImage
            (Some (LibError "fiber" "failed to decode")) None logo_params
            sample_generator sample_globals' 0 0)
     = fiber.Status_JSON 400 (LibError "fiber" "failed to decode").
Proof. split; vm_compute; reflexivity. Qed.

Example pool_of_a_new_generator :
  List.length (fonts (fontPool sample_generator)) = 32%nat
  /\ fontPool (st_ig first_call) = fontPool sample_generator
  /\ fonts (fontPool fontless_generator) = [].
Proof. repeat split. Qed.

(** X19 at the default request: a generator that has served a request
    already, its font parsed, and one that has nothing yet. *)
Definition blank_generator : ImageGenerator :=
  {| memoryCache := cache.New 1 0 false;
     fontPool := {| fonts := []; fonts_cap := 0 |} |}.

Lemma createImage_depends_on_request_only_witness :
  snd (sample_createImage (st_ig first_call) (st_globals first_call)
         sample_request)
  = snd (sample_createImage blank_generator sample_globals sample_request).
Proof.
  apply (createImage_depends_on_request_only sample_font sample_Parse
           sample_NewFace_err sample_LoadFontFace_err sample_MeasureString
           sample_png sample_jpeg sample_gif sample_webp (st_ig first_call)
           blank_generator (st_globals first_call) sample_globals
           sample_request).
  - right. reflexivity.
  - left. reflexivity.
Defined.

(** X20 at the default request, asked for again an hour later. *)
Definition first_answer : ImageGenerator * FontGlobals * fiber.Response :=
  sample_HandlerImage None None sample_params sample_generator sample_globals'
    0 0.

Lemma HandlerImage_same_answer_witness :
  exists c,
    sample_HandlerImage None None sample_params (fst (fst first_answer))
      (snd (fst first_answer)) 3600 3600
    = (set_memoryCache (fst (fst first_answer)) c, snd (fst first_answer),
       {| fiber.status := 200;
          fiber.headers :=
            [("Content-Type", "image/png");
             ("Cache-Control", "public, max-age=31536000")];
          fiber.body := fiber.Bytes [137; 80; 78; 71] |}).
Proof.
  apply (HandlerImage_same_answer sample_ToLower_Map sample_font sample_Parse
           sample_NewFace_err sample_LoadFontFace_err sample_MeasureString
           sample_png sample_jpeg sample_gif sample_webp sample_params
           sample_generator (fst (fst first_answer)) sample_globals'
           (snd (fst first_answer)) 0 0 3600 3600).
  - reflexivity.
  - lia.
  - vm_compute. discriminate.
  - vm_compute. reflexivity.
  - reflexivity.
Defined.
